(** * Repository synchronisation engine of mcp-neogit

    A shallow embedding of [src/mcp_server/handlers/github.py]
    ([GitHubManager.deploy_project], [_get_or_create_repo], [_upload_files],
    [_is_binary]) together with the properties of the engine that the
    design document states about it.  The development goes on with the
    caller of the engine, [deploy_github], with the parts of
    [src/mcp_server/handlers/analysis.py] that a deployment runs first
    ([ProjectAnalyzer._get_project_files], [_detect_language],
    [_generate_description]), and with further properties of the whole.

    Conventions of the embedding.
    - A Python [str] is the list of its code points ([pystr]); a Python
      [bytes] object is a [list byte].
    - A Python exception is a value of type [exn]; a computation that may
      raise returns [res A], [inl e] standing for "raised e".  The
      exceptions are those of class [Exception], which every [except] clause
      of the program catches.
    - The remote repository is reached through PyGithub.  That library is
      not part of the program, so its operations are the fields of the
      class [GitHubAPI] over an arbitrary world type; every operation maps a
      world to an outcome and a new world.  The program itself runs in the
      monad [M], which threads the world and a log of the calls issued. *)

From Stdlib Require Import List ZArith NArith Bool Lia String Ascii.
From Stdlib.Strings Require Import Byte.
From Stdlib Require Import DecimalString.
Import ListNotations.

Set Implicit Arguments.
Local Open Scope N_scope.

(** ** Python strings and bytes *)

Module Py.

Definition pystr := list N.
Definition bytes := list byte.

(** A literal: the code points of an ASCII string. *)
Fixpoint lit (s : string) : pystr :=
  match s with
  | EmptyString => []
  | String c r => N_of_ascii c :: lit r
  end.

Fixpoint str_eqb (a b : pystr) : bool :=
  match a, b with
  | [], [] => true
  | x :: a', y :: b' => (x =? y) && str_eqb a' b'
  | _, _ => false
  end.

(** [s.startswith(p)] *)
Fixpoint startswith (s p : pystr) : bool :=
  match p, s with
  | [], _ => true
  | y :: p', x :: s' => (x =? y) && startswith s' p'
  | _ :: _, [] => false
  end.

(** [p in s] for strings: [p] occurs as a contiguous slice of [s]. *)
Fixpoint contains (s p : pystr) : bool :=
  startswith s p ||
  match s with
  | [] => false
  | _ :: s' => contains s' p
  end.

(** [x in xs] for a list of strings. *)
Definition str_in (x : pystr) (xs : list pystr) : bool :=
  existsb (str_eqb x) xs.

(** [s.lower()].  Only the letters A-Z are mapped.  The one use in the
    program compares the result with ['readme.md'], and no code point outside
    ASCII has a lower-case form made of the letters of that word, so the
    comparison has the same outcome as with the full Unicode mapping. *)
Definition lower_cp (c : N) : N :=
  if (65 <=? c) && (c <=? 90) then c + 32 else c.

Definition lower (s : pystr) : pystr := map lower_cp s.

Definition in_range_N (lo hi n : N) : bool := (lo <=? n) && (n <=? hi).

(** [s.replace(a, b)] for one-character [a] and [b]. *)
Definition replace1 (a b : N) (s : pystr) : pystr :=
  map (fun c => if c =? a then b else c) s.

(** [str(n)] for a natural number. *)
Definition str_of_N (n : N) : pystr :=
  lit (NilEmpty.string_of_uint (N.to_uint n)).

(** [sep.join(parts)] *)
Fixpoint join (sep : pystr) (parts : list pystr) : pystr :=
  match parts with
  | [] => []
  | [p] => p
  | p :: rest => p ++ sep ++ join sep rest
  end.

End Py.
Import Py.

(** ** UTF-8 decoding, as [bytes.decode('utf-8')] performs it

    The strict decoder accepts exactly the well-formed byte sequences of the
    Unicode standard: shortest forms only, no surrogates, nothing above
    U+10FFFF.  [None] stands for [UnicodeDecodeError]. *)

Module Utf8.

(** A continuation byte, 0x80..0xBF. *)
Definition is_cont (n : N) : bool := (0x80 <=? n) && (n <=? 0xBF).

Definition in_range (lo hi n : N) : bool := (lo <=? n) && (n <=? hi).

(** The range allowed for the second byte, given the first one. *)
Definition second_ok (n0 n1 : N) : bool :=
  if n0 =? 0xE0 then in_range 0xA0 0xBF n1
  else if n0 =? 0xED then in_range 0x80 0x9F n1
  else if n0 =? 0xF0 then in_range 0x90 0xBF n1
  else if n0 =? 0xF4 then in_range 0x80 0x8F n1
  else is_cont n1.

Definition low6 (n : N) : N := N.land n 0x3F.

Fixpoint decode (bs : bytes) : option pystr :=
  match bs with
  | [] => Some []
  | b0 :: r0 =>
    let n0 := Byte.to_N b0 in
    if n0 <=? 0x7F then option_map (cons n0) (decode r0)
    else if in_range 0xC2 0xDF n0 then
      match r0 with
      | b1 :: r1 =>
        let n1 := Byte.to_N b1 in
        if is_cont n1
        then option_map (cons (N.lor (N.shiftl (N.land n0 0x1F) 6) (low6 n1)))
                        (decode r1)
        else None
      | _ => None
      end
    else if in_range 0xE0 0xEF n0 then
      match r0 with
      | b1 :: b2 :: r2 =>
        let n1 := Byte.to_N b1 in
        let n2 := Byte.to_N b2 in
        if second_ok n0 n1 && is_cont n2
        then option_map
               (cons (N.lor (N.shiftl (N.land n0 0x0F) 12)
                        (N.lor (N.shiftl (low6 n1) 6) (low6 n2))))
               (decode r2)
        else None
      | _ => None
      end
    else if in_range 0xF0 0xF4 n0 then
      match r0 with
      | b1 :: b2 :: b3 :: r3 =>
        let n1 := Byte.to_N b1 in
        let n2 := Byte.to_N b2 in
        let n3 := Byte.to_N b3 in
        if second_ok n0 n1 && is_cont n2 && is_cont n3
        then option_map
               (cons (N.lor (N.shiftl (N.land n0 0x07) 18)
                        (N.lor (N.shiftl (low6 n1) 12)
                           (N.lor (N.shiftl (low6 n2) 6) (low6 n3)))))
               (decode r3)
        else None
      | _ => None
      end
    else None
  end.

End Utf8.

(** ** Base64, as [base64.b64encode] *)

Module Base64.

Definition alphabet : bytes :=
  list_byte_of_string
    "ABCDEFGHIJKLMNOPQRSTUVWXYZabcdefghijklmnopqrstuvwxyz0123456789+/".

Definition pad : byte := "="%byte.

Definition digit (i : N) : byte := nth (N.to_nat i) alphabet pad.

Fixpoint b64encode (bs : bytes) : bytes :=
  match bs with
  | [] => []
  | [b0] =>
    let n := N.shiftl (Byte.to_N b0) 16 in
    [digit (N.shiftr n 18); digit (N.land (N.shiftr n 12) 63); pad; pad]
  | [b0; b1] =>
    let n := N.lor (N.shiftl (Byte.to_N b0) 16) (N.shiftl (Byte.to_N b1) 8) in
    [digit (N.shiftr n 18); digit (N.land (N.shiftr n 12) 63);
     digit (N.land (N.shiftr n 6) 63); pad]
  | b0 :: b1 :: b2 :: r =>
    let n := N.lor (N.shiftl (Byte.to_N b0) 16)
               (N.lor (N.shiftl (Byte.to_N b1) 8) (Byte.to_N b2)) in
    digit (N.shiftr n 18) :: digit (N.land (N.shiftr n 12) 63)
      :: digit (N.land (N.shiftr n 6) 63) :: digit (N.land n 63)
      :: b64encode r
  end.

End Base64.

(** ** The content classifier: [GitHubManager._is_binary] *)

Definition is_nul (b : byte) : bool := Byte.eqb b x00.

Definition _is_binary (content : bytes) : bool :=
  if existsb is_nul content then true
  else match Utf8.decode content with
       | Some _ => false
       | None => true
       end.

(** ** Exceptions and fallible results *)

(** What the program inspects of an exception: the [status] attribute, when
    the exception has one ([hasattr(e, 'status')]), and [str(e)]. *)
Record exn := mkExn { exn_status : option Z; exn_str : pystr }.

Definition res (A : Type) : Type := (exn + A)%type.

Definition is_raised {A} (r : res A) : option exn :=
  match r with inl e => Some e | inr _ => None end.

(** The exception raised by [bytes.decode('utf-8')] on ill-formed input. *)
Definition UnicodeDecodeError : exn :=
  mkExn None (lit "'utf-8' codec can't decode bytes").

(** The exception raised by [contents.sha] when [get_contents] returned a
    directory listing (a Python list). *)
Definition AttributeError_sha : exn :=
  mkExn None (lit "'list' object has no attribute 'sha'").

(** [content.decode('utf-8')] *)
Definition bytes_decode (content : bytes) : res pystr :=
  match Utf8.decode content with
  | Some s => inr s
  | None => inl UnicodeDecodeError
  end.

(** ** The local project directory *)

(** A directory entry.  [st_size] is the outcome of [Path.stat().st_size],
    which raises on an entry that cannot be examined. *)
#[local] Unset Elimination Schemes.
Inductive entry : Type :=
| File (name : pystr) (st_size : res Z)
| Dir (name : pystr) (children : list entry).
#[local] Set Elimination Schemes.

(** The project directory as the engine sees it: [str(project_path)],
    [project_path.name], the entries below it, and the outcome of
    [open(path, 'rb').read()] for every path. *)
Record project := mkProject {
  project_path : pystr;
  project_name : pystr;
  project_entries : list entry;
  read_bytes : pystr -> res bytes
}.

(** ** FileCollector: the [os.walk] loop of [_upload_files] *)

Definition EXCLUDE_PATTERNS : list pystr :=
  [lit ".git"; lit "node_modules"; lit "__pycache__"; lit "venv";
   lit ".DS_Store"; lit ".mypy_cache"].

Definition MAX_FILE_SIZE : Z := 5 * 1024 * 1024.

Definition sep : pystr := lit "/".

(** [d not in self.EXCLUDE_PATTERNS and not d.startswith('.')] *)
Definition keep_dir (d : pystr) : bool :=
  negb (str_in d EXCLUDE_PATTERNS) && negb (startswith d (lit ".")).

(** [file.startswith('.') or file in self.EXCLUDE_PATTERNS] *)
Definition skip_file (file : pystr) : bool :=
  startswith file (lit ".") || str_in file EXCLUDE_PATTERNS.

(** An element of [files_to_upload]: [(file_path, str(rel_path))]. *)
Definition upload_item : Type := (pystr * pystr)%type.

(** The files of one directory, in listing order.  [root] is the path of the
    directory and [rel] its components below the project directory. *)
Fixpoint collect_files (root : pystr) (rel : list pystr) (es : list entry)
  : res (list upload_item) :=
  match es with
  | [] => inr []
  | Dir _ _ :: es' => collect_files root rel es'
  | File file size :: es' =>
    if skip_file file then collect_files root rel es'
    else
      match size with
      | inl e => inl e
      | inr sz =>
        if (sz >? MAX_FILE_SIZE)%Z then collect_files root rel es'
        else
          match collect_files root rel es' with
          | inl e => inl e
          | inr l => inr ((root ++ sep ++ file, join sep (rel ++ [file])) :: l)
          end
      end
  end.

(** Concatenation of the results of a fallible function over a list; the
    first exception raised ends the traversal. *)
Section FlatRes.
Variables (A B : Type) (f : A -> res (list B)).

Fixpoint flat_res (l : list A) : res (list B) :=
  match l with
  | [] => inr []
  | x :: l' =>
    match f x with
    | inl e => inl e
    | inr a =>
      match flat_res l' with
      | inl e => inl e
      | inr b => inr (a ++ b)
      end
    end
  end.
End FlatRes.

(** One step of [os.walk], which is top-down: the files of the directory
    first, then what [sub] yields for each of its entries in turn. *)
Definition walk_level (sub : entry -> res (list upload_item))
    (root : pystr) (rel : list pystr) (es : list entry)
  : res (list upload_item) :=
  match collect_files root rel es with
  | inl e => inl e
  | inr here =>
    match flat_res sub es with
    | inl e => inl e
    | inr below => inr (here ++ below)
    end
  end.

(** What the walk yields below one entry of a directory: nothing for a file
    (it was handled with the files of its directory) and nothing for a
    sub-directory removed by the in-place pruning of [dirs]. *)
Fixpoint walk_entry (root : pystr) (rel : list pystr) (e : entry) {struct e}
  : res (list upload_item) :=
  match e with
  | File _ _ => inr []
  | Dir d children =>
    if keep_dir d
    then walk_level (walk_entry (root ++ sep ++ d) (rel ++ [d]))
                    (root ++ sep ++ d) (rel ++ [d]) children
    else inr []
  end.

Definition walk (root : pystr) (rel : list pystr) (es : list entry)
  : res (list upload_item) :=
  walk_level (walk_entry root rel) root rel es.

Definition gather (p : project) : res (list upload_item) :=
  walk (project_path p) [] (project_entries p).

(** ** The remote repository API (PyGithub) *)

Record Repository := mkRepository {
  html_url : pystr;
  default_branch : pystr
}.

Record GitRef := mkGitRef { ref_name : pystr; ref_object_sha : pystr }.
Record GitCommit := mkGitCommit { commit_sha : pystr; commit_tree_sha : pystr }.
Record GitTree := mkGitTree { tree_sha : pystr }.
Record GitBlob := mkGitBlob { blob_sha : pystr }.
Record ContentFile := mkContentFile { content_sha : pystr }.

(** [InputGitTreeElement(path, mode, type, sha=...)] *)
Record InputGitTreeElement := mkElement {
  el_path : pystr;
  el_mode : pystr;
  el_type : pystr;
  el_sha : pystr
}.

(** [get_contents] returns one [ContentFile] for a file and a list of them
    for a directory. *)
Inductive contents : Type :=
| OneFile (c : ContentFile)
| Listing (l : list ContentFile).

(** The operations of PyGithub that the engine calls.  [W] is the state of
    everything behind the API; an operation may change it whether it returns
    or raises. *)
Class GitHubAPI (W : Type) : Type := {
  get_repo : pystr -> W -> res Repository * W;
  create_repo : pystr -> pystr -> bool -> W -> res Repository * W;
  get_git_ref : Repository -> pystr -> W -> res GitRef * W;
  get_git_commit : Repository -> pystr -> W -> res GitCommit * W;
  get_git_tree : Repository -> pystr -> W -> res GitTree * W;
  get_contents : Repository -> pystr -> pystr -> W -> res contents * W;
  create_file :
    Repository -> pystr -> pystr -> pystr -> pystr -> W -> res unit * W;
  update_file :
    Repository -> pystr -> pystr -> pystr -> pystr -> pystr -> W ->
    res unit * W;
  create_git_blob : Repository -> pystr -> pystr -> W -> res GitBlob * W;
  create_git_tree :
    Repository -> list InputGitTreeElement -> GitTree -> W -> res GitTree * W;
  create_git_commit :
    Repository -> pystr -> GitTree -> list GitCommit -> W -> res GitCommit * W;
  create_git_ref : Repository -> pystr -> pystr -> W -> res GitRef * W;
  git_ref_edit : Repository -> GitRef -> pystr -> W -> res unit * W
}.

(** The calls, as they are recorded in the log of a run. *)
Inductive call : Type :=
| GetRepo (name : pystr)
| CreateRepo (name description : pystr) (private : bool)
| GetGitRef (ref : pystr)
| GetGitCommit (sha : pystr)
| GetGitTree (sha : pystr)
| GetContents (path ref : pystr)
| CreateFile (path message content branch : pystr)
| UpdateFile (path message content sha branch : pystr)
| CreateGitBlob (content encoding : pystr)
| CreateGitTree (elements : list InputGitTreeElement) (base_tree : GitTree)
| CreateGitCommit (message : pystr) (tree : GitTree) (parents : list GitCommit)
| CreateGitRef (ref sha : pystr)
| GitRefEdit (ref : GitRef) (sha : pystr).

(** What a call returns, whatever the call. *)
Inductive reply : Type :=
| RUnit
| RRepository (r : Repository)
| RGitRef (r : GitRef)
| RGitCommit (c : GitCommit)
| RGitTree (t : GitTree)
| RGitBlob (b : GitBlob)
| RContents (c : contents).

(** A logged call with its outcome: the exception raised or the value
    returned. *)
Record event := mkEvent { ev_call : call; ev_result : res reply }.

Abbreviation returned c v := (mkEvent c (inr v)).
Abbreviation raised c e := (mkEvent c (inl e)).

Definition ev_raised (ev : event) : option exn := is_raised (ev_result ev).

Definition answer {A} (tag : A -> reply) (r : res A) : res reply :=
  match r with
  | inl e => inl e
  | inr a => inr (tag a)
  end.

Definition unit_reply (_ : unit) : reply := RUnit.

(** ** The monad of the engine: world, call log and exceptions *)

Section Monad.
Variable W : Type.

Record state := mkState { world : W; log : list event }.

Definition M (A : Type) : Type := state -> res A * state.

Definition ret {A} (a : A) : M A := fun s => (inr a, s).

Definition raise {A} (e : exn) : M A := fun s => (inl e, s).

Definition bind {A B} (m : M A) (k : A -> M B) : M B :=
  fun s =>
    match m s with
    | (inl e, s') => (inl e, s')
    | (inr a, s') => k a s'
    end.

(** [try: m except Exception as e: h e] *)
Definition try_except {A} (m : M A) (h : exn -> M A) : M A :=
  fun s =>
    match m s with
    | (inl e, s') => h e s'
    | (inr a, s') => (inr a, s')
    end.

(** A local computation that may raise. *)
Definition lift {A} (r : res A) : M A := fun s => (r, s).

(** A remote call: the world moves and the call is appended to the log. *)
Definition invoke {A} (c : call) (tag : A -> reply) (op : W -> res A * W)
  : M A :=
  fun s =>
    let (r, w') := op (world s) in
    (r, mkState w' (log s ++ [mkEvent c (answer tag r)])).
End Monad.

Arguments ret {W A} a.
Arguments raise {W A} e.
Arguments bind {W A B} m k.
Arguments try_except {W A} m h.
Arguments lift {W A} r.
Arguments invoke {W A} c tag op.
Arguments mkState {W} world log.
Arguments world {W} s.
Arguments log {W} s.

Declare Scope engine_scope.
Delimit Scope engine_scope with engine.
Notation "x <- m ;; k" := (bind m (fun x => k))
  (at level 61, m at next level, right associativity) : engine_scope.
Notation "m ;;; k" := (bind m (fun _ => k))
  (at level 61, right associativity) : engine_scope.
Notation "' pat <- m ;; k" := (bind m (fun x => match x with pat => k end))
  (at level 61, pat pattern, m at next level, right associativity)
  : engine_scope.

(** ** The engine: [GitHubManager] *)

(** What [_upload_files] returns. *)
Record upload_result := mkResult { files_uploaded : Z; files_skipped : Z }.

(** The local variables of the upload loop. *)
Record loop_state := mkLoop {
  n_uploaded : Z;
  n_skipped : Z;
  tree_elements : list InputGitTreeElement
}.

(** What [deploy_project] returns: the dictionary with ["success": False]
    and an error, or the one with ["success": True]. *)
Inductive deploy_result : Type :=
| DeployFailed (error : pystr)
| DeployOk (repository_url repository_name branch : pystr) (private : bool)
           (uploaded skipped : Z).

Definition success (r : deploy_result) : bool :=
  match r with DeployFailed _ => false | DeployOk _ _ _ _ _ _ => true end.

(** [if readme_content:] holds for a string that is not empty. *)
Definition truthy (readme_content : option pystr) : bool :=
  match readme_content with
  | Some (_ :: _) => true
  | _ => false
  end.

(** The test that tells an empty repository from a missing branch:
    [hasattr(e, 'status') and e.status == 409 or
     'Git Repository is empty' in str(e)]. *)
Definition is_empty_repo (e : exn) : bool :=
  match exn_status e with
  | Some st => (st =? 409)%Z
  | None => false
  end
  || contains (exn_str e) (lit "Git Repository is empty").

(** ['404' in str(e) or 'Not Found' in str(e)] *)
Definition is_not_found (e : exn) : bool :=
  contains (exn_str e) (lit "404") || contains (exn_str e) (lit "Not Found").

Definition item_eqb (a b : upload_item) : bool :=
  str_eqb (fst a) (fst b) && str_eqb (snd a) (snd b).

(** [str(rp).lower() == 'readme.md'] *)
Definition is_readme (t : upload_item) : bool :=
  str_eqb (lower (snd t)) (lit "readme.md").

(** [contents.sha] *)
Definition contents_sha (c : contents) : res pystr :=
  match c with
  | OneFile f => inr (content_sha f)
  | Listing _ => inl AttributeError_sha
  end.

Section Engine.
Context {W : Type} {api : GitHubAPI W}.
Local Open Scope engine_scope.

Variable isalnum : N -> bool.
Variable local : project.

(** The three look-ups that resolve a branch to its head commit and tree:
    [ref = repo.get_git_ref(f'heads/{branch}')],
    [latest_commit = repo.get_git_commit(ref.object.sha)],
    [base_tree = repo.get_git_tree(latest_commit.tree.sha)]. *)
Definition resolve_head (repo : Repository) (branch : pystr)
  : M W (GitRef * GitCommit * GitTree) :=
  ref <- invoke (GetGitRef (lit "heads/" ++ branch)) RGitRef
                (get_git_ref repo (lit "heads/" ++ branch)) ;;
  latest_commit <- invoke (GetGitCommit (ref_object_sha ref)) RGitCommit
                          (get_git_commit repo (ref_object_sha ref)) ;;
  base_tree <- invoke (GetGitTree (commit_tree_sha latest_commit)) RGitTree
                      (get_git_tree repo (commit_tree_sha latest_commit)) ;;
  ret (ref, latest_commit, base_tree).

Definition do_create_file (repo : Repository)
    (path message content branch : pystr) : M W unit :=
  invoke (CreateFile path message content branch) unit_reply
         (create_file repo path message content branch).

(** The initial commit on an empty repository; returns [files_to_upload]
    as the rest of the run is to see it. *)
Definition initial_commit (repo : Repository)
    (readme_content : option pystr) (branch : pystr)
    (files_to_upload : list upload_item) : M W (list upload_item) :=
  if truthy readme_content then
    do_create_file repo (lit "README.md") (lit "Initial commit: README.md")
      (match readme_content with Some s => s | None => [] end) branch ;;;
    ret files_to_upload
  else
    match find is_readme files_to_upload with
    | Some readme_tuple =>
      let (file_path, rel_path) := readme_tuple in
      content <- lift (read_bytes local file_path) ;;
      text <- lift (bytes_decode content) ;;
      do_create_file repo rel_path (lit "Initial commit: " ++ rel_path)
        text branch ;;;
      ret (filter (fun t => negb (item_eqb t readme_tuple)) files_to_upload)
    | None =>
      do_create_file repo (lit "README.md") (lit "Initial commit: README.md")
        (lit "# " ++ project_name local) branch ;;;
      ret files_to_upload
    end.

(** The branch of a repository that has commits but not the branch. *)
Definition create_branch (repo : Repository) (branch : pystr)
  : M W (GitRef * GitCommit * GitTree) :=
  master_ref <-
    try_except
      (invoke (GetGitRef (lit "heads/main")) RGitRef
              (get_git_ref repo (lit "heads/main")))
      (fun _ =>
         invoke (GetGitRef (lit "heads/" ++ default_branch repo)) RGitRef
                (get_git_ref repo (lit "heads/" ++ default_branch repo))) ;;
  ref <- invoke (CreateGitRef (lit "refs/heads/" ++ branch)
                              (ref_object_sha master_ref)) RGitRef
                (create_git_ref repo (lit "refs/heads/" ++ branch)
                                (ref_object_sha master_ref)) ;;
  latest_commit <- invoke (GetGitCommit (ref_object_sha master_ref)) RGitCommit
                          (get_git_commit repo (ref_object_sha master_ref)) ;;
  base_tree <- invoke (GetGitTree (commit_tree_sha latest_commit)) RGitTree
                      (get_git_tree repo (commit_tree_sha latest_commit)) ;;
  ret (ref, latest_commit, base_tree).

(** "Ensure branch exists": the first [try] block of [_upload_files]. *)
Definition ensure_branch (repo : Repository)
    (readme_content : option pystr) (branch : pystr)
    (files_to_upload : list upload_item)
  : M W (list upload_item * (GitRef * GitCommit * GitTree)) :=
  try_except
    (head <- resolve_head repo branch ;; ret (files_to_upload, head))
    (fun e =>
       if is_empty_repo e then
         files <- initial_commit repo readme_content branch files_to_upload ;;
         head <- resolve_head repo branch ;;
         ret (files, head)
       else
         head <- create_branch repo branch ;;
         ret (files_to_upload, head)).

(** The text path of the loop body. *)
Definition upload_text (repo : Repository) (branch rel_path : pystr)
    (content : bytes) : M W unit :=
  try_except
    (c <- invoke (GetContents rel_path branch) RContents
                 (get_contents repo rel_path branch) ;;
     text <- lift (bytes_decode content) ;;
     sha <- lift (contents_sha c) ;;
     invoke (UpdateFile rel_path (lit "Update " ++ rel_path) text sha branch)
            unit_reply
            (update_file repo rel_path (lit "Update " ++ rel_path) text sha
                         branch))
    (fun e =>
       if is_not_found e then
         text <- lift (bytes_decode content) ;;
         do_create_file repo rel_path (lit "Add " ++ rel_path) text branch
       else raise e).

(** The binary path of the loop body; returns [tree_elements] after the
    [append]. *)
Definition stage_binary (repo : Repository) (rel_path : pystr)
    (content : bytes) (elements : list InputGitTreeElement)
  : M W (list InputGitTreeElement) :=
  b64 <- lift (bytes_decode (Base64.b64encode content)) ;;
  blob <- invoke (CreateGitBlob b64 (lit "base64")) RGitBlob
                 (create_git_blob repo b64 (lit "base64")) ;;
  ret (elements ++
       [mkElement rel_path (lit "100644") (lit "blob") (blob_sha blob)]).

(** The body of the [try] of the loop, up to [files_uploaded += 1].
    [mimetypes.guess_type] is a pure look-up whose result is not used. *)
Definition upload_one (repo : Repository) (branch : pystr)
    (t : upload_item) (st : loop_state) : M W loop_state :=
  let (file_path, rel_path) := t in
  content <- lift (read_bytes local file_path) ;;
  elements <-
    (if _is_binary content
     then stage_binary repo rel_path content (tree_elements st)
     else upload_text repo branch rel_path content ;;;
          ret (tree_elements st)) ;;
  ret (mkLoop (n_uploaded st + 1) (n_skipped st) elements).

(** One iteration: the [try] and its [except Exception] clause. *)
Definition loop_step (repo : Repository) (branch : pystr)
    (st : loop_state) (t : upload_item) : M W loop_state :=
  try_except
    (upload_one repo branch t st)
    (fun _ => ret (mkLoop (n_uploaded st) (n_skipped st + 1)
                          (tree_elements st))).

Fixpoint upload_loop (repo : Repository) (branch : pystr)
    (files : list upload_item) (st : loop_state) : M W loop_state :=
  match files with
  | [] => ret st
  | t :: rest =>
    st' <- loop_step repo branch st t ;;
    upload_loop repo branch rest st'
  end.

(** The body of the last [try]: the batched commit of the binary files. *)
Definition commit_elements (repo : Repository) (branch : pystr)
    (elements : list InputGitTreeElement) : M W unit :=
  '(ref, latest_commit, base_tree) <- resolve_head repo branch ;;
  new_tree <- invoke (CreateGitTree elements base_tree) RGitTree
                     (create_git_tree repo elements base_tree) ;;
  new_commit <-
    invoke (CreateGitCommit (lit "Add/update binary files") new_tree
                            [latest_commit]) RGitCommit
           (create_git_commit repo (lit "Add/update binary files") new_tree
                              [latest_commit]) ;;
  invoke (GitRefEdit ref (commit_sha new_commit)) unit_reply
         (git_ref_edit repo ref (commit_sha new_commit)).

(** "Commit binary files if any". *)
Definition commit_binary (repo : Repository) (branch : pystr)
    (elements : list InputGitTreeElement) : M W unit :=
  match elements with
  | [] => ret tt
  | _ :: _ =>
    try_except (commit_elements repo branch elements) (fun _ => ret tt)
  end.

Definition loop_init : loop_state := mkLoop 0 0 [].

(** The part of [_upload_files] that follows the branch bootstrap. *)
Definition upload_phase (repo : Repository) (branch : pystr)
    (files : list upload_item) : M W upload_result :=
  st <- upload_loop repo branch files loop_init ;;
  commit_binary repo branch (tree_elements st) ;;;
  ret (mkResult (n_uploaded st) (n_skipped st)).

Definition _upload_files (repo : Repository)
    (readme_content : option pystr) (branch : pystr) : M W upload_result :=
  files_to_upload <- lift (gather local) ;;
  '(files, _) <- ensure_branch repo readme_content branch files_to_upload ;;
  upload_phase repo branch files.

Definition _get_or_create_repo (repo_name description : pystr)
    (private : bool) : M W (option Repository) :=
  try_except
    (repo <- invoke (GetRepo repo_name) RRepository (get_repo repo_name) ;;
     ret (Some repo))
    (fun _ =>
       try_except
         (repo <- invoke (CreateRepo repo_name description private) RRepository
                         (create_repo repo_name description private) ;;
          ret (Some repo))
         (fun _ => ret None)).

(** [repo_name]: spaces and underscores become hyphens, then only the
    characters with [c.isalnum() or c in '-_'] are kept. *)
Definition sanitize (name : pystr) : pystr :=
  filter (fun c => isalnum c || contains (lit "-_") [c])
         (replace1 95 45 (replace1 32 45 name)).

(** [deploy_project].  [analysis] is the outcome of
    [ProjectAnalyzer(project_path).analyze()] as far as it is used: the
    description of the project, or the exception raised; the name it
    reports is [project_path.name]. *)
Definition deploy_project (analysis : res pystr)
    (readme_content : option pystr) (branch : pystr) (private : bool)
  : M W deploy_result :=
  description <- lift analysis ;;
  let repo_name := sanitize (project_name local) in
  r <- _get_or_create_repo repo_name description private ;;
  match r with
  | None =>
    ret (DeployFailed (lit "Failed to get or create repository: " ++ repo_name))
  | Some repo =>
    result <- _upload_files repo readme_content branch ;;
    ret (DeployOk (html_url repo) repo_name branch private
                  (files_uploaded result) (files_skipped result))
  end.

End Engine.

(** ** A reference remote

    An in-memory repository host behind the API, used to run the engine on
    concrete inputs.  Objects are named by a counter; [sim_faults] scripts
    the outcome of the calls to come, one entry per call: [Some e] makes the
    call raise [e] and leaves the repository as it is, [None] (or an
    exhausted script) lets the call through. *)

Module Sim.

Record sim := mkSim {
  sim_exists : bool;
  sim_default : pystr;
  sim_refs : list (pystr * pystr);
  sim_commits : list (pystr * pystr);
  sim_trees : list (pystr * list (pystr * pystr));
  sim_blobs : list (pystr * pystr);
  sim_next : N;
  sim_faults : list (option exn)
}.

Fixpoint lookup {A} (k : pystr) (l : list (pystr * A)) : option A :=
  match l with
  | [] => None
  | (k', v) :: l' => if str_eqb k k' then Some v else lookup k l'
  end.

Fixpoint assign {A} (k : pystr) (v : A) (l : list (pystr * A))
  : list (pystr * A) :=
  match l with
  | [] => [(k, v)]
  | (k', v') :: l' =>
    if str_eqb k k' then (k, v) :: l' else (k', v') :: assign k v l'
  end.

Definition err (status : Z) (msg : string) : exn :=
  mkExn (Some status) (lit msg).

Definition not_found : exn := err 404 "404 Not Found".

Definition with_faults (w : sim) (f : list (option exn)) : sim :=
  mkSim (sim_exists w) (sim_default w) (sim_refs w) (sim_commits w)
        (sim_trees w) (sim_blobs w) (sim_next w) f.

Definition scripted {A} (op : sim -> res A * sim) (w : sim) : res A * sim :=
  match sim_faults w with
  | Some e :: rest => (inl e, with_faults w rest)
  | None :: rest => op (with_faults w rest)
  | [] => op w
  end.

Definition fresh (w : sim) : pystr := lit "sha" ++ str_of_N (sim_next w).

Definition repo_of (w : sim) (name : pystr) : Repository :=
  mkRepository (lit "https://github.com/user/" ++ name) (sim_default w).

(** The entries of the tree at the head of a branch. *)
Definition head_entries (w : sim) (branch : pystr)
  : option (list (pystr * pystr)) :=
  match lookup (lit "heads/" ++ branch) (sim_refs w) with
  | None => None
  | Some c =>
    match lookup c (sim_commits w) with
    | None => None
    | Some t => lookup t (sim_trees w)
    end
  end.

(** A new blob, tree and commit, and the branch moved to the commit. *)
Definition commit_file (w : sim) (branch path content : pystr)
    (base : list (pystr * pystr)) : sim :=
  let b := fresh w in
  let t := b ++ lit "t" in
  let c := b ++ lit "c" in
  mkSim (sim_exists w) (sim_default w)
        (assign (lit "heads/" ++ branch) c (sim_refs w))
        ((c, t) :: sim_commits w)
        ((t, assign path b base) :: sim_trees w)
        ((b, content) :: sim_blobs w)
        (sim_next w + 1) (sim_faults w).

Definition sim_get_repo (name : pystr) (w : sim) : res Repository * sim :=
  if sim_exists w then (inr (repo_of w name), w) else (inl not_found, w).

Definition sim_create_repo (name description : pystr) (private : bool)
    (w : sim) : res Repository * sim :=
  if sim_exists w then (inl (err 422 "422 name already exists"), w)
  else
    let w' := mkSim true (sim_default w) [] [] [] [] (sim_next w)
                    (sim_faults w) in
    (inr (repo_of w' name), w').

Definition sim_get_git_ref (_ : Repository) (name : pystr) (w : sim)
  : res GitRef * sim :=
  match sim_commits w with
  | [] => (inl (err 409 "409 Git Repository is empty."), w)
  | _ :: _ =>
    match lookup name (sim_refs w) with
    | Some c => (inr (mkGitRef (lit "refs/" ++ name) c), w)
    | None => (inl not_found, w)
    end
  end.

Definition sim_get_git_commit (_ : Repository) (sha : pystr) (w : sim)
  : res GitCommit * sim :=
  match lookup sha (sim_commits w) with
  | Some t => (inr (mkGitCommit sha t), w)
  | None => (inl not_found, w)
  end.

Definition sim_get_git_tree (_ : Repository) (sha : pystr) (w : sim)
  : res GitTree * sim :=
  match lookup sha (sim_trees w) with
  | Some _ => (inr (mkGitTree sha), w)
  | None => (inl not_found, w)
  end.

Definition sim_get_contents (_ : Repository) (path branch : pystr) (w : sim)
  : res contents * sim :=
  match head_entries w branch with
  | None => (inl not_found, w)
  | Some es =>
    match lookup path es with
    | Some b => (inr (OneFile (mkContentFile b)), w)
    | None => (inl not_found, w)
    end
  end.

Definition sim_create_file (_ : Repository)
    (path message content branch : pystr) (w : sim) : res unit * sim :=
  match sim_commits w with
  | [] => (inr tt, commit_file w branch path content [])
  | _ :: _ =>
    match head_entries w branch with
    | None => (inl (err 404 "404 Branch not found"), w)
    | Some es =>
      match lookup path es with
      | Some _ => (inl (err 422 "422 sha was not supplied"), w)
      | None => (inr tt, commit_file w branch path content es)
      end
    end
  end.

Definition sim_update_file (_ : Repository)
    (path message content sha branch : pystr) (w : sim) : res unit * sim :=
  match head_entries w branch with
  | None => (inl not_found, w)
  | Some es =>
    match lookup path es with
    | None => (inl not_found, w)
    | Some b =>
      if str_eqb b sha then (inr tt, commit_file w branch path content es)
      else (inl (err 409 "409 path does not match sha"), w)
    end
  end.

Definition sim_create_git_blob (_ : Repository) (content encoding : pystr)
    (w : sim) : res GitBlob * sim :=
  let b := fresh w in
  (inr (mkGitBlob b),
   mkSim (sim_exists w) (sim_default w) (sim_refs w) (sim_commits w)
         (sim_trees w) ((b, content) :: sim_blobs w) (sim_next w + 1)
         (sim_faults w)).

Definition sim_create_git_tree (_ : Repository)
    (elements : list InputGitTreeElement) (base_tree : GitTree) (w : sim)
  : res GitTree * sim :=
  match lookup (tree_sha base_tree) (sim_trees w) with
  | None => (inl not_found, w)
  | Some es =>
    let t := fresh w ++ lit "t" in
    let es' := fold_left (fun acc el => assign (el_path el) (el_sha el) acc)
                         elements es in
    (inr (mkGitTree t),
     mkSim (sim_exists w) (sim_default w) (sim_refs w) (sim_commits w)
           ((t, es') :: sim_trees w) (sim_blobs w) (sim_next w + 1)
           (sim_faults w))
  end.

Definition sim_create_git_commit (_ : Repository) (message : pystr)
    (tree : GitTree) (parents : list GitCommit) (w : sim)
  : res GitCommit * sim :=
  let c := fresh w ++ lit "c" in
  (inr (mkGitCommit c (tree_sha tree)),
   mkSim (sim_exists w) (sim_default w) (sim_refs w)
         ((c, tree_sha tree) :: sim_commits w) (sim_trees w) (sim_blobs w)
         (sim_next w + 1) (sim_faults w)).

Definition set_ref (w : sim) (name sha : pystr) : sim :=
  mkSim (sim_exists w) (sim_default w) (assign name sha (sim_refs w))
        (sim_commits w) (sim_trees w) (sim_blobs w) (sim_next w)
        (sim_faults w).

(** [refs/heads/x] is stored under [heads/x]. *)
Definition short_ref (ref : pystr) : pystr :=
  if startswith ref (lit "refs/") then skipn 5 ref else ref.

Definition sim_create_git_ref (_ : Repository) (ref sha : pystr) (w : sim)
  : res GitRef * sim :=
  match lookup (short_ref ref) (sim_refs w) with
  | Some _ => (inl (err 422 "422 Reference already exists"), w)
  | None => (inr (mkGitRef ref sha), set_ref w (short_ref ref) sha)
  end.

Definition sim_git_ref_edit (_ : Repository) (ref : GitRef) (sha : pystr)
    (w : sim) : res unit * sim :=
  match lookup (short_ref (ref_name ref)) (sim_refs w) with
  | None => (inl not_found, w)
  | Some _ => (inr tt, set_ref w (short_ref (ref_name ref)) sha)
  end.

#[global] Instance sim_api : GitHubAPI sim := {
  get_repo n := scripted (sim_get_repo n);
  create_repo n d p := scripted (sim_create_repo n d p);
  get_git_ref r n := scripted (sim_get_git_ref r n);
  get_git_commit r s := scripted (sim_get_git_commit r s);
  get_git_tree r s := scripted (sim_get_git_tree r s);
  get_contents r p b := scripted (sim_get_contents r p b);
  create_file r p m c b := scripted (sim_create_file r p m c b);
  update_file r p m c s b := scripted (sim_update_file r p m c s b);
  create_git_blob r c e := scripted (sim_create_git_blob r c e);
  create_git_tree r els t := scripted (sim_create_git_tree r els t);
  create_git_commit r m t ps := scripted (sim_create_git_commit r m t ps);
  create_git_ref r n s := scripted (sim_create_git_ref r n s);
  git_ref_edit r g s := scripted (sim_git_ref_edit r g s)
}.

(** An account without the repository, a repository without commits, and
    a start state of a run. *)
Definition no_repo : sim := mkSim false (lit "main") [] [] [] [] 0 [].
Definition empty_repo : sim := mkSim true (lit "main") [] [] [] [] 0 [].
Definition start (w : sim) : state sim := mkState w [].

End Sim.

(** ** Concrete projects and repositories

    Small inputs on which the engine is run in the reference remote. *)

Module Fixtures.
Import Sim.

(** [c.isalnum()] on ASCII. *)
Definition ascii_isalnum (c : N) : bool :=
  in_range_N 48 57 c || in_range_N 65 90 c || in_range_N 97 122 c.

Definition no_such_file : exn := mkExn None (lit "No such file or directory").

(** Reading from a table of path and content. *)
Definition read_from (tbl : list (pystr * bytes)) (path : pystr) : res bytes :=
  match lookup path tbl with
  | Some b => inr b
  | None => inl no_such_file
  end.

Definition server_error : exn := err 500 "500 Server Error".

Definition the_repo : Repository := repo_of empty_repo (lit "p").

(** A repository with one commit on [main]. *)
Definition seeded : sim :=
  commit_file empty_repo (lit "main") (lit "README.md") (lit "# p") [].

(** A project with one text file and one binary file. *)
Definition mixed : project :=
  mkProject (lit "/p") (lit "p")
    [File (lit "a.txt") (inr 5%Z); File (lit "b.bin") (inr 3%Z);
     File (lit "oversized.zip") (inr (6 * 1024 * 1024)%Z)]
    (read_from [(lit "/p/a.txt", list_byte_of_string "hello");
                (lit "/p/b.bin", [x01; x00; x02])]).

(** [seeded], where the fifth call from now raises. *)
Definition fifth_call_fails : sim :=
  with_faults seeded [None; None; None; None; Some server_error].

(** A project with one binary file. *)
Definition only_binary : project :=
  mkProject (lit "/p") (lit "p")
    [File (lit "b.bin") (inr 3%Z)]
    (read_from [(lit "/p/b.bin", [x01; x00; x02])]).

(** [seeded] with [a.txt] on [main]. *)
Definition with_a_txt : sim :=
  snd (sim_create_file the_repo (lit "a.txt") (lit "Add a.txt") (lit "old")
                       (lit "main") seeded).

Definition stale : exn := err 409 "409 a.txt does not match".

(** [with_a_txt], where the call after the next one is rejected as stale. *)
Definition stale_update : sim :=
  with_faults with_a_txt [None; Some stale].

(** A repository whose default branch [develop] is one commit ahead of its
    branch [main]. *)
Definition develop_start : sim :=
  commit_file (mkSim true (lit "develop") [] [] [] [] 0 [])
              (lit "develop") (lit "README.md") (lit "# p") [].

Definition two_branches : sim :=
  snd (sim_create_file the_repo (lit "a.txt") (lit "Add a.txt") (lit "old")
         (lit "develop")
         (snd (sim_create_git_ref the_repo (lit "refs/heads/main")
                                  (lit "sha0c") develop_start))).

Definition develop_repo : Repository := repo_of two_branches (lit "p").

(** A project whose only file is a README. *)
Definition with_readme : project :=
  mkProject (lit "/p") (lit "p")
    [File (lit "README.md") (inr 5%Z)]
    (read_from [(lit "/p/README.md", list_byte_of_string "hello")]).

(** A project with entries of every excluded kind. *)
Definition messy : project :=
  mkProject (lit "/p") (lit "p")
    [File (lit "a.txt") (inr 10%Z);
     File (lit ".env") (inl no_such_file);
     File (lit "big.zip") (inr (5 * 1024 * 1024 + 1)%Z);
     Dir (lit "src")
         [File (lit "m.py") (inr 3%Z);
          Dir (lit "__pycache__") [File (lit "m.pyc") (inr 1%Z)];
          Dir (lit "pkg") [File (lit "x.bin") (inr (5 * 1024 * 1024)%Z)]];
     Dir (lit ".git") [File (lit "HEAD") (inr 1%Z)];
     Dir (lit "node_modules") [File (lit "dep.js") (inr 1%Z)];
     File (lit "venv") (inr 1%Z)]
    (read_from []).

(** A project with a README, a text file and a binary file. *)
Definition full : project :=
  mkProject (lit "/p") (lit "p")
    [File (lit "README.md") (inr 5%Z); File (lit "a.txt") (inr 5%Z);
     File (lit "b.bin") (inr 3%Z)]
    (read_from [(lit "/p/README.md", list_byte_of_string "hello");
                (lit "/p/a.txt", list_byte_of_string "hello");
                (lit "/p/b.bin", [x01; x00; x02])]).

(** A project none of whose files can be read. *)
Definition unreadable : project :=
  mkProject (lit "/p") (lit "my project")
    [File (lit "a.txt") (inr 5%Z); File (lit "b.bin") (inr 3%Z)]
    (read_from []).

(** A project of two text files. *)
Definition two_texts : project :=
  mkProject (lit "/p") (lit "p")
    [File (lit "a.txt") (inr 5%Z); File (lit "c.md") (inr 3%Z)]
    (read_from [(lit "/p/a.txt", list_byte_of_string "hello");
                (lit "/p/c.md", list_byte_of_string "# c")]).

Definition c_md : upload_item := (lit "/p/c.md", lit "c.md").

Definition readme_md : upload_item := (lit "/p/README.md", lit "README.md").

Definition a_txt : upload_item := (lit "/p/a.txt", lit "a.txt").
Definition b_bin : upload_item := (lit "/p/b.bin", lit "b.bin").

End Fixtures.

(** ** Vocabulary of the properties *)

Definition is_ascii (b : byte) : bool := Byte.to_N b <=? 0x7F.

(** [extends s' s]: the log of [s'] is the log of [s] with further calls
    appended. *)
Definition extends {W} (s' s : state W) : Prop :=
  exists evs, log s' = log s ++ evs.

(** Computations that only append to the log. *)
Definition monotone {W A} (m : M W A) : Prop :=
  forall s, extends (snd (m s)) s.

(** Whether the empty-repository bootstrap takes its README from the
    snapshot: the first look-ups, whose outcome is [first], raised the signal
    of an empty repository, the caller gave no README text (or the empty
    string), and the snapshot has a README. *)
Definition readme_consumed {A} (first : res A)
    (readme_content : option pystr) (files : list upload_item) : bool :=
  match first with
  | inl e =>
    is_empty_repo e && negb (truthy readme_content) &&
    match find is_readme files with Some _ => true | None => false end
  | inr _ => false
  end.

(** The snapshot as the upload loop receives it. *)
Definition after_bootstrap {A} (first : res A)
    (readme_content : option pystr) (files : list upload_item)
  : list upload_item :=
  if readme_consumed first readme_content files then
    match find is_readme files with
    | Some readme_tuple =>
      filter (fun t => negb (item_eqb t readme_tuple)) files
    | None => files
    end
  else files.

(** [located es dirs name size]: below the entries [es], the directories
    [dirs] lead to a file [name] whose size is [size]. *)
Inductive located : list entry -> list pystr -> pystr -> Z -> Prop :=
| located_here es name size :
    In (File name (inr size)) es -> located es [] name size
| located_below es d children dirs name size :
    In (Dir d children) es ->
    located children dirs name size ->
    located es (d :: dirs) name size.

(** The path of a file below [root], through the directories [dirs]. *)
Definition path_under (root : pystr) (dirs : list pystr) (name : pystr)
  : pystr :=
  fold_left (fun r d => r ++ sep ++ d) dirs root ++ sep ++ name.

(** An element of the snapshot that stands for an eligible file: a file of
    the tree that is not above the size ceiling, whose name and whose
    directories, below the project directory, neither start with a dot nor
    belong to the exclusion set. *)
Definition eligible_item (es : list entry) (root : pystr) (rel : list pystr)
    (t : upload_item) : Prop :=
  exists dirs name size,
    located es dirs name size /\
    forallb keep_dir dirs = true /\
    skip_file name = false /\
    (size <= MAX_FILE_SIZE)%Z /\
    fst t = path_under root dirs name /\
    snd t = join sep (rel ++ dirs ++ [name]).

(** The tree without the entries that the collector leaves out: files
    above the ceiling, and files and directories whose name starts with a
    dot or belongs to the exclusion set. *)
Fixpoint prune_entry (e : entry) : list entry :=
  match e with
  | File name size =>
    if skip_file name then []
    else match size with
         | inr sz => if (sz >? MAX_FILE_SIZE)%Z then [] else [e]
         | inl _ => [e]
         end
  | Dir d children =>
    if keep_dir d then [Dir d (flat_map prune_entry children)] else []
  end.

Definition prune (es : list entry) : list entry := flat_map prune_entry es.

Definition pruned (p : project) : project :=
  mkProject (project_path p) (project_name p) (prune (project_entries p))
            (read_bytes p).

(** A file of the snapshot that can be read and is classified as text. *)
Definition is_text_file (p : project) (t : upload_item) : bool :=
  match read_bytes p (fst t) with
  | inr content => negb (_is_binary content)
  | inl _ => false
  end.

(** A create-file or update-file call that went through. *)
Definition is_write (ev : event) : bool :=
  match ev_call ev, ev_raised ev with
  | CreateFile _ _ _ _, None => true
  | UpdateFile _ _ _ _ _, None => true
  | _, _ => false
  end.

(** A call that the remote did not refuse: it went through (a look-up of
    contents with a file, not a directory listing), or it is a look-up of
    contents that is answered with the not-found signal. *)
Definition accepted (ev : event) : bool :=
  match ev_result ev with
  | inr (RContents (Listing _)) => false
  | inr _ => true
  | inl e =>
    match ev_call ev with
    | GetContents _ _ => is_not_found e
    | _ => false
    end
  end.

Definition writes (evs : list event) : Z :=
  Z.of_nat (List.length (filter is_write evs)).

(** A directory tree as a file system holds it: the entries of a directory
    have distinct names, and no name contains the separator. *)
Definition entry_name (e : entry) : pystr :=
  match e with File name _ => name | Dir name _ => name end.

Definition no_sep (name : pystr) : bool :=
  forallb (fun c => negb (c =? 47)) name.

Inductive well_formed : list entry -> Prop :=
| well_formed_dir es :
    NoDup (map entry_name es) ->
    (forall e, In e es -> no_sep (entry_name e) = true) ->
    (forall d children, In (Dir d children) es -> well_formed children) ->
    well_formed es.

(** The text that [join] puts before the last components of a path. *)
Fixpoint lead (rel : list pystr) : pystr :=
  match rel with
  | [] => []
  | d :: rel' => d ++ sep ++ lead rel'
  end.

(** The calls that only read the remote. *)
Definition is_lookup (ev : event) : bool :=
  match ev_call ev with
  | GetRepo _ | GetGitRef _ | GetGitCommit _ | GetGitTree _
  | GetContents _ _ => true
  | _ => false
  end.


Section Failures.
Context {W : Type} {api : GitHubAPI W}.
Variable local : project.
Variable repo : Repository.
Variable branch : pystr.

(** The failures of one file in the upload loop: [per_file_failure t s e s']
    says that processing [t] from state [s] fails with [e] and leaves the
    state [s'].  A failed look-up or update whose message reads as a
    not-found signal is not a failure by itself: it leads to a create
    call, and the file fails when that call fails. *)
Inductive per_file_failure : upload_item -> state W -> exn -> state W -> Prop :=
| read_failure file_path rel_path s e :
    read_bytes local file_path = inl e ->
    per_file_failure (file_path, rel_path) s e s
| blob_failure file_path rel_path s content e w' :
    read_bytes local file_path = inr content ->
    _is_binary content = true ->
    create_git_blob repo (map Byte.to_N (Base64.b64encode content))
                    (lit "base64") (world s) = (inl e, w') ->
    per_file_failure (file_path, rel_path) s e
      (mkState w'
         (log s ++
          [raised (CreateGitBlob (map Byte.to_N (Base64.b64encode content))
                                  (lit "base64")) e]))
| lookup_failure file_path rel_path s content e w' :
    read_bytes local file_path = inr content ->
    _is_binary content = false ->
    get_contents repo rel_path branch (world s) = (inl e, w') ->
    is_not_found e = false ->
    per_file_failure (file_path, rel_path) s e
      (mkState w' (log s ++ [raised (GetContents rel_path branch) e]))
| listing_failure file_path rel_path s content l w' :
    read_bytes local file_path = inr content ->
    _is_binary content = false ->
    get_contents repo rel_path branch (world s) = (inr (Listing l), w') ->
    per_file_failure (file_path, rel_path) s AttributeError_sha
      (mkState w'
         (log s ++
          [returned (GetContents rel_path branch) (RContents (Listing l))]))
| update_rejected file_path rel_path s content text c e w1 w2 :
    read_bytes local file_path = inr content ->
    _is_binary content = false ->
    Utf8.decode content = Some text ->
    get_contents repo rel_path branch (world s) = (inr (OneFile c), w1) ->
    update_file repo rel_path (lit "Update " ++ rel_path) text
                (content_sha c) branch w1 = (inl e, w2) ->
    is_not_found e = false ->
    per_file_failure (file_path, rel_path) s e
      (mkState w2
         (log s ++
          [returned (GetContents rel_path branch) (RContents (OneFile c));
           raised (UpdateFile rel_path (lit "Update " ++ rel_path) text
                               (content_sha c) branch) e]))
| create_failure_after_lookup file_path rel_path s content text e0 e w1 w2 :
    read_bytes local file_path = inr content ->
    _is_binary content = false ->
    Utf8.decode content = Some text ->
    get_contents repo rel_path branch (world s) = (inl e0, w1) ->
    is_not_found e0 = true ->
    create_file repo rel_path (lit "Add " ++ rel_path) text branch w1
    = (inl e, w2) ->
    per_file_failure (file_path, rel_path) s e
      (mkState w2
         (log s ++
          [raised (GetContents rel_path branch) e0;
           raised (CreateFile rel_path (lit "Add " ++ rel_path) text branch)
                   e]))
| create_failure_after_update file_path rel_path s content text c e0 e
                              w1 w2 w3 :
    read_bytes local file_path = inr content ->
    _is_binary content = false ->
    Utf8.decode content = Some text ->
    get_contents repo rel_path branch (world s) = (inr (OneFile c), w1) ->
    update_file repo rel_path (lit "Update " ++ rel_path) text
                (content_sha c) branch w1 = (inl e0, w2) ->
    is_not_found e0 = true ->
    create_file repo rel_path (lit "Add " ++ rel_path) text branch w2
    = (inl e, w3) ->
    per_file_failure (file_path, rel_path) s e
      (mkState w3
         (log s ++
          [returned (GetContents rel_path branch) (RContents (OneFile c));
           raised (UpdateFile rel_path (lit "Update " ++ rel_path) text
                               (content_sha c) branch) e0;
           raised (CreateFile rel_path (lit "Add " ++ rel_path) text branch)
                   e])).
End Failures.

(** ** The caller of the engine: [deploy_github] *)

(** A value of the [metadata] dictionary of a response. *)
Inductive meta_value : Type :=
| MStr (s : pystr)
| MBool (b : bool)
| MInt (n : Z).

(** [DeployGitHubResponse]: [metadata] is empty unless it is given. *)
Record DeployGitHubResponse := mkResponse {
  resp_success : bool;
  resp_repository_url : option pystr;
  resp_metadata : list (pystr * meta_value);
  resp_error : option pystr
}.

Section Caller.
Context {W : Type} {api : GitHubAPI W}.
Local Open Scope engine_scope.

Variable isalnum : N -> bool.
Variable local : project.

(** [deploy_github]: the request carries the project path, for which
    [local] and [analysis] stand, and [readme_content], [branch] and
    [private].  Building the [GitHubManager] issues no call. *)
Definition deploy_github (analysis : res pystr)
    (readme_content : option pystr) (branch : pystr) (private : bool)
  : M W DeployGitHubResponse :=
  try_except
    (result <- deploy_project isalnum local analysis readme_content branch
                              private ;;
     match result with
     | DeployOk url name br priv uploaded skipped =>
       ret (mkResponse true (Some url)
              [(lit "repository_name", MStr name);
               (lit "branch", MStr br);
               (lit "private", MBool priv);
               (lit "files_uploaded", MInt uploaded);
               (lit "files_skipped", MInt skipped)]
              None)
     | DeployFailed error => ret (mkResponse false None [] (Some error))
     end)
    (fun e =>
       ret (mkResponse false None []
              (Some (lit "GitHub deployment failed: " ++ exn_str e)))).

End Caller.

(** ** The project analysis that [deploy_project] runs first:
       [ProjectAnalyzer._get_project_files], [_detect_language] and
       [_generate_description] *)

Module Analysis.

(** [s.endswith(p)] *)
Definition endswith (s p : pystr) : bool := startswith (rev s) (rev p).

Definition EXCLUDED_DIRS : list pystr :=
  [lit "node_modules"; lit "__pycache__"; lit "venv"; lit ".git"].

Definition IGNORED_SUFFIXES : list pystr :=
  [lit ".pyc"; lit ".log"; lit ".tmp"].

(** [not d.startswith('.') and d not in [...]] *)
Definition keep_dir (d : pystr) : bool :=
  negb (startswith d (lit ".")) && negb (str_in d EXCLUDED_DIRS).

(** [not filename.startswith('.') and
     not filename.endswith(('.pyc', '.log', '.tmp'))] *)
Definition keep_file (filename : pystr) : bool :=
  negb (startswith filename (lit ".")) &&
  negb (existsb (endswith filename) IGNORED_SUFFIXES).

(** The files of one directory: [os.path.relpath] of each file kept. *)
Fixpoint list_files (rel : list pystr) (es : list entry) : list pystr :=
  match es with
  | [] => []
  | Dir _ _ :: es' => list_files rel es'
  | File filename _ :: es' =>
    if keep_file filename
    then join sep (rel ++ [filename]) :: list_files rel es'
    else list_files rel es'
  end.

(** What the walk lists below one entry of a directory. *)
Fixpoint list_entry (rel : list pystr) (e : entry) {struct e} : list pystr :=
  match e with
  | File _ _ => []
  | Dir d children =>
    if keep_dir d
    then list_files (rel ++ [d]) children
         ++ flat_map (list_entry (rel ++ [d])) children
    else []
  end.

(** [_get_project_files]: [os.walk] reports no error, and no file is
    examined. *)
Definition _get_project_files (p : project) : list pystr :=
  list_files [] (project_entries p)
  ++ flat_map (list_entry []) (project_entries p).

(** [s.split('/')] *)
Fixpoint split_sep (s : pystr) : list pystr :=
  match s with
  | [] => [[]]
  | c :: s' =>
    if c =? 47 then [] :: split_sep s'
    else match split_sep s' with
         | [] => [[c]]
         | part :: parts => (c :: part) :: parts
         end
  end.

(** [Path(file).name]: the last component of the path that is neither
    empty nor ['.'], and [''] when there is none. *)
Definition path_name (file : pystr) : pystr :=
  last (filter (fun part => negb (str_eqb part [] || str_eqb part (lit ".")))
               (split_sep file)) [].

(** [name.rfind('.')], [-1] when there is no dot. *)
Fixpoint rfind_dot (name : pystr) : Z :=
  match name with
  | [] => -1
  | c :: name' =>
    let i := rfind_dot name' in
    if (0 <=? i)%Z then (i + 1)%Z
    else if c =? 46 then 0%Z else (-1)%Z
  end.

(** [Path(file).suffix]: from the last dot of the name on, when that dot is
    neither the first nor the last character of the name.  (Later versions
    of [pathlib] differ on names that start or end with a dot; the names
    that [_get_project_files] lists do not start with one, and no suffix
    that [_detect_language] looks up is a single dot.) *)
Definition suffix (file : pystr) : pystr :=
  let name := path_name file in
  let i := rfind_dot name in
  if ((0 <? i) && (i <? Z.of_nat (List.length name) - 1))%Z
  then skipn (Z.to_nat i) name
  else [].

(** The dictionary [extensions], in insertion order. *)
Fixpoint dict_get (k : pystr) (d : list (pystr * Z)) (default : Z) : Z :=
  match d with
  | [] => default
  | (k', v) :: d' => if str_eqb k k' then v else dict_get k d' default
  end.

Fixpoint dict_set (k : pystr) (v : Z) (d : list (pystr * Z))
  : list (pystr * Z) :=
  match d with
  | [] => [(k, v)]
  | (k', v') :: d' =>
    if str_eqb k k' then (k, v) :: d' else (k', v') :: dict_set k v d'
  end.

(** [k in d] *)
Definition dict_mem (k : pystr) (d : list (pystr * Z)) : bool :=
  existsb (fun kv => str_eqb k (fst kv)) d.

(** [Path(file).suffix.lower()].  The suffixes that the program looks up
    hold none of the letters [i] and [k], the only ones that a code point
    outside ASCII can turn into, so the look-ups have the same outcome as
    with the full Unicode mapping. *)
Definition extension (file : pystr) : pystr := lower (suffix file).

(** The loop that fills [extensions]. *)
Definition count_extensions (files : list pystr) : list (pystr * Z) :=
  fold_left
    (fun extensions file =>
       let ext := extension file in
       match ext with
       | [] => extensions
       | _ :: _ => dict_set ext (dict_get ext extensions 0 + 1)%Z extensions
       end)
    files [].

Definition _detect_language (files : list pystr) : pystr :=
  let extensions := count_extensions files in
  if dict_mem (lit ".py") extensions then lit "Python"
  else if dict_mem (lit ".js") extensions || dict_mem (lit ".ts") extensions
       then lit "JavaScript/TypeScript"
  else if dict_mem (lit ".java") extensions then lit "Java"
  else if dict_mem (lit ".cpp") extensions || dict_mem (lit ".c") extensions
       then lit "C/C++"
  else if dict_mem (lit ".go") extensions then lit "Go"
  else if dict_mem (lit ".rs") extensions then lit "Rust"
  else if dict_mem (lit ".rb") extensions then lit "Ruby"
  else if dict_mem (lit ".php") extensions then lit "PHP"
  else lit "Unknown".

(** [s.title()] for a string of ASCII characters, and [None] for any other
    string: a letter is put in upper case when the character before it is
    no letter, and in lower case when it is one. *)
Definition is_cased (c : N) : bool :=
  in_range_N 65 90 c || in_range_N 97 122 c.

Definition upper_cp (c : N) : N := if in_range_N 97 122 c then c - 32 else c.

Fixpoint title_from (previous_is_cased : bool) (s : pystr) : pystr :=
  match s with
  | [] => []
  | c :: s' =>
    (if previous_is_cased then lower_cp c else upper_cp c)
      :: title_from (is_cased c) s'
  end.

Definition ascii_only (s : pystr) : bool := forallb (fun c => c <=? 127) s.

Definition title (s : pystr) : option pystr :=
  if ascii_only s then Some (title_from false s) else None.

(** [_generate_description], [name] being [project_path.name]; [None]
    when the name is outside ASCII. *)
Definition _generate_description (name : pystr) : option pystr :=
  match title (replace1 95 32 (replace1 45 32 name)) with
  | Some description => Some (lit "A " ++ lower description ++ lit " project")
  | None => None
  end.

End Analysis.

(** ** Further inputs for the reference remote *)

Module Cases.
Import Sim Fixtures.

(** An account whose next two calls are refused. *)
Definition unavailable : sim :=
  with_faults no_repo [Some server_error; Some server_error].

(** A project whose README is not UTF-8. *)
Definition latin1_readme : project :=
  mkProject (lit "/p") (lit "p")
    [File (lit "a.txt") (inr 5%Z); File (lit "Readme.MD") (inr 1%Z)]
    (read_from [(lit "/p/a.txt", list_byte_of_string "hello");
                (lit "/p/Readme.MD", [xe9])]).

(** A project with a link that leads nowhere. *)
Definition dangling : project :=
  mkProject (lit "/p") (lit "p")
    [File (lit "a.txt") (inr 5%Z);
     Dir (lit "src") [File (lit "link") (inl no_such_file)]]
    (read_from [(lit "/p/a.txt", list_byte_of_string "hello")]).

(** A project whose binary file comes before its text file. *)
Definition binary_first : project :=
  mkProject (lit "/p") (lit "p")
    [File (lit "b.bin") (inr 3%Z); File (lit "a.txt") (inr 5%Z)]
    (read_from [(lit "/p/b.bin", [x01; x00; x02]);
                (lit "/p/a.txt", list_byte_of_string "hello")]).

End Cases.

(** ** Vocabulary of the further properties *)

(** A response as the caller may rely on it: a success carries the URL and
    the five entries of the metadata and no error, a failure carries the
    error and nothing else. *)
Definition response_ok (r : DeployGitHubResponse) : Prop :=
  if resp_success r
  then (exists url, resp_repository_url r = Some url) /\
       resp_error r = None /\
       map fst (resp_metadata r)
       = [lit "repository_name"; lit "branch"; lit "private";
          lit "files_uploaded"; lit "files_skipped"]
  else resp_repository_url r = None /\
       (exists error, resp_error r = Some error) /\
       resp_metadata r = [].

(** [emits P n m]: whatever the state, [m] appends at most [n] calls to the
    log, and each of them satisfies [P]. *)
Definition emits {W A} (P : call -> Prop) (n : nat) (m : M W A) : Prop :=
  forall s, exists evs,
    log (snd (m s)) = log s ++ evs /\
    (List.length evs <= n)%nat /\
    Forall (fun ev => P (ev_call ev)) evs.

(** What the loop makes of one file. *)
Inductive verdict : Type :=
| Skipped
| Uploaded
| Staged (element : InputGitTreeElement).

(** The local variables of the loop after a file with that verdict. *)
Definition after_file (st : loop_state) (v : verdict) : loop_state :=
  match v with
  | Skipped => mkLoop (n_uploaded st) (n_skipped st + 1) (tree_elements st)
  | Uploaded => mkLoop (n_uploaded st + 1) (n_skipped st) (tree_elements st)
  | Staged element =>
    mkLoop (n_uploaded st + 1) (n_skipped st) (tree_elements st ++ [element])
  end.

Definition staged_of (v : verdict) : list InputGitTreeElement :=
  match v with
  | Staged element => [element]
  | _ => []
  end.

Definition is_skipped (v : verdict) : bool :=
  match v with Skipped => true | _ => false end.

Section Outcomes.
Variable local : project.
Variable branch : pystr.

(** The calls that a text file leaves in the log, and whether the file
    ends as uploaded. *)
Inductive text_outcome (rel_path text : pystr) : list event -> bool -> Prop :=
| text_updated c :
    text_outcome rel_path text
      [returned (GetContents rel_path branch) (RContents (OneFile c));
       returned (UpdateFile rel_path (lit "Update " ++ rel_path) text
                            (content_sha c) branch) RUnit]
      true
| text_created e0 :
    is_not_found e0 = true ->
    text_outcome rel_path text
      [raised (GetContents rel_path branch) e0;
       returned (CreateFile rel_path (lit "Add " ++ rel_path) text branch)
                RUnit]
      true
| text_created_after_update c e0 :
    is_not_found e0 = true ->
    text_outcome rel_path text
      [returned (GetContents rel_path branch) (RContents (OneFile c));
       raised (UpdateFile rel_path (lit "Update " ++ rel_path) text
                          (content_sha c) branch) e0;
       returned (CreateFile rel_path (lit "Add " ++ rel_path) text branch)
                RUnit]
      true
| text_lookup_refused e0 :
    is_not_found e0 = false ->
    text_outcome rel_path text [raised (GetContents rel_path branch) e0] false
| text_is_directory l :
    text_outcome rel_path text
      [returned (GetContents rel_path branch) (RContents (Listing l))] false
| text_update_refused c e0 :
    is_not_found e0 = false ->
    text_outcome rel_path text
      [returned (GetContents rel_path branch) (RContents (OneFile c));
       raised (UpdateFile rel_path (lit "Update " ++ rel_path) text
                          (content_sha c) branch) e0]
      false
| text_create_refused e0 e1 :
    is_not_found e0 = true ->
    text_outcome rel_path text
      [raised (GetContents rel_path branch) e0;
       raised (CreateFile rel_path (lit "Add " ++ rel_path) text branch) e1]
      false
| text_create_refused_after_update c e0 e1 :
    is_not_found e0 = true ->
    text_outcome rel_path text
      [returned (GetContents rel_path branch) (RContents (OneFile c));
       raised (UpdateFile rel_path (lit "Update " ++ rel_path) text
                          (content_sha c) branch) e0;
       raised (CreateFile rel_path (lit "Add " ++ rel_path) text branch) e1]
      false.

(** The calls that one file of the snapshot leaves in the log, and its
    verdict. *)
Inductive file_outcome (t : upload_item) : list event -> verdict -> Prop :=
| file_unreadable e :
    read_bytes local (fst t) = inl e ->
    file_outcome t [] Skipped
| file_staged content blob :
    read_bytes local (fst t) = inr content ->
    _is_binary content = true ->
    file_outcome t
      [returned (CreateGitBlob (map Byte.to_N (Base64.b64encode content))
                               (lit "base64")) (RGitBlob blob)]
      (Staged (mkElement (snd t) (lit "100644") (lit "blob") (blob_sha blob)))
| file_blob_refused content e :
    read_bytes local (fst t) = inr content ->
    _is_binary content = true ->
    file_outcome t
      [raised (CreateGitBlob (map Byte.to_N (Base64.b64encode content))
                             (lit "base64")) e]
      Skipped
| file_text content text evs uploaded :
    read_bytes local (fst t) = inr content ->
    _is_binary content = false ->
    Utf8.decode content = Some text ->
    text_outcome (snd t) text evs uploaded ->
    file_outcome t evs (if uploaded then Uploaded else Skipped).

(** The calls and the verdicts of the loop over a snapshot. *)
Inductive loop_outcome : list upload_item -> list event -> list verdict -> Prop :=
| loop_done : loop_outcome [] [] []
| loop_next t files evs v evss vs :
    file_outcome t evs v ->
    loop_outcome files evss vs ->
    loop_outcome (t :: files) (evs ++ evss) (v :: vs).

End Outcomes.

(** The calls of the bootstrap of the branch: look-ups, the creation of the
    branch, and the initial commit of a README. *)
Definition bootstrap_call (repo : Repository) (branch : pystr)
    (files : list upload_item) (c : call) : Prop :=
  match c with
  | GetGitRef r =>
    r = lit "heads/" ++ branch \/ r = lit "heads/main" \/
    r = lit "heads/" ++ default_branch repo
  | GetGitCommit _ | GetGitTree _ => True
  | CreateGitRef r _ => r = lit "refs/heads/" ++ branch
  | CreateFile path message _ b =>
    b = branch /\ message = lit "Initial commit: " ++ path /\
    (path = lit "README.md" \/ In path (map snd files))
  | _ => False
  end.

(** The calls of the batched commit of [elements]. *)
Definition commit_call (branch : pystr) (elements : list InputGitTreeElement)
    (c : call) : Prop :=
  match c with
  | GetGitRef r => r = lit "heads/" ++ branch
  | GetGitCommit _ | GetGitTree _ | GitRefEdit _ _ => True
  | CreateGitTree els _ => els = elements
  | CreateGitCommit message _ _ => message = lit "Add/update binary files"
  | _ => False
  end.

(** The number of files of the snapshot; none when the collection fails. *)
Definition snapshot_size (p : project) : nat :=
  match gather p with
  | inr files => List.length files
  | inl _ => 0%nat
  end.

(** The calls that an upload to [branch] of the snapshot [files] may make:
    none on repositories; look-ups of the branch, of [main] and of the
    default branch; file look-ups and updates on [branch] at paths of the
    snapshot; file creations on [branch] at such a path or at [README.md];
    blobs in base64; trees whose elements are at paths of the snapshot; no
    reference created but the branch. *)
Definition confined (repo : Repository) (branch : pystr)
    (files : list upload_item) (c : call) : Prop :=
  match c with
  | GetRepo _ | CreateRepo _ _ _ => False
  | GetGitRef r =>
    r = lit "heads/" ++ branch \/ r = lit "heads/main" \/
    r = lit "heads/" ++ default_branch repo
  | GetGitCommit _ | GetGitTree _ | CreateGitCommit _ _ _ | GitRefEdit _ _ =>
    True
  | GetContents path b | UpdateFile path _ _ _ b =>
    b = branch /\ In path (map snd files)
  | CreateFile path _ _ b =>
    b = branch /\ (path = lit "README.md" \/ In path (map snd files))
  | CreateGitBlob _ encoding => encoding = lit "base64"
  | CreateGitTree elements _ =>
    Forall (fun el => In (el_path el) (map snd files)) elements
  | CreateGitRef r _ => r = lit "refs/heads/" ++ branch
  end.

(** What stands in the log right before a write.  An update of a file
    carries the hash that the look-up of that file, the call before it, has
    just returned.  A creation of a file is the initial commit, or it
    answers the call before it, a look-up or an update of that file that
    raised the not-found signal. *)
Definition guarded_by (before : list event) (ev : event) : Prop :=
  match ev_call ev with
  | UpdateFile path _ _ sha b =>
    exists before' c,
      before = before'
               ++ [returned (GetContents path b) (RContents (OneFile c))] /\
      content_sha c = sha
  | CreateFile path message _ b =>
    message = lit "Initial commit: " ++ path \/
    exists before' prev e,
      before = before' ++ [prev] /\
      ev_result prev = inl e /\ is_not_found e = true /\
      (ev_call prev = GetContents path b \/
       exists m text sha, ev_call prev = UpdateFile path m text sha b)
  | _ => True
  end.

(** Every write of [evs] is guarded, [evs] following [pre]. *)
Definition guarded_from (pre evs : list event) : Prop :=
  forall before ev after,
    evs = before ++ ev :: after -> guarded_by (pre ++ before) ev.

(** A call that put content on the remote: a file created or updated, or
    a blob created. *)
Definition is_blob (ev : event) : bool :=
  match ev_call ev, ev_raised ev with
  | CreateGitBlob _ _, None => true
  | _, _ => false
  end.

Definition went_through (ev : event) : bool := is_write ev || is_blob ev.

(** An element of the tree of the batched commit as the loop stages it
    for a binary file of [files], after the calls [before]. *)
Definition staged_from (local : project) (files : list upload_item)
    (before : list event) (el : InputGitTreeElement) : Prop :=
  exists t content blob,
    In t files /\
    read_bytes local (fst t) = inr content /\
    _is_binary content = true /\
    In (returned (CreateGitBlob (map Byte.to_N (Base64.b64encode content))
                                (lit "base64")) (RGitBlob blob)) before /\
    el = mkElement (snd t) (lit "100644") (lit "blob") (blob_sha blob).

(** The text of a local file, as the bootstrap reads it:
    [open(file_path, 'rb').read().decode('utf-8')]. *)
Definition text_of (p : project) (file_path : pystr) : res pystr :=
  match read_bytes p file_path with
  | inl e => inl e
  | inr content => bytes_decode content
  end.

(** [unexaminable es]: below the entries [es], directories that the walk
    enters lead to a file that the walk does not leave out by its name and
    whose size cannot be read. *)
Inductive unexaminable : list entry -> Prop :=
| unexaminable_here es name e :
    In (File name (inl e)) es ->
    skip_file name = false ->
    unexaminable es
| unexaminable_below es d children :
    In (Dir d children) es ->
    keep_dir d = true ->
    unexaminable children ->
    unexaminable es.

(** Whether a file of [files] has the extension [k]. *)
Definition has_extension (k : pystr) (files : list pystr) : bool :=
  existsb (fun file => str_eqb (Analysis.extension file) k) files.

(** A call whose content comes from the project.  The text of a file
    created or updated at a path is the text of the local file that the
    snapshot holds for that path, and the content of a blob is the base64
    form of the bytes of a local file of the snapshot.  The one other source
    is the initial commit of [README.md], with the text of the caller or the
    heading made of the project name. *)
Definition from_project (local : project) (files : list upload_item)
    (readme_content : option pystr) (c : call) : Prop :=
  match c with
  | CreateFile path message text _ =>
    (exists t content,
        In t files /\ snd t = path /\
        read_bytes local (fst t) = inr content /\
        Utf8.decode content = Some text) \/
    (path = lit "README.md" /\ message = lit "Initial commit: README.md" /\
     (readme_content = Some text \/ text = lit "# " ++ project_name local))
  | UpdateFile path _ text _ _ =>
    exists t content,
      In t files /\ snd t = path /\
      read_bytes local (fst t) = inr content /\
      Utf8.decode content = Some text
  | CreateGitBlob content _ =>
    exists t bytes,
      In t files /\
      read_bytes local (fst t) = inr bytes /\
      content = map Byte.to_N (Base64.b64encode bytes)
  | _ => True
  end.

(** ** Vocabulary of the properties of whole runs *)

(** A file of the snapshot that can be read and is classified as binary. *)
Definition is_binary_file (p : project) (t : upload_item) : bool :=
  match read_bytes p (fst t) with
  | inr content => _is_binary content
  | inl _ => false
  end.

(** [writes_file p t ev]: the call [ev] went through, and it created or
    updated the file at the relative path of [t] with the text of the local
    file [t]. *)
Definition writes_file (p : project) (t : upload_item) (ev : event) : Prop :=
  is_write ev = true /\
  exists text,
    text_of p (fst t) = inr text /\
    ((exists message b, ev_call ev = CreateFile (snd t) message text b) \/
     (exists message sha b,
         ev_call ev = UpdateFile (snd t) message text sha b)).

(** An element of a snapshot of [p] that stands for an eligible file. *)
Definition eligible (p : project) (t : upload_item) : Prop :=
  eligible_item (project_entries p) (project_path p) [] t.

(** The paths of the remote that a call names: the path of a file looked
    up, created or updated, and the paths of the elements of a tree. *)
Definition names_path (path : pystr) (c : call) : Prop :=
  match c with
  | GetContents p _ | CreateFile p _ _ _ | UpdateFile p _ _ _ _ => p = path
  | CreateGitTree elements _ => In path (map el_path elements)
  | _ => False
  end.

(** A call that takes nothing from the project but eligible files: a file
    is looked up at the relative path of an eligible file; a file is
    created or updated at such a path with the text of that file; a blob
    holds the bytes of an eligible file; the elements of a tree are at
    paths of eligible files.  The initial commit of [README.md] holds the
    text of the caller or the heading with the project name. *)
Definition of_eligible (p : project) (readme_content : option pystr)
    (c : call) : Prop :=
  match c with
  | GetContents path _ => exists t, eligible p t /\ snd t = path
  | UpdateFile path _ text _ _ =>
    exists t,
      eligible p t /\ snd t = path /\ text_of p (fst t) = inr text
  | CreateFile path _ text _ =>
    (exists t,
        eligible p t /\ snd t = path /\ text_of p (fst t) = inr text) \/
    (path = lit "README.md" /\
     (readme_content = Some text \/ text = lit "# " ++ project_name p))
  | CreateGitBlob content _ =>
    exists t bytes,
      eligible p t /\
      read_bytes p (fst t) = inr bytes /\
      content = map Byte.to_N (Base64.b64encode bytes)
  | CreateGitTree elements _ =>
    Forall (fun el => exists t, eligible p t /\ el_path el = snd t) elements
  | _ => True
  end.

(** Two projects that differ in nothing but entries that the collector
    leaves out and files that are not eligible: the same path and name, the
    same tree once the entries left out are removed, and the same outcome
    of reading every eligible file. *)
Definition same_eligible_part (p p' : project) : Prop :=
  project_path p' = project_path p /\
  project_name p' = project_name p /\
  prune (project_entries p') = prune (project_entries p) /\
  (forall t, eligible p t -> read_bytes p' (fst t) = read_bytes p (fst t)).

(** * Properties *)

Arguments lit : simpl never.

(** ** Strings *)

Lemma str_eqb_eq (a b : pystr) : str_eqb a b = true <-> a = b.
Proof.
  revert b; induction a as [|x a IH]; intros [|y b]; simpl;
    try (split; [discriminate | discriminate]); try tauto.
  rewrite andb_true_iff, N.eqb_eq, IH.
  split; [intros [-> ->]; reflexivity | intros H; injection H; auto].
Qed.

Lemma str_eqb_refl (a : pystr) : str_eqb a a = true.
Proof. apply str_eqb_eq; reflexivity. Qed.

Lemma str_eqb_neq (a b : pystr) : str_eqb a b = false <-> a <> b.
Proof.
  destruct (str_eqb a b) eqn:E.
  - apply str_eqb_eq in E. split; [discriminate | congruence].
  - split; [|reflexivity]. intros _ H. apply str_eqb_eq in H. congruence.
Qed.

Lemma str_in_In (x : pystr) (xs : list pystr) :
  str_in x xs = true <-> In x xs.
Proof.
  unfold str_in. rewrite existsb_exists. split.
  - intros (y & Hy & E). apply str_eqb_eq in E. subst; assumption.
  - intros H. exists x. split; [assumption | apply str_eqb_refl].
Qed.

Lemma item_eqb_eq (a b : upload_item) : item_eqb a b = true <-> a = b.
Proof.
  destruct a as [a1 a2], b as [b1 b2]. unfold item_eqb; simpl.
  rewrite andb_true_iff, !str_eqb_eq.
  split; [intros [-> ->]; reflexivity | intros H; injection H; auto].
Qed.

(** ** The content classifier *)

Lemma existsb_is_nul (content : bytes) :
  existsb is_nul content = true <-> In x00 content.
Proof.
  rewrite existsb_exists. unfold is_nul. split.
  - intros (b & Hb & E). apply Byte.byte_dec_bl in E. subst; assumption.
  - intros H. exists x00. split; [assumption | reflexivity].
Qed.

(** C3.  The classifier is a total function of the bytes alone: content
    with a NUL byte is binary; content without one is text when it decodes
    as UTF-8 and binary when it does not. *)
Theorem is_binary_classification (content : bytes) :
  (In x00 content -> _is_binary content = true) /\
  (~ In x00 content ->
   (exists text, Utf8.decode content = Some text) ->
   _is_binary content = false) /\
  (~ In x00 content -> Utf8.decode content = None ->
   _is_binary content = true).
Proof.
  unfold _is_binary. split; [|split].
  - intros H. apply existsb_is_nul in H. rewrite H. reflexivity.
  - intros Hn [text Hd].
    destruct (existsb is_nul content) eqn:E.
    + apply existsb_is_nul in E. contradiction.
    + rewrite Hd. reflexivity.
  - intros Hn Hd.
    destruct (existsb is_nul content); [reflexivity | rewrite Hd; reflexivity].
Qed.

Lemma is_binary_classification_witness :
  _is_binary [x41; x00] = true /\
  _is_binary [xc3; xa9] = false /\
  _is_binary [xc3; x28] = true.
Proof.
  split; [|split].
  - apply (proj1 (is_binary_classification [x41; x00])).
    simpl; auto.
  - apply (proj1 (proj2 (is_binary_classification [xc3; xa9]))).
    + simpl. intros [H | [H | []]]; discriminate H.
    + exists [233]. reflexivity.
  - apply (proj2 (proj2 (is_binary_classification [xc3; x28]))).
    + simpl. intros [H | [H | []]]; discriminate H.
    + reflexivity.
Defined.

(** The decoder on the boundaries of well-formed UTF-8. *)

Example decode_two_bytes : Utf8.decode [xc3; xa9] = Some [0xE9].
Proof. reflexivity. Qed.

Example decode_three_bytes : Utf8.decode [xe2; x82; xac] = Some [0x20AC].
Proof. reflexivity. Qed.

Example decode_four_bytes :
  Utf8.decode [xf0; x9f; x98; x80] = Some [0x1F600].
Proof. reflexivity. Qed.

Example decode_last_scalar :
  Utf8.decode [xf4; x8f; xbf; xbf] = Some [0x10FFFF].
Proof. reflexivity. Qed.

Example decode_overlong : Utf8.decode [xc0; x80] = None.
Proof. reflexivity. Qed.

Example decode_surrogate : Utf8.decode [xed; xa0; x80] = None.
Proof. reflexivity. Qed.

Example decode_out_of_range : Utf8.decode [xf4; x90; x80; x80] = None.
Proof. reflexivity. Qed.

Example decode_truncated : Utf8.decode [xe2; x82] = None.
Proof. reflexivity. Qed.

Example decode_stray_continuation : Utf8.decode [x80] = None.
Proof. reflexivity. Qed.

Example b64encode_padding :
  map Base64.b64encode
      [list_byte_of_string "Man"; list_byte_of_string "Ma";
       list_byte_of_string "M"]
  = [list_byte_of_string "TWFu"; list_byte_of_string "TWE=";
     list_byte_of_string "TQ=="].
Proof. reflexivity. Qed.

(** ** Decoding ASCII and Base64 output *)

Lemma decode_ascii (bs : bytes) :
  forallb is_ascii bs = true -> Utf8.decode bs = Some (map Byte.to_N bs).
Proof.
  induction bs as [|b bs IH]; simpl; [reflexivity|].
  rewrite andb_true_iff. intros [Hb Hbs].
  unfold is_ascii in Hb. rewrite Hb, (IH Hbs). reflexivity.
Qed.

Lemma digit_ascii (i : N) : is_ascii (Base64.digit i) = true.
Proof.
  unfold Base64.digit.
  destruct (nth_in_or_default (N.to_nat i) Base64.alphabet Base64.pad)
    as [Hin | ->]; [|reflexivity].
  assert (Hall : forallb is_ascii Base64.alphabet = true) by reflexivity.
  rewrite forallb_forall in Hall. apply Hall, Hin.
Qed.

Lemma list_ind3 (A : Type) (P : list A -> Prop) :
  P [] -> (forall a, P [a]) -> (forall a b, P [a; b]) ->
  (forall a b c l, P l -> P (a :: b :: c :: l)) ->
  forall l, P l.
Proof.
  intros H0 H1 H2 H3.
  fix IH 1. intros [|a [|b [|c l]]].
  - exact H0.
  - apply H1.
  - apply H2.
  - apply H3, IH.
Qed.

Lemma b64encode_ascii (bs : bytes) :
  forallb is_ascii (Base64.b64encode bs) = true.
Proof.
  induction bs as [| a | a b | a b c l IH] using list_ind3.
  - reflexivity.
  - cbn [Base64.b64encode forallb]. rewrite !digit_ascii. reflexivity.
  - cbn [Base64.b64encode forallb]. rewrite !digit_ascii. reflexivity.
  - cbn [Base64.b64encode forallb]. rewrite !digit_ascii, IH. reflexivity.
Qed.

(** [base64.b64encode(content).decode('utf-8')] never raises. *)
Lemma b64_decodes (content : bytes) :
  bytes_decode (Base64.b64encode content)
  = inr (map Byte.to_N (Base64.b64encode content)).
Proof.
  unfold bytes_decode. rewrite decode_ascii by apply b64encode_ascii.
  reflexivity.
Qed.

(** Content classified as text decodes. *)
Lemma text_decodes (content : bytes) :
  _is_binary content = false ->
  exists text, bytes_decode content = inr text.
Proof.
  unfold _is_binary, bytes_decode.
  destruct (existsb is_nul content); [discriminate|].
  destruct (Utf8.decode content) as [text|]; [|discriminate].
  intros _. exists text. reflexivity.
Qed.

(** ** Running computations of the monad *)

Section MonadFacts.
Context {W : Type}.

Lemma bind_inr A B (m : M W A) (k : A -> M W B) s a s' :
  m s = (inr a, s') -> bind m k s = k a s'.
Proof. unfold bind. intros ->. reflexivity. Qed.

Lemma bind_inl A B (m : M W A) (k : A -> M W B) s e s' :
  m s = (inl e, s') -> bind m k s = (inl e, s').
Proof. unfold bind. intros ->. reflexivity. Qed.

Lemma try_inr A (m : M W A) h s a s' :
  m s = (inr a, s') -> try_except m h s = (inr a, s').
Proof. unfold try_except. intros ->. reflexivity. Qed.

Lemma try_inl A (m : M W A) h s e s' :
  m s = (inl e, s') -> try_except m h s = h e s'.
Proof. unfold try_except. intros ->. reflexivity. Qed.

Lemma invoke_eq A (c : call) tag (op : W -> res A * W) s r w' :
  op (world s) = (r, w') ->
  invoke c tag op s = (r, mkState w' (log s ++ [mkEvent c (answer tag r)])).
Proof. unfold invoke. intros ->. reflexivity. Qed.

Lemma extends_refl (s : state W) : extends s s.
Proof. exists []. rewrite app_nil_r. reflexivity. Qed.

Lemma extends_trans (s1 s2 s3 : state W) :
  extends s2 s1 -> extends s3 s2 -> extends s3 s1.
Proof.
  intros [a Ha] [b Hb]. exists (a ++ b). rewrite Hb, Ha, app_assoc.
  reflexivity.
Qed.

Lemma monotone_ret A (a : A) : monotone (@ret W A a).
Proof. intros s. apply extends_refl. Qed.

Lemma monotone_raise A e : monotone (@raise W A e).
Proof. intros s. apply extends_refl. Qed.

Lemma monotone_lift A (r : res A) : monotone (@lift W A r).
Proof. intros s. apply extends_refl. Qed.

Lemma monotone_invoke A c tag (op : W -> res A * W) :
  monotone (invoke c tag op).
Proof.
  intros s. unfold invoke. destruct (op (world s)) as [r w'].
  eexists. reflexivity.
Qed.

Lemma monotone_bind A B (m : M W A) (k : A -> M W B) :
  monotone m -> (forall a, monotone (k a)) -> monotone (bind m k).
Proof.
  intros Hm Hk s. unfold bind. specialize (Hm s).
  destruct (m s) as [[e | a] s1]; [exact Hm|].
  eapply extends_trans; [exact Hm | apply Hk].
Qed.

Lemma monotone_try A (m : M W A) h :
  monotone m -> (forall e, monotone (h e)) -> monotone (try_except m h).
Proof.
  intros Hm Hh s. unfold try_except. specialize (Hm s).
  destruct (m s) as [[e | a] s1]; [|exact Hm].
  eapply extends_trans; [exact Hm | apply Hh].
Qed.


End MonadFacts.

(** Steps a goal through the definitions of the monad, using the equations
    in the context for the calls. *)
Ltac step :=
  repeat first
    [ progress cbn [fst snd world log answer]
    | match goal with
      | H : ?m ?s = (inr _, _) |- context [bind ?m _ ?s] =>
        rewrite (@bind_inr _ _ _ m _ s _ _ H)
      | H : ?m ?s = (inl _, _) |- context [bind ?m _ ?s] =>
        rewrite (@bind_inl _ _ _ m _ s _ _ H)
      | H : ?m ?s = (inr _, _) |- context [try_except ?m _ ?s] =>
        rewrite (@try_inr _ _ m _ s _ _ H)
      | H : ?m ?s = (inl _, _) |- context [try_except ?m _ ?s] =>
        rewrite (@try_inl _ _ m _ s _ _ H)
      | H : ?op (world ?s) = (_, _) |- context [invoke ?c ?tag ?op ?s] =>
        rewrite (@invoke_eq _ _ c tag op s _ _ H)
      end ].

(** Proves that a computation built from the operations of the monad only
    appends to the log. *)
Ltac mono_step :=
  first
    [ apply monotone_ret | apply monotone_raise | apply monotone_lift
    | apply monotone_invoke | apply monotone_bind | apply monotone_try
    | progress cbv beta
    | match goal with
      | |- monotone (match ?x with _ => _ end) => destruct x
      | |- forall _, _ => intro
      end ].

Ltac mono := repeat mono_step.

(** Unfolds the operations of the monad and the parts of the loop body. *)
Ltac unfold_engine :=
  unfold upload_text, stage_binary, do_create_file, try_except, bind, lift,
    invoke, ret, raise.

(** ** The upload loop *)

Section LoopFacts.
Context {W : Type} {api : GitHubAPI W}.
Variable local : project.
Variable repo : Repository.
Variable branch : pystr.

Local Open Scope Z_scope.

Lemma loop_step_ok st t s st' s' :
  upload_one local repo branch t st s = (inr st', s') ->
  loop_step local repo branch st t s = (inr st', s').
Proof. intros H. unfold loop_step. step. reflexivity. Qed.

Lemma loop_step_failed st t s e s' :
  upload_one local repo branch t st s = (inl e, s') ->
  loop_step local repo branch st t s
  = (inr (mkLoop (n_uploaded st) (n_skipped st + 1) (tree_elements st)), s').
Proof. intros H. unfold loop_step. step. reflexivity. Qed.

Lemma stage_binary_shape rel_path content els s els' s' :
  stage_binary repo rel_path content els s = (inr els', s') ->
  exists el, els' = els ++ [el].
Proof.
  unfold stage_binary, bind, lift, invoke, ret.
  destruct (bytes_decode (Base64.b64encode content)) as [e | b64];
    [discriminate|].
  destruct (create_git_blob repo b64 (lit "base64") (world s))
    as [[e | blob] w']; [discriminate|].
  intros H. injection H as <- _. eexists. reflexivity.
Qed.

(** A file that went through is counted once as uploaded, and stages at
    most one element. *)
Lemma upload_one_shape t st s st' s' :
  upload_one local repo branch t st s = (inr st', s') ->
  n_uploaded st' = n_uploaded st + 1 /\
  n_skipped st' = n_skipped st /\
  (tree_elements st' = tree_elements st \/
   exists el, tree_elements st' = tree_elements st ++ [el]).
Proof.
  destruct t as [file_path rel_path]. unfold upload_one.
  unfold bind at 1, lift at 1.
  destruct (read_bytes local file_path) as [e | content]; [discriminate|].
  destruct (_is_binary content).
  - destruct (stage_binary repo rel_path content (tree_elements st) s)
      as [[e | els] s1] eqn:E; step; [discriminate|].
    unfold ret. intros H. injection H as <- _. cbn.
    apply stage_binary_shape in E. auto.
  - unfold bind at 1, bind at 1.
    destruct (upload_text repo branch rel_path content s) as [[e | []] s1];
      [discriminate|].
    unfold ret. intros H. injection H as <- _. cbn. auto.
Qed.

(** The counters after one iteration, whatever happened to the file. *)
Lemma loop_step_total st t s :
  exists st' s',
    loop_step local repo branch st t s = (inr st', s') /\
    n_uploaded st' + n_skipped st' = n_uploaded st + n_skipped st + 1 /\
    n_uploaded st <= n_uploaded st' /\
    n_skipped st <= n_skipped st' /\
    Z.of_nat (List.length (tree_elements st')) - n_uploaded st'
    <= Z.of_nat (List.length (tree_elements st)) - n_uploaded st.
Proof.
  destruct (upload_one local repo branch t st s) as [[e | st'] s'] eqn:E.
  - eexists _, s'. split; [apply (loop_step_failed _ _ _ E)|].
    cbn. lia.
  - exists st', s'. split; [apply (loop_step_ok _ _ _ E)|].
    destruct (upload_one_shape _ _ _ E) as (Hu & Hs & [Ht | [el Ht]]);
      rewrite Ht, ?length_app; cbn; lia.
Qed.

(** The loop never raises, and every file ends in one of the counters. *)
Lemma upload_loop_total files : forall st s,
  exists st' s',
    upload_loop local repo branch files st s = (inr st', s') /\
    n_uploaded st' + n_skipped st'
    = n_uploaded st + n_skipped st + Z.of_nat (List.length files) /\
    n_uploaded st <= n_uploaded st' /\
    n_skipped st <= n_skipped st' /\
    Z.of_nat (List.length (tree_elements st')) - n_uploaded st'
    <= Z.of_nat (List.length (tree_elements st)) - n_uploaded st.
Proof.
  induction files as [|t rest IH]; intros st s.
  - exists st, s. cbn. repeat split; lia.
  - destruct (loop_step_total st t s) as (st1 & s1 & E1 & A1 & B1 & C1 & D1).
    destruct (IH st1 s1) as (st2 & s2 & E2 & A2 & B2 & C2 & D2).
    exists st2, s2. split.
    + cbn [upload_loop]. step. exact E2.
    + cbn [List.length]. lia.
Qed.

(** The batched commit never raises. *)
Lemma commit_binary_total els s :
  exists s', commit_binary repo branch els s = (inr tt, s').
Proof.
  destruct els as [|el els]; [exists s; reflexivity|].
  unfold commit_binary.
  destruct (commit_elements repo branch (el :: els) s) as [[e | []] s'] eqn:E;
    exists s'; step; reflexivity.
Qed.

Lemma upload_phase_eq files s st s1 s2 :
  upload_loop local repo branch files loop_init s = (inr st, s1) ->
  commit_binary repo branch (tree_elements st) s1 = (inr tt, s2) ->
  upload_phase local repo branch files s
  = (inr (mkResult (n_uploaded st) (n_skipped st)), s2).
Proof. intros H1 H2. unfold upload_phase. step. reflexivity. Qed.

(** The upload phase always returns, with every file counted once. *)
Lemma upload_phase_total files s :
  exists result s',
    upload_phase local repo branch files s = (inr result, s') /\
    files_uploaded result + files_skipped result
    = Z.of_nat (List.length files) /\
    0 <= files_uploaded result /\ 0 <= files_skipped result.
Proof.
  destruct (upload_loop_total files loop_init s)
    as (st & s1 & E1 & A & B & C & _).
  destruct (commit_binary_total (tree_elements st) s1) as [s2 E2].
  eexists _, s2. split; [apply (upload_phase_eq _ _ E1 E2)|].
  cbn in *. lia.
Qed.

End LoopFacts.

(** ** The log only grows *)

Section LogGrowth.
Context {W : Type} {api : GitHubAPI W}.
Variable local : project.
Variable repo : Repository.
Variable branch : pystr.

Lemma monotone_resolve_head : monotone (resolve_head repo branch).
Proof. unfold resolve_head. mono. Qed.

Lemma monotone_initial_commit readme_content files :
  monotone (initial_commit local repo readme_content branch files).
Proof. unfold initial_commit, do_create_file. mono. Qed.

Lemma monotone_create_branch : monotone (create_branch repo branch).
Proof. unfold create_branch. mono. Qed.

Lemma monotone_loop_step st t : monotone (loop_step local repo branch st t).
Proof.
  unfold loop_step, upload_one, stage_binary, upload_text, do_create_file.
  mono.
Qed.

Lemma monotone_upload_loop files :
  forall st, monotone (upload_loop local repo branch files st).
Proof.
  induction files as [|t rest IH]; intros st; cbn [upload_loop].
  - apply monotone_ret.
  - apply monotone_bind; [apply monotone_loop_step | exact IH].
Qed.

Lemma monotone_commit_binary els : monotone (commit_binary repo branch els).
Proof.
  unfold commit_binary, commit_elements. destruct els; [apply monotone_ret|].
  apply monotone_try; [|mono]. apply monotone_bind;
    [apply monotone_resolve_head | mono].
Qed.

Lemma monotone_upload_phase files :
  monotone (upload_phase local repo branch files).
Proof.
  unfold upload_phase. apply monotone_bind; [apply monotone_upload_loop|].
  intros st. apply monotone_bind; [apply monotone_commit_binary | mono].
Qed.

End LogGrowth.

(** ** The batched commit of the binary files *)

Section BinaryBatch.
Context {W : Type} {api : GitHubAPI W}.
Variable local : project.
Variable repo : Repository.
Variable branch : pystr.

Local Open Scope Z_scope.

(** A binary file whose blob was created is staged and counted. *)
Lemma stage_counted st file_path rel_path s content blob w' :
  read_bytes local file_path = inr content ->
  _is_binary content = true ->
  create_git_blob repo (map Byte.to_N (Base64.b64encode content))
                  (lit "base64") (world s) = (inr blob, w') ->
  loop_step local repo branch st (file_path, rel_path) s
  = (inr (mkLoop (n_uploaded st + 1) (n_skipped st)
            (tree_elements st ++
             [mkElement rel_path (lit "100644") (lit "blob")
                        (blob_sha blob)])),
     mkState w'
       (log s ++
        [returned (CreateGitBlob (map Byte.to_N (Base64.b64encode content))
                                (lit "base64")) (RGitBlob blob)])).
Proof.
  intros Hread Hbin Hblob. apply loop_step_ok.
  unfold upload_one, stage_binary. unfold bind at 1, lift at 1.
  rewrite Hread, Hbin. unfold bind at 2, lift at 1.
  rewrite b64_decodes. unfold bind, invoke, ret. rewrite Hblob.
  reflexivity.
Qed.

(** C1.  A binary file whose blob creation succeeded is staged and
    counted as uploaded in the same iteration; and when the final
    create-tree/create-commit/update-ref sequence raises, [_upload_files]
    still returns, with the counters the loop produced: the staged files
    remain counted. *)
Theorem staged_files_stay_counted :
  (forall st file_path rel_path s content blob w',
      read_bytes local file_path = inr content ->
      _is_binary content = true ->
      create_git_blob repo (map Byte.to_N (Base64.b64encode content))
                      (lit "base64") (world s) = (inr blob, w') ->
      exists s',
        loop_step local repo branch st (file_path, rel_path) s
        = (inr (mkLoop (n_uploaded st + 1) (n_skipped st)
                  (tree_elements st ++
                   [mkElement rel_path (lit "100644") (lit "blob")
                              (blob_sha blob)])), s')) /\
  (forall readme_content files0 s0 files head s st s1 e s2,
      gather local = inr files0 ->
      ensure_branch local repo readme_content branch files0 s0
      = (inr (files, head), s) ->
      upload_loop local repo branch files loop_init s = (inr st, s1) ->
      tree_elements st <> [] ->
      commit_elements repo branch (tree_elements st) s1 = (inl e, s2) ->
      _upload_files local repo readme_content branch s0
      = (inr (mkResult (n_uploaded st) (n_skipped st)), s2) /\
      Z.of_nat (List.length (tree_elements st)) <= n_uploaded st).
Proof.
  split.
  - intros st fp rp s content blob w' Hr Hb Hc.
    eexists. apply (stage_counted st fp rp s Hr Hb Hc).
  - intros rc files0 s0 files head s st s1 e s2 Hg Hens Hloop Hne Hfail.
    split.
    + unfold _upload_files. unfold bind at 1, lift at 1. rewrite Hg.
      unfold bind at 1. rewrite Hens.
      apply upload_phase_eq with (s1 := s1); [exact Hloop|].
      revert Hfail. destruct (tree_elements st) as [|el els]; [congruence|].
      intros Hfail. unfold commit_binary. step. reflexivity.
    + destruct (upload_loop_total local repo branch files loop_init s)
        as (st' & s' & E & _ & _ & _ & D).
      rewrite Hloop in E. injection E as <- <-. cbn in D. lia.
Qed.

End BinaryBatch.

Lemma staged_files_stay_counted_witness :
  fst (loop_step Fixtures.mixed Fixtures.the_repo (lit "main") loop_init
         Fixtures.b_bin (Sim.start Fixtures.seeded))
  = inr (mkLoop 1 0 [mkElement (lit "b.bin") (lit "100644") (lit "blob")
                               (lit "sha1")]) /\
  fst (_upload_files Fixtures.only_binary Fixtures.the_repo None (lit "main")
         (Sim.start Fixtures.fifth_call_fails))
  = inr (mkResult 1 0).
Proof.
  split.
  - edestruct (proj1 (staged_files_stay_counted Fixtures.mixed
                        Fixtures.the_repo (lit "main"))
                 loop_init (lit "/p/b.bin") (lit "b.bin")
                 (Sim.start Fixtures.seeded)) as [s' H].
    + reflexivity.
    + reflexivity.
    + vm_compute. reflexivity.
    + unfold Fixtures.b_bin. rewrite H. reflexivity.
  - edestruct (proj2 (staged_files_stay_counted Fixtures.only_binary
                        Fixtures.the_repo (lit "main"))
                 None [Fixtures.b_bin] (Sim.start Fixtures.fifth_call_fails))
      as [H _].
    + reflexivity.
    + vm_compute. reflexivity.
    + vm_compute. reflexivity.
    + discriminate.
    + vm_compute. reflexivity.
    + rewrite H. reflexivity.
Defined.

(** ** Failures of single files *)

Section PerFile.
Context {W : Type} {api : GitHubAPI W}.
Variable local : project.
Variable repo : Repository.
Variable branch : pystr.

Local Open Scope Z_scope.

Lemma decode_inr content text :
  Utf8.decode content = Some text -> bytes_decode content = inr text.
Proof. unfold bytes_decode. intros ->. reflexivity. Qed.

(** Every failure of the vocabulary makes the body of the [try] raise. *)
Lemma failure_raises t s e s' st :
  per_file_failure local repo branch t s e s' ->
  upload_one local repo branch t st s = (inl e, s').
Proof.
  intros H. destruct H as
    [ fp rp s e Hr
    | fp rp s content e w' Hr Hb Hc
    | fp rp s content e w' Hr Hb Hg Hnf
    | fp rp s content l w' Hr Hb Hg
    | fp rp s content text c e w1 w2 Hr Hb Hd Hg Hu Hnf
    | fp rp s content text e0 e w1 w2 Hr Hb Hd Hg Hnf Hc
    | fp rp s content text c e0 e w1 w2 w3 Hr Hb Hd Hg Hu Hnf Hc ];
    unfold upload_one; unfold bind at 1, lift at 1; rewrite Hr;
    try reflexivity; rewrite Hb; try apply decode_inr in Hd; unfold_engine.
  - rewrite b64_decodes, Hc. reflexivity.
  - rewrite Hg. cbn. rewrite Hnf. reflexivity.
  - rewrite Hg. cbn.
    destruct (text_decodes content Hb) as [text ->]. reflexivity.
  - rewrite Hg. cbn. rewrite Hd, Hu. cbn. rewrite Hnf.
    rewrite <- app_assoc. reflexivity.
  - rewrite Hg. cbn. rewrite Hnf. cbn. rewrite Hd. cbn. rewrite Hc. cbn.
    rewrite <- app_assoc. reflexivity.
  - rewrite Hg. cbn. rewrite Hd, Hu. cbn. rewrite Hnf. cbn.
    rewrite Hc. cbn. rewrite <- !app_assoc. reflexivity.
Qed.

Lemma decode_of_inr content text :
  bytes_decode content = inr text -> Utf8.decode content = Some text.
Proof.
  unfold bytes_decode. destruct (Utf8.decode content); [|discriminate].
  intros H. injection H as ->. reflexivity.
Qed.

(** Conversely, the body of the [try] raises only through one of the
    failures of the vocabulary. *)
Lemma raises_failure t s e s' st :
  upload_one local repo branch t st s = (inl e, s') ->
  per_file_failure local repo branch t s e s'.
Proof.
  destruct t as [fp rp]. unfold upload_one. unfold bind at 1, lift at 1.
  destruct (read_bytes local fp) as [e0 | content] eqn:Hr.
  { intros H. injection H as <- <-. apply read_failure, Hr. }
  destruct (_is_binary content) eqn:Hb; unfold_engine.
  - rewrite b64_decodes.
    destruct (create_git_blob repo _ (lit "base64") (world s))
      as [[e0 | blob] w'] eqn:Hc; cbn; [|discriminate].
    intros H. injection H as <- <-. eapply blob_failure; eassumption.
  - destruct (text_decodes content Hb) as [text Hd]. rewrite Hd.
    apply decode_of_inr in Hd.
    destruct (get_contents repo rp branch (world s))
      as [[e0 | [c | l]] w1] eqn:Hg; cbn.
    + destruct (is_not_found e0) eqn:Hnf; cbn.
      * destruct (create_file repo rp (lit "Add " ++ rp) text branch w1)
          as [[e1 | []] w2] eqn:Hc; cbn; [|discriminate].
        intros H. injection H as <- <-. rewrite <- app_assoc. cbn [app].
        eapply create_failure_after_lookup; eassumption.
      * intros H. injection H as <- <-.
        eapply lookup_failure; eassumption.
    + destruct (update_file repo rp (lit "Update " ++ rp) text
                            (content_sha c) branch w1)
        as [[e0 | []] w2] eqn:Hu; cbn; [|discriminate].
      destruct (is_not_found e0) eqn:Hnf; cbn.
      * destruct (create_file repo rp (lit "Add " ++ rp) text branch w2)
          as [[e1 | []] w3] eqn:Hc; cbn; [|discriminate].
        intros H. injection H as <- <-. rewrite <- !app_assoc. cbn [app].
        eapply create_failure_after_update; eassumption.
      * intros H. injection H as <- <-. rewrite <- app_assoc. cbn [app].
        eapply update_rejected; eassumption.
    + change (is_not_found AttributeError_sha) with false. cbn.
      intros H. injection H as <- <-.
      eapply listing_failure; eassumption.
Qed.

(** C7.  A file whose processing fails (it cannot be read, its blob cannot
    be created, or a look-up, update or create call for it is rejected) is
    counted once as skipped and stages no element, nothing else changes,
    and the loop goes on with the files that follow. *)
Theorem failed_file_is_skipped t s e s' :
  per_file_failure local repo branch t s e s' ->
  forall st rest,
    loop_step local repo branch st t s
    = (inr (mkLoop (n_uploaded st) (n_skipped st + 1) (tree_elements st)),
       s') /\
    upload_loop local repo branch (t :: rest) st s
    = upload_loop local repo branch rest
        (mkLoop (n_uploaded st) (n_skipped st + 1) (tree_elements st)) s'.
Proof.
  intros Hfail st rest.
  pose proof (failure_raises st Hfail) as Hraise.
  pose proof (loop_step_failed _ _ _ _ _ _ Hraise) as Hstep.
  split; [exact Hstep|].
  cbn [upload_loop]. step. reflexivity.
Qed.

End PerFile.

Lemma failed_file_is_skipped_witness :
  fst (upload_loop Fixtures.mixed Fixtures.the_repo (lit "main")
         [Fixtures.a_txt; Fixtures.b_bin] loop_init
         (Sim.start Fixtures.stale_update))
  = inr (mkLoop 1 1 [mkElement (lit "b.bin") (lit "100644") (lit "blob")
                               (lit "sha2")]).
Proof.
  edestruct (@failed_file_is_skipped _ _ Fixtures.mixed Fixtures.the_repo
               (lit "main") Fixtures.a_txt (Sim.start Fixtures.stale_update))
    as [_ H].
  - unfold Fixtures.a_txt.
    eapply update_rejected with (text := lit "hello");
      [reflexivity | reflexivity | reflexivity | reflexivity
      | reflexivity | reflexivity].
  - rewrite H. vm_compute. reflexivity.
Defined.

(** ** The final commit of the staged elements *)

Section FinalCommit.
Context {W : Type} {api : GitHubAPI W}.
Variable local : project.
Variable repo : Repository.
Variable branch : pystr.


End FinalCommit.


(** ** Bootstrap of the branch *)

Section Bootstrap.
Context {W : Type} {api : GitHubAPI W}.
Variable local : project.
Variable repo : Repository.
Variable branch : pystr.

(** What [ensure_branch] does once the first look-ups have raised the
    signal of an empty repository. *)
Lemma ensure_branch_empty readme_content files s e s1 :
  resolve_head repo branch s = (inl e, s1) ->
  is_empty_repo e = true ->
  ensure_branch local repo readme_content branch files s
  = bind (initial_commit local repo readme_content branch files)
         (fun files' =>
            bind (resolve_head repo branch)
                 (fun head => ret (files', head))) s1.
Proof.
  intros Hres Hempty. unfold ensure_branch, try_except. unfold bind at 1.
  rewrite Hres, Hempty. reflexivity.
Qed.

(** C5, as amended.  On an empty repository the bootstrap issues at most
    one create-file call, and resolves ref, commit and tree again when that
    call has gone through; when the call raises, the bootstrap raises with
    it.  The file committed is: the caller's README text as [README.md],
    when that text is a non-empty string; otherwise the text of the first
    file of the snapshot whose relative path is [README.md] up to case,
    under that path, the file leaving the snapshot; otherwise the
    placeholder ["# "] followed by the name of the project directory, as
    [README.md].  When the README of the snapshot cannot be read or is not
    UTF-8, no call is issued and the bootstrap raises with that error. *)
Theorem empty_repository_bootstrap readme_content files s e s1 :
  resolve_head repo branch s = (inl e, s1) ->
  is_empty_repo e = true ->
  (forall text r w2,
      readme_content = Some text -> text <> [] ->
      create_file repo (lit "README.md") (lit "Initial commit: README.md")
                  text branch (world s1) = (r, w2) ->
      let s2 :=
        mkState w2
          (log s1 ++
           [mkEvent (CreateFile (lit "README.md")
                       (lit "Initial commit: README.md") text branch)
                    (answer unit_reply r)]) in
      ensure_branch local repo readme_content branch files s
      = match r with
        | inr _ =>
          bind (resolve_head repo branch) (fun head => ret (files, head)) s2
        | inl e' => (inl e', s2)
        end) /\
  (forall file_path rel_path,
      truthy readme_content = false ->
      find is_readme files = Some (file_path, rel_path) ->
      let files' :=
        filter (fun t => negb (item_eqb t (file_path, rel_path))) files in
      lower rel_path = lit "readme.md" /\
      ~ In (file_path, rel_path) files' /\
      (forall t, In t files -> t <> (file_path, rel_path) -> In t files') /\
      (forall e',
          text_of local file_path = inl e' ->
          ensure_branch local repo readme_content branch files s
          = (inl e', s1)) /\
      (forall text r w2,
          text_of local file_path = inr text ->
          create_file repo rel_path (lit "Initial commit: " ++ rel_path) text
                      branch (world s1) = (r, w2) ->
          let s2 :=
            mkState w2
              (log s1 ++
               [mkEvent (CreateFile rel_path
                           (lit "Initial commit: " ++ rel_path) text branch)
                        (answer unit_reply r)]) in
          ensure_branch local repo readme_content branch files s
          = match r with
            | inr _ =>
              bind (resolve_head repo branch)
                   (fun head => ret (files', head)) s2
            | inl e' => (inl e', s2)
            end)) /\
  (forall r w2,
      truthy readme_content = false ->
      find is_readme files = None ->
      create_file repo (lit "README.md") (lit "Initial commit: README.md")
                  (lit "# " ++ project_name local) branch (world s1)
      = (r, w2) ->
      let s2 :=
        mkState w2
          (log s1 ++
           [mkEvent (CreateFile (lit "README.md")
                       (lit "Initial commit: README.md")
                       (lit "# " ++ project_name local) branch)
                    (answer unit_reply r)]) in
      ensure_branch local repo readme_content branch files s
      = match r with
        | inr _ =>
          bind (resolve_head repo branch) (fun head => ret (files, head)) s2
        | inl e' => (inl e', s2)
        end).
Proof.
  intros Hres Hempty.
  pose proof (@ensure_branch_empty readme_content files _ _ _ Hres Hempty)
    as Heq.
  split; [|split].
  - intros text r w2 -> Hne Hc s2. rewrite Heq.
    unfold initial_commit. destruct text as [|c text]; [congruence|].
    cbn [truthy]. unfold do_create_file, bind at 1 2.
    rewrite (@invoke_eq _ _ _ _ _ _ _ _ Hc). destruct r as [e' | []];
      reflexivity.
  - intros fp rp Hfalsy Hfind files'.
    split; [|split; [|split; [|split]]].
    + apply find_some in Hfind. destruct Hfind as [_ H].
      unfold is_readme in H. apply str_eqb_eq in H. exact H.
    + subst files'. rewrite filter_In. intros [_ H].
      rewrite (proj2 (item_eqb_eq _ _) eq_refl) in H. discriminate.
    + intros t Hin Hne. subst files'. rewrite filter_In. split; [exact Hin|].
      destruct (item_eqb t (fp, rp)) eqn:E; [|reflexivity].
      apply item_eqb_eq in E. contradiction.
    + intros e' Htext. rewrite Heq. unfold initial_commit.
      rewrite Hfalsy, Hfind. unfold text_of in Htext.
      unfold bind at 1 2, lift at 1.
      destruct (read_bytes local fp) as [e0 | content].
      * injection Htext as ->. reflexivity.
      * unfold bind at 1, lift at 1. rewrite Htext. reflexivity.
    + intros text r w2 Htext Hc s2. rewrite Heq. unfold initial_commit.
      rewrite Hfalsy, Hfind. unfold text_of in Htext.
      destruct (read_bytes local fp) as [e0 | content] eqn:Hread;
        [discriminate Htext|].
      unfold do_create_file, bind at 1 2 3 4, lift.
      rewrite Htext, (@invoke_eq _ _ _ _ _ _ _ _ Hc).
      destruct r as [e' | []]; reflexivity.
  - intros r w2 Hfalsy Hfind Hc s2. rewrite Heq.
    unfold initial_commit. rewrite Hfalsy, Hfind.
    unfold do_create_file, bind at 1 2.
    rewrite (@invoke_eq _ _ _ _ _ _ _ _ Hc). destruct r as [e' | []];
      reflexivity.
Qed.

End Bootstrap.

Lemma empty_repository_bootstrap_witness :
  map ev_call
    (log (snd (ensure_branch Fixtures.with_readme Fixtures.the_repo
                 (Some (lit "# Hi")) (lit "main") [Fixtures.readme_md]
                 (Sim.start Sim.empty_repo))))
  = [GetGitRef (lit "heads/main");
     CreateFile (lit "README.md") (lit "Initial commit: README.md")
                (lit "# Hi") (lit "main");
     GetGitRef (lit "heads/main");
     GetGitCommit (lit "sha0c");
     GetGitTree (lit "sha0t")] /\
  fst (ensure_branch Fixtures.with_readme Fixtures.the_repo
         None (lit "main") [Fixtures.readme_md; Fixtures.a_txt]
         (Sim.start Sim.empty_repo))
  = inr ([Fixtures.a_txt],
         (mkGitRef (lit "refs/heads/main") (lit "sha0c"),
          mkGitCommit (lit "sha0c") (lit "sha0t"),
          mkGitTree (lit "sha0t"))) /\
  map ev_call
    (log (snd (ensure_branch Cases.latin1_readme Fixtures.the_repo
                 None (lit "main")
                 [Fixtures.a_txt; (lit "/p/Readme.MD", lit "Readme.MD")]
                 (Sim.start Sim.empty_repo))))
  = [GetGitRef (lit "heads/main")].
Proof.
  split; [|split].
  - edestruct (@empty_repository_bootstrap _ _ Fixtures.with_readme
                 Fixtures.the_repo (lit "main") (Some (lit "# Hi"))
                 [Fixtures.readme_md] (Sim.start Sim.empty_repo))
      as [H _]; [reflexivity | reflexivity |].
    eapply eq_trans.
    + apply (f_equal (fun r => map ev_call (log (snd r)))).
      eapply (H (lit "# Hi") (inr tt)); [reflexivity | discriminate |].
      reflexivity.
    + reflexivity.
  - edestruct (@empty_repository_bootstrap _ _ Fixtures.with_readme
                 Fixtures.the_repo (lit "main") None
                 [Fixtures.readme_md; Fixtures.a_txt]
                 (Sim.start Sim.empty_repo))
      as [_ [H _]]; [reflexivity | reflexivity |].
    edestruct (H (lit "/p/README.md") (lit "README.md"))
      as (_ & _ & _ & _ & Hrun); [reflexivity | reflexivity |].
    eapply eq_trans.
    + apply (f_equal fst).
      eapply (Hrun (lit "hello") (inr tt)); reflexivity.
    + reflexivity.
  - edestruct (@empty_repository_bootstrap _ _ Cases.latin1_readme
                 Fixtures.the_repo (lit "main") None
                 [Fixtures.a_txt; (lit "/p/Readme.MD", lit "Readme.MD")]
                 (Sim.start Sim.empty_repo))
      as [_ [H _]]; [reflexivity | reflexivity |].
    edestruct (H (lit "/p/Readme.MD") (lit "Readme.MD"))
      as (_ & _ & _ & Hfail & _); [reflexivity | reflexivity |].
    eapply eq_trans.
    + apply (f_equal (fun r => map ev_call (log (snd r)))).
      eapply (Hfail UnicodeDecodeError). reflexivity.
    + reflexivity.
Defined.

(** C5 as stated fails for a README text that is the empty string: the
    text counts as not supplied, and on an empty repository the README of
    the snapshot is committed in its place. *)
Lemma empty_readme_text_is_not_committed :
  let s := Sim.start Sim.empty_repo in
  let out := ensure_branch Fixtures.with_readme Fixtures.the_repo
               (Some []) (lit "main") [Fixtures.readme_md] s in
  (exists e s1,
      resolve_head Fixtures.the_repo (lit "main") s = (inl e, s1) /\
      is_empty_repo e = true) /\
  map ev_call (filter (fun ev => match ev_call ev with
                                 | CreateFile _ _ _ _ => true
                                 | _ => false
                                 end) (log (snd out)))
  = [CreateFile (lit "README.md") (lit "Initial commit: README.md")
                (lit "hello") (lit "main")] /\
  lit "hello" <> [].
Proof.
  split; [|split].
  - eexists _, _. split; reflexivity.
  - reflexivity.
  - discriminate.
Qed.

Section MissingBranch.
Context {W : Type} {api : GitHubAPI W}.
Variable local : project.
Variable repo : Repository.
Variable branch : pystr.

(** The three look-ups of [resolve_head] are all it issues. *)
Lemma resolve_head_lookups s :
  exists evs,
    log (snd (resolve_head repo branch s)) = log s ++ evs /\
    forallb is_lookup evs = true.
Proof.
  unfold resolve_head. unfold_engine.
  destruct (get_git_ref repo (lit "heads/" ++ branch) (world s))
    as [[e | ref] w1]; cbn.
  { eexists. split; reflexivity. }
  destruct (get_git_commit repo (ref_object_sha ref) w1) as [[e | c] w2]; cbn.
  { eexists. rewrite <- app_assoc. split; reflexivity. }
  destruct (get_git_tree repo (commit_tree_sha c) w2) as [[e | t] w3]; cbn;
    eexists; rewrite <- !app_assoc; split; reflexivity.
Qed.

(** C6, as amended.  When the first look-ups raise anything but the
    signal of an empty repository, the branch is created before the upload
    phase starts, and nothing but look-ups precedes its creation: from the
    head of the branch [main] when the ref [heads/main] can be looked up,
    and from the head of the default branch of the repository only when
    that look-up raises. *)
Theorem missing_branch_bootstrap readme_content files s e s1 :
  resolve_head repo branch s = (inl e, s1) ->
  is_empty_repo e = false ->
  (exists evs, log s1 = log s ++ evs /\ forallb is_lookup evs = true) /\
  (forall main_ref w2 ref w3 latest_commit w4 base_tree w5,
      get_git_ref repo (lit "heads/main") (world s1) = (inr main_ref, w2) ->
      create_git_ref repo (lit "refs/heads/" ++ branch)
                     (ref_object_sha main_ref) w2 = (inr ref, w3) ->
      get_git_commit repo (ref_object_sha main_ref) w3
      = (inr latest_commit, w4) ->
      get_git_tree repo (commit_tree_sha latest_commit) w4
      = (inr base_tree, w5) ->
      ensure_branch local repo readme_content branch files s
      = (inr (files, (ref, latest_commit, base_tree)),
         mkState w5
           (log s1 ++
            [returned (GetGitRef (lit "heads/main")) (RGitRef main_ref);
             returned (CreateGitRef (lit "refs/heads/" ++ branch)
                                   (ref_object_sha main_ref)) (RGitRef ref);
             returned (GetGitCommit (ref_object_sha main_ref))
                      (RGitCommit latest_commit);
             returned (GetGitTree (commit_tree_sha latest_commit))
                      (RGitTree base_tree)]))) /\
  (forall e1 w2 default_ref w3 ref w4 latest_commit w5 base_tree w6,
      get_git_ref repo (lit "heads/main") (world s1) = (inl e1, w2) ->
      get_git_ref repo (lit "heads/" ++ default_branch repo) w2
      = (inr default_ref, w3) ->
      create_git_ref repo (lit "refs/heads/" ++ branch)
                     (ref_object_sha default_ref) w3 = (inr ref, w4) ->
      get_git_commit repo (ref_object_sha default_ref) w4
      = (inr latest_commit, w5) ->
      get_git_tree repo (commit_tree_sha latest_commit) w5
      = (inr base_tree, w6) ->
      ensure_branch local repo readme_content branch files s
      = (inr (files, (ref, latest_commit, base_tree)),
         mkState w6
           (log s1 ++
            [raised (GetGitRef (lit "heads/main")) e1;
             returned (GetGitRef (lit "heads/" ++ default_branch repo))
                      (RGitRef default_ref);
             returned (CreateGitRef (lit "refs/heads/" ++ branch)
                                   (ref_object_sha default_ref)) (RGitRef ref);
             returned (GetGitCommit (ref_object_sha default_ref))
                      (RGitCommit latest_commit);
             returned (GetGitTree (commit_tree_sha latest_commit))
                      (RGitTree base_tree)]))) /\
  (forall head s2,
      gather local = inr files ->
      ensure_branch local repo readme_content branch files s
      = (inr (files, head), s2) ->
      _upload_files local repo readme_content branch s
      = upload_phase local repo branch files s2).
Proof.
  intros Hres Hne.
  assert (Heq : ensure_branch local repo readme_content branch files s
                = bind (create_branch repo branch)
                       (fun head => ret (files, head)) s1).
  { unfold ensure_branch, try_except. unfold bind at 1.
    rewrite Hres, Hne. reflexivity. }
  split; [|split; [|split]].
  - destruct (resolve_head_lookups s) as (evs & Hlog & Hall).
    rewrite Hres in Hlog. exists evs. split; assumption.
  - intros m w2 r w3 c w4 t w5 H1 H2 H3 H4. rewrite Heq.
    unfold create_branch. unfold_engine.
    rewrite H1. cbn. rewrite H2. cbn. rewrite H3. cbn. rewrite H4. cbn.
    rewrite <- !app_assoc. reflexivity.
  - intros e1 w2 d w3 r w4 c w5 t w6 H1 H2 H3 H4 H5. rewrite Heq.
    unfold create_branch. unfold_engine.
    rewrite H1. cbn. rewrite H2. cbn. rewrite H3. cbn. rewrite H4. cbn.
    rewrite H5. cbn. rewrite <- !app_assoc. reflexivity.
  - intros head s2 Hg Hens. unfold _upload_files.
    unfold bind at 1, lift. rewrite Hg. unfold bind at 1. rewrite Hens.
    reflexivity.
Qed.

End MissingBranch.

Lemma missing_branch_bootstrap_witness :
  map ev_call
    (log (snd (ensure_branch Fixtures.mixed Fixtures.develop_repo None
                 (lit "feature") [Fixtures.a_txt; Fixtures.b_bin]
                 (Sim.start Fixtures.two_branches))))
  = [GetGitRef (lit "heads/feature");
     GetGitRef (lit "heads/main");
     CreateGitRef (lit "refs/heads/feature") (lit "sha0c");
     GetGitCommit (lit "sha0c");
     GetGitTree (lit "sha0t")] /\
  map ev_call
    (log (snd (ensure_branch Fixtures.mixed Fixtures.develop_repo None
                 (lit "feature") [Fixtures.a_txt; Fixtures.b_bin]
                 (Sim.start Fixtures.develop_start))))
  = [GetGitRef (lit "heads/feature");
     GetGitRef (lit "heads/main");
     GetGitRef (lit "heads/develop");
     CreateGitRef (lit "refs/heads/feature") (lit "sha0c");
     GetGitCommit (lit "sha0c");
     GetGitTree (lit "sha0t")].
Proof.
  split.
  - edestruct (@missing_branch_bootstrap _ _ Fixtures.mixed
                 Fixtures.develop_repo (lit "feature") None
                 [Fixtures.a_txt; Fixtures.b_bin]
                 (Sim.start Fixtures.two_branches))
      as (_ & H & _ & _); [reflexivity | reflexivity |].
    eapply eq_trans.
    + apply (f_equal (fun r => map ev_call (log (snd r)))).
      eapply H; reflexivity.
    + reflexivity.
  - edestruct (@missing_branch_bootstrap _ _ Fixtures.mixed
                 Fixtures.develop_repo (lit "feature") None
                 [Fixtures.a_txt; Fixtures.b_bin]
                 (Sim.start Fixtures.develop_start))
      as (_ & _ & H & _); [reflexivity | reflexivity |].
    eapply eq_trans.
    + apply (f_equal (fun r => map ev_call (log (snd r)))).
      eapply H; reflexivity.
    + reflexivity.
Defined.

(** C6 as stated fails where the default branch is not [main] and a branch
    [main] exists: the default branch [develop] is known and its head can be
    looked up, yet the new branch is created from the head of [main], a
    different commit. *)
Lemma branch_created_from_main_not_default :
  let w := Fixtures.two_branches in
  let repo := Fixtures.develop_repo in
  let out := ensure_branch Fixtures.mixed repo None (lit "feature")
               [Fixtures.a_txt; Fixtures.b_bin] (Sim.start w) in
  default_branch repo = lit "develop" /\
  fst (get_git_ref repo (lit "heads/" ++ default_branch repo) w)
  = inr (mkGitRef (lit "refs/heads/develop") (lit "sha1c")) /\
  map ev_call (filter (fun ev => negb (is_lookup ev)) (log (snd out)))
  = [CreateGitRef (lit "refs/heads/feature") (lit "sha0c")] /\
  lit "sha0c" <> lit "sha1c".
Proof.
  split; [|split; [|split]]; try reflexivity. discriminate.
Qed.

(** ** Every file is counted once *)

Lemma filter_out_one (t : upload_item) (l : list upload_item) :
  NoDup l -> In t l ->
  S (List.length (filter (fun x => negb (item_eqb x t)) l)) = List.length l.
Proof.
  induction l as [|x l IH]; intros Hnd Hin; [destruct Hin|].
  inversion Hnd as [|? ? Hx Hl]; subst. cbn [filter].
  destruct (item_eqb x t) eqn:E; cbn [negb List.length].
  - apply item_eqb_eq in E. subst x. f_equal.
    clear IH Hin Hnd Hl. induction l as [|y l IH]; [reflexivity|].
    cbn [filter]. destruct (item_eqb y t) eqn:E; cbn [negb].
    + apply item_eqb_eq in E. subst y. exfalso. apply Hx. left. reflexivity.
    + cbn [List.length]. f_equal. apply IH. intros H. apply Hx. right. exact H.
  - f_equal. apply IH; [exact Hl|].
    destruct Hin as [-> | Hin]; [|exact Hin].
    rewrite (proj2 (item_eqb_eq t t) eq_refl) in E. discriminate.
Qed.

Section Counting.
Context {W : Type} {api : GitHubAPI W}.
Variable local : project.
Variable repo : Repository.
Variable branch : pystr.

Local Open Scope Z_scope.

Lemma after_bootstrap_length A (first : res A) readme_content files :
  NoDup files ->
  Z.of_nat (List.length (after_bootstrap first readme_content files))
  = Z.of_nat (List.length files)
    - (if readme_consumed first readme_content files then 1 else 0).
Proof.
  intros Hnd. unfold after_bootstrap.
  destruct (readme_consumed first readme_content files) eqn:Hc; [|lia].
  destruct (find is_readme files) as [t|] eqn:Hf.
  - apply find_some in Hf. destruct Hf as [Hin _].
    apply filter_out_one in Hin; [lia | exact Hnd].
  - unfold readme_consumed in Hc. destruct first; [|discriminate].
    rewrite Hf, andb_false_r in Hc. discriminate.
Qed.

(** The snapshot that [ensure_branch] hands to the upload loop. *)
Lemma ensure_branch_files readme_content files s files' head s' :
  ensure_branch local repo readme_content branch files s
  = (inr (files', head), s') ->
  files' = after_bootstrap (fst (resolve_head repo branch s))
                           readme_content files.
Proof.
  unfold ensure_branch, initial_commit, after_bootstrap, readme_consumed.
  unfold do_create_file, try_except, bind, lift, ret.
  destruct (resolve_head repo branch s) as [[e | h] s1]; cbn [fst].
  2: { intros H. injection H as <- _ _. reflexivity. }
  destruct (is_empty_repo e); cbn [andb];
    [destruct (truthy readme_content); cbn [negb andb];
     [|destruct (find is_readme files) as [[fp rp]|]]|];
    repeat match goal with
           | |- context [invoke ?c ?tag ?op ?s0] =>
             destruct (invoke c tag op s0) as [[? | ?] ?]
           | |- context [resolve_head ?r ?b ?s0] =>
             destruct (resolve_head r b s0) as [[? | ?] ?]
           | |- context [create_branch ?r ?b ?s0] =>
             destruct (create_branch r b s0) as [[? | ?] ?]
           | |- context [read_bytes ?l ?p] => destruct (read_bytes l p)
           | |- context [bytes_decode ?c] => destruct (bytes_decode c)
           end;
    try discriminate; intros H; injection H as <- _ _; reflexivity.
Qed.

End Counting.


(** ** The collector *)

Lemma entry_ind' (P : entry -> Prop) :
  (forall name size, P (File name size)) ->
  (forall d children, Forall P children -> P (Dir d children)) ->
  forall e, P e.
Proof.
  intros HF HD. fix IH 1. intros [name size | d children].
  - apply HF.
  - apply HD.
    refine ((fix all (l : list entry) : Forall P l :=
               match l with
               | [] => Forall_nil P
               | x :: l' => Forall_cons x (IH x) (all l')
               end) children).
Qed.

Lemma collect_files_sound root rel es : forall l t,
  collect_files root rel es = inr l -> In t l ->
  exists name size,
    In (File name (inr size)) es /\
    skip_file name = false /\
    (size <= MAX_FILE_SIZE)%Z /\
    t = (root ++ sep ++ name, join sep (rel ++ [name])).
Proof.
  induction es as [|[name size | d ch] es IH]; intros l t Hc Hin;
    cbn [collect_files] in Hc.
  - injection Hc as <-. destruct Hin.
  - destruct (skip_file name) eqn:Hskip.
    { destruct (IH l t Hc Hin) as (n & z & H1 & H2).
      exists n, z. split; [right; exact H1 | exact H2]. }
    destruct size as [e | sz]; [discriminate|].
    destruct (sz >? MAX_FILE_SIZE)%Z eqn:Hsz.
    { destruct (IH l t Hc Hin) as (n & z & H1 & H2).
      exists n, z. split; [right; exact H1 | exact H2]. }
    destruct (collect_files root rel es) as [e | l'] eqn:Hrest; [discriminate|].
    injection Hc as <-. destruct Hin as [<- | Hin].
    + exists name, sz. repeat split; auto.
      * left. reflexivity.
      * rewrite Z.gtb_ltb, Z.ltb_ge in Hsz. exact Hsz.
    + destruct (IH l' t eq_refl Hin) as (n & z & H1 & H2).
      exists n, z. split; [right; exact H1 | exact H2].
  - destruct (IH l t Hc Hin) as (n & z & H1 & H2).
    exists n, z. split; [right; exact H1 | exact H2].
Qed.

Lemma flat_res_In A B (f : A -> res (list B)) l : forall r x,
  flat_res f l = inr r -> In x r ->
  exists a ra, In a l /\ f a = inr ra /\ In x ra.
Proof.
  induction l as [|a l IH]; intros r x Hf Hin; cbn [flat_res] in Hf.
  - injection Hf as <-. destruct Hin.
  - destruct (f a) as [e | ra] eqn:Ha; [discriminate|].
    destruct (flat_res f l) as [e | rb] eqn:Hb; [discriminate|].
    injection Hf as <-. apply in_app_or in Hin. destruct Hin as [Hin | Hin].
    + exists a, ra. split; [left; reflexivity | split; assumption].
    + destruct (IH rb x eq_refl Hin) as (a' & ra' & H1 & H2).
      exists a', ra'. split; [right; exact H1 | exact H2].
Qed.

Lemma eligible_here es root rel name size :
  In (File name (inr size)) es ->
  skip_file name = false ->
  (size <= MAX_FILE_SIZE)%Z ->
  eligible_item es root rel (root ++ sep ++ name, join sep (rel ++ [name])).
Proof.
  intros Hin Hskip Hsz. exists [], name, size.
  repeat split; auto. apply located_here, Hin.
Qed.

Lemma eligible_below es root rel d children t :
  In (Dir d children) es ->
  keep_dir d = true ->
  eligible_item children (root ++ sep ++ d) (rel ++ [d]) t ->
  eligible_item es root rel t.
Proof.
  intros Hin Hkeep (dirs & name & size & Hloc & Hdirs & Hskip & Hsz & Hf & Hs).
  exists (d :: dirs), name, size. repeat split; auto.
  - eapply located_below; eassumption.
  - cbn [forallb]. rewrite Hkeep, Hdirs. reflexivity.
  - rewrite Hs, <- app_assoc. reflexivity.
Qed.

Lemma walk_level_sound sub root rel es l t :
  (forall a ra, In a es -> sub a = inr ra -> In t ra ->
                eligible_item es root rel t) ->
  walk_level sub root rel es = inr l -> In t l ->
  eligible_item es root rel t.
Proof.
  intros Hsub. unfold walk_level.
  destruct (collect_files root rel es) as [e | here] eqn:Hhere; [discriminate|].
  destruct (flat_res sub es) as [e | below] eqn:Hbelow; [discriminate|].
  intros H Hin. injection H as <-. apply in_app_or in Hin.
  destruct Hin as [Hin | Hin].
  - edestruct collect_files_sound as (name & size & H1 & H2 & H3 & ->);
      [exact Hhere | exact Hin |].
    eapply eligible_here; eassumption.
  - edestruct flat_res_In as (a & ra & H1 & H2 & H3);
      [exact Hbelow | exact Hin |].
    eapply Hsub; eassumption.
Qed.

Lemma walk_entry_sound e : forall root rel l t,
  walk_entry root rel e = inr l -> In t l ->
  exists d children,
    e = Dir d children /\ keep_dir d = true /\
    eligible_item children (root ++ sep ++ d) (rel ++ [d]) t.
Proof.
  induction e as [name size | d children IH] using entry_ind';
    intros root rel l t Hw Hin; cbn [walk_entry] in Hw.
  - injection Hw as <-. destruct Hin.
  - destruct (keep_dir d) eqn:Hkeep; [|injection Hw as <-; destruct Hin].
    exists d, children. split; [reflexivity|]. split; [exact Hkeep|].
    eapply walk_level_sound; [|exact Hw|exact Hin].
    intros a ra Ha Hsub Hra. rewrite Forall_forall in IH.
    edestruct (IH a Ha) as (d' & ch' & -> & Hk & Hel);
      [exact Hsub | exact Hra |].
    eapply eligible_below; eassumption.
Qed.

(** Every element of the snapshot stands for an eligible file. *)
Lemma walk_sound root rel es l t :
  walk root rel es = inr l -> In t l -> eligible_item es root rel t.
Proof.
  unfold walk. intros Hw Hin.
  eapply walk_level_sound; [|exact Hw|exact Hin].
  intros a ra Ha Hsub Hra.
  edestruct (@walk_entry_sound a) as (d & ch & Heq & Hk & Hel);
    [exact Hsub | exact Hra |]. subst a.
  eapply eligible_below; eassumption.
Qed.

(** Leaving out the excluded entries does not change what is collected. *)
Lemma collect_files_prune root rel es :
  collect_files root rel (prune es) = collect_files root rel es.
Proof.
  unfold prune. induction es as [|[name size | d ch] es IH];
    cbn [flat_map prune_entry collect_files]; [reflexivity | |].
  - destruct (skip_file name) eqn:Hskip; [exact IH|].
    destruct size as [e | sz].
    { cbn [app collect_files]. rewrite Hskip. reflexivity. }
    destruct (sz >? MAX_FILE_SIZE)%Z eqn:Hsz; cbn [app collect_files];
      [exact IH|].
    rewrite Hskip, Hsz, IH. reflexivity.
  - destruct (keep_dir d); cbn [app collect_files]; exact IH.
Qed.

Lemma flat_res_app A B (f : A -> res (list B)) l1 l2 :
  flat_res f (l1 ++ l2)
  = match flat_res f l1 with
    | inl e => inl e
    | inr a =>
      match flat_res f l2 with
      | inl e => inl e
      | inr b => inr (a ++ b)
      end
    end.
Proof.
  induction l1 as [|x l1 IH]; cbn [app flat_res].
  - destruct (flat_res f l2); reflexivity.
  - destruct (f x) as [e | a]; [reflexivity|]. rewrite IH.
    destruct (flat_res f l1) as [e | b]; [reflexivity|].
    destruct (flat_res f l2) as [e | c]; [reflexivity|].
    rewrite app_assoc. reflexivity.
Qed.

Lemma flat_res_flat_map A B (f : A -> res (list B)) (g : A -> list A) l :
  Forall (fun x => flat_res f (g x) = f x) l ->
  flat_res f (flat_map g l) = flat_res f l.
Proof.
  induction 1 as [|x l Hx Hl IH]; cbn [flat_map flat_res]; [reflexivity|].
  rewrite flat_res_app, Hx, IH. reflexivity.
Qed.

Lemma walk_entry_prune e : forall root rel,
  flat_res (walk_entry root rel) (prune_entry e) = walk_entry root rel e.
Proof.
  induction e as [name size | d children IH] using entry_ind';
    intros root rel; cbn [prune_entry walk_entry].
  - destruct (skip_file name); [reflexivity|].
    destruct size as [e | sz]; [reflexivity|].
    destruct (sz >? MAX_FILE_SIZE)%Z; reflexivity.
  - destruct (keep_dir d) eqn:Hkeep; [|reflexivity].
    cbn [flat_res walk_entry]. rewrite Hkeep. unfold walk_level.
    fold (prune children). rewrite collect_files_prune.
    unfold prune. rewrite flat_res_flat_map.
    + destruct (collect_files _ _ children) as [e | here]; [reflexivity|].
      destruct (flat_res _ children) as [e | below]; [reflexivity|].
      rewrite app_nil_r. reflexivity.
    + rewrite Forall_forall in IH. apply Forall_forall.
      intros x Hx. apply IH, Hx.
Qed.

Lemma walk_prune root rel es :
  walk root rel (prune es) = walk root rel es.
Proof.
  unfold walk, walk_level. rewrite collect_files_prune.
  unfold prune. rewrite flat_res_flat_map; [reflexivity|].
  apply Forall_forall. intros x _. apply walk_entry_prune.
Qed.

Lemma after_bootstrap_le A (first : res A) readme_content files :
  (List.length (after_bootstrap first readme_content files)
   <= List.length files)%nat.
Proof.
  unfold after_bootstrap.
  destruct (readme_consumed first readme_content files); [|lia].
  destruct (find is_readme files); [apply filter_length_le | lia].
Qed.

(** ** Writes and look-ups in the log *)

Section TextFiles.
Context {W : Type} {api : GitHubAPI W}.
Variable local : project.
Variable repo : Repository.
Variable branch : pystr.

Local Open Scope Z_scope.

Lemma writes_app evs1 evs2 : writes (evs1 ++ evs2) = writes evs1 + writes evs2.
Proof. unfold writes. rewrite filter_app, length_app. lia. Qed.

(** The look-ups of [resolve_head] write nothing, and they raise only when
    the remote refuses one of them. *)
Lemma resolve_head_outcome s :
  exists evs,
    log (snd (resolve_head repo branch s)) = log s ++ evs /\
    writes evs = 0 /\
    (forallb accepted evs = true ->
     exists head, fst (resolve_head repo branch s) = inr head).
Proof.
  unfold resolve_head. unfold_engine.
  destruct (get_git_ref repo (lit "heads/" ++ branch) (world s))
    as [[e | ref] w1]; cbn [world log answer fst snd].
  { eexists. split; [reflexivity|]. split; [reflexivity|]. discriminate. }
  destruct (get_git_commit repo (ref_object_sha ref) w1) as [[e | c] w2];
    cbn [world log answer fst snd].
  { eexists. rewrite <- app_assoc. split; [reflexivity|].
    split; [reflexivity|]. discriminate. }
  destruct (get_git_tree repo (commit_tree_sha c) w2) as [[e | t] w3];
    cbn [world log answer fst snd];
    eexists; rewrite <- !app_assoc; (split; [reflexivity|]);
    (split; [reflexivity|]); [discriminate | eexists; reflexivity].
Qed.

End TextFiles.

(** ** The result of a deployment *)

Section Deploy.
Context {W : Type} {api : GitHubAPI W}.
Variable isalnum : N -> bool.
Variable local : project.

Local Open Scope Z_scope.

(** A loop in which no file can be read skips every file. *)
Lemma unreadable_loop repo branch files : forall st s,
  (forall t, In t files -> exists e, read_bytes local (fst t) = inl e) ->
  upload_loop local repo branch files st s
  = (inr (mkLoop (n_uploaded st)
                 (n_skipped st + Z.of_nat (List.length files))
                 (tree_elements st)), s).
Proof.
  induction files as [|t rest IH]; intros st s Hall.
  - cbn. rewrite Z.add_0_r. destruct st; reflexivity.
  - destruct (Hall t (or_introl eq_refl)) as [e He].
    destruct t as [fp rp]. cbn [fst] in He.
    pose proof (@read_failure _ _ local repo branch fp rp s e He) as Hfail.
    apply failure_raises with (st := st) in Hfail.
    apply loop_step_failed in Hfail.
    cbn [upload_loop]. step.
    rewrite IH by (intros t Ht; apply Hall; right; exact Ht).
    cbn [n_uploaded n_skipped tree_elements List.length].
    rewrite Nat2Z.inj_succ, <- Z.add_assoc, (Z.add_1_l (Z.of_nat _)).
    reflexivity.
Qed.

(** C10.  Once the repository is there and the bootstrap of the branch
    has gone through, [deploy_project] returns the success result, with the
    URL of the repository and the two counters, which cover the files that
    the bootstrap left in the snapshot.  This holds whatever happens to the
    files and to the final commit; when no file can be read, the result is
    still the success result, with nothing uploaded and every file
    skipped. *)
Theorem deploy_succeeds_after_bootstrap
    description readme_content branch private s repo s1 files0 files head s2 :
  _get_or_create_repo (sanitize isalnum (project_name local)) description
                      private s = (inr (Some repo), s1) ->
  gather local = inr files0 ->
  ensure_branch local repo readme_content branch files0 s1
  = (inr (files, head), s2) ->
  exists uploaded skipped s3,
    deploy_project isalnum local (inr description) readme_content branch
                   private s
    = (inr (DeployOk (html_url repo) (sanitize isalnum (project_name local))
                     branch private uploaded skipped), s3) /\
    success (DeployOk (html_url repo) (sanitize isalnum (project_name local))
                      branch private uploaded skipped) = true /\
    uploaded + skipped = Z.of_nat (List.length files) /\
    0 <= uploaded /\ 0 <= skipped /\
    ((forall t, In t files -> exists e, read_bytes local (fst t) = inl e) ->
     uploaded = 0 /\ skipped = Z.of_nat (List.length files)).
Proof.
  intros Hrepo Hg Hens.
  destruct (upload_phase_total local repo branch files s2)
    as (result & s3 & Hup & Hsum & Hu & Hs).
  exists (files_uploaded result), (files_skipped result), s3.
  split; [|split; [reflexivity|split; [exact Hsum|split; [exact Hu|split]]]].
  - unfold deploy_project. unfold bind at 1, lift at 1.
    unfold bind at 1. rewrite Hrepo.
    unfold bind at 1, _upload_files. unfold bind at 1, lift at 1.
    rewrite Hg. unfold bind at 1. rewrite Hens, Hup. reflexivity.
  - exact Hs.
  - intros Hall. unfold upload_phase in Hup.
    unfold bind at 1 in Hup.
    rewrite (unreadable_loop repo branch files loop_init s2 Hall) in Hup.
    cbn [loop_init n_uploaded n_skipped tree_elements commit_binary] in Hup.
    unfold bind, ret in Hup. injection Hup as <- _.
    cbn [files_uploaded files_skipped]. split; reflexivity.
Qed.

End Deploy.

Lemma deploy_succeeds_after_bootstrap_witness :
  fst (deploy_project Fixtures.ascii_isalnum Fixtures.unreadable
         (inr (lit "A project")) None (lit "main") false
         (Sim.start Sim.no_repo))
  = inr (DeployOk (lit "https://github.com/user/my-project")
                  (lit "my-project") (lit "main") false 0 2).
Proof.
  edestruct (@deploy_succeeds_after_bootstrap _ _ Fixtures.ascii_isalnum
               Fixtures.unreadable (lit "A project") None (lit "main") false
               (Sim.start Sim.no_repo))
    as (uploaded & skipped & s3 & Hrun & _ & _ & _ & _ & Hall).
  - reflexivity.
  - reflexivity.
  - reflexivity.
  - rewrite Hrun. cbn [fst]. destruct Hall as [-> ->].
    + intros t [<- | [<- | []]]; eexists; reflexivity.
    + reflexivity.
Defined.

(** ** The files of a snapshot are pairwise distinct *)

Lemma join_lead rel p :
  p <> [] -> join sep (rel ++ p) = lead rel ++ join sep p.
Proof.
  intros Hp. induction rel as [|d rel IH]; [reflexivity|].
  cbn [app join lead]. destruct (rel ++ p) as [|x l] eqn:E.
  - apply app_eq_nil in E. destruct E as [_ E]. contradiction.
  - rewrite IH, <- !app_assoc. reflexivity.
Qed.

Lemma join_cons d p : p <> [] -> join sep (d :: p) = d ++ sep ++ join sep p.
Proof. destruct p; [congruence | reflexivity]. Qed.

Lemma no_sep_head (n d x : pystr) :
  no_sep n = true -> n <> d ++ sep ++ x.
Proof.
  intros Hn ->. unfold no_sep in Hn. rewrite !forallb_app in Hn.
  apply andb_true_iff in Hn. destruct Hn as [_ Hn].
  apply andb_true_iff in Hn. destruct Hn as [Hn _]. discriminate Hn.
Qed.

Lemma no_sep_prefix (d1 d2 x y : pystr) :
  no_sep d1 = true -> no_sep d2 = true ->
  d1 ++ sep ++ x = d2 ++ sep ++ y -> d1 = d2.
Proof.
  revert d2. induction d1 as [|c d1 IH]; intros [|c2 d2] H1 H2 E.
  - reflexivity.
  - cbn in E. injection E as <- _. cbn in H2. discriminate.
  - cbn in E. injection E as -> _. cbn in H1. discriminate.
  - cbn [app] in E. injection E as <- E. cbn [no_sep forallb] in H1, H2.
    apply andb_true_iff in H1. apply andb_true_iff in H2.
    f_equal. apply (IH d2); tauto.
Qed.

Lemma join_last_inj rel n1 n2 :
  join sep (rel ++ [n1]) = join sep (rel ++ [n2]) -> n1 = n2.
Proof.
  rewrite !join_lead by discriminate. cbn [join].
  apply app_inv_head.
Qed.

Lemma collect_files_distinct root rel es : forall l,
  NoDup (map entry_name es) ->
  collect_files root rel es = inr l ->
  NoDup (map snd l).
Proof.
  induction es as [|[name size | d ch] es IH]; intros l Hnd Hc;
    cbn [collect_files] in Hc; cbn [map entry_name] in Hnd;
    inversion Hnd as [|? ? Hout Hrest]; subst.
  - injection Hc as <-. constructor.
  - destruct (skip_file name); [apply IH; assumption|].
    destruct size as [e | sz]; [discriminate|].
    destruct (sz >? MAX_FILE_SIZE)%Z; [apply IH; assumption|].
    destruct (collect_files root rel es) as [e | l'] eqn:Hl'; [discriminate|].
    injection Hc as <-. cbn [map snd]. constructor; [|apply IH; auto].
    intros Hin. apply in_map_iff in Hin. destruct Hin as (t & Ht & Hin).
    edestruct collect_files_sound as (n & z & H1 & _ & _ & Et);
      [exact Hl' | exact Hin |].
    subst t. cbn [snd] in Ht. apply join_last_inj in Ht. subst n.
    apply Hout. apply in_map_iff. exists (File name (inr z)).
    split; [reflexivity | exact H1].
  - apply IH; assumption.
Qed.

(** What [walk_entry] yields lies below the directory it is given. *)
Lemma walk_entry_below e root rel l t :
  walk_entry root rel e = inr l -> In t l ->
  exists d children p,
    e = Dir d children /\ p <> [] /\ snd t = join sep (rel ++ d :: p).
Proof.
  intros Hw Hin.
  edestruct (@walk_entry_sound e) as (d & ch & -> & _ & Hel);
    [exact Hw | exact Hin |].
  destruct Hel as (dirs & name & size & _ & _ & _ & _ & _ & Hs).
  exists d, ch, (dirs ++ [name]). split; [reflexivity|].
  split; [destruct dirs; discriminate|].
  rewrite Hs, <- app_assoc. reflexivity.
Qed.

Lemma below_distinct_dirs rel d1 p1 d2 p2 :
  no_sep d1 = true -> no_sep d2 = true -> p1 <> [] -> p2 <> [] ->
  join sep (rel ++ d1 :: p1) = join sep (rel ++ d2 :: p2) -> d1 = d2.
Proof.
  intros H1 H2 Hp1 Hp2. rewrite !join_lead by discriminate.
  rewrite !join_cons by assumption. intros E. apply app_inv_head in E.
  eapply no_sep_prefix; eassumption.
Qed.

Lemma flat_walk_distinct root rel es : forall below,
  Forall (fun e => forall root rel l,
              (forall d ch, e = Dir d ch -> well_formed ch) ->
              walk_entry root rel e = inr l -> NoDup (map snd l)) es ->
  NoDup (map entry_name es) ->
  (forall e, In e es -> no_sep (entry_name e) = true) ->
  (forall d ch, In (Dir d ch) es -> well_formed ch) ->
  flat_res (walk_entry root rel) es = inr below ->
  NoDup (map snd below).
Proof.
  induction es as [|x es IH]; intros below Hall Hnd Hsep Hwf Hf;
    cbn [flat_res] in Hf.
  - injection Hf as <-. constructor.
  - destruct (walk_entry root rel x) as [e | a] eqn:Ha; [discriminate|].
    destruct (flat_res (walk_entry root rel) es) as [e | b] eqn:Hb;
      [discriminate|].
    injection Hf as <-. rewrite map_app.
    inversion Hall as [|? ? Hx Hes]; subst.
    cbn [map] in Hnd. inversion Hnd as [|? ? Hout Hrest]; subst.
    apply NoDup_app.
    + apply (Hx root rel a); [|exact Ha].
      intros d ch ->. apply (Hwf d ch). left. reflexivity.
    + apply IH; auto.
      * intros e He. apply Hsep. right. exact He.
      * intros d ch Hd. apply (Hwf d ch). right. exact Hd.
    + intros y Hya Hyb.
      apply in_map_iff in Hya. destruct Hya as (t1 & <- & Ht1).
      apply in_map_iff in Hyb. destruct Hyb as (t2 & Heq & Ht2).
      edestruct (@walk_entry_below x) as (d1 & ch1 & p1 & Ex & Hp1 & Hs1);
        [exact Ha | exact Ht1 |]. subst x.
      edestruct flat_res_In as (x2 & r2 & Hx2 & Hr2 & Hin2);
        [exact Hb | exact Ht2 |].
      edestruct (@walk_entry_below x2) as (d2 & ch2 & p2 & Ex & Hp2 & Hs2);
        [exact Hr2 | exact Hin2 |]. subst x2.
      rewrite Hs1, Hs2 in Heq.
      apply below_distinct_dirs in Heq; auto.
      * subst d2. apply Hout. apply in_map_iff.
        exists (Dir d1 ch2). split; [reflexivity | exact Hx2].
      * apply (Hsep (Dir d2 ch2)). right. exact Hx2.
      * apply (Hsep (Dir d1 ch1)). left. reflexivity.
Qed.

Lemma walk_level_distinct root rel es l :
  Forall (fun e => forall root rel l,
              (forall d ch, e = Dir d ch -> well_formed ch) ->
              walk_entry root rel e = inr l -> NoDup (map snd l)) es ->
  well_formed es ->
  walk_level (walk_entry root rel) root rel es = inr l ->
  NoDup (map snd l).
Proof.
  intros Hall Hwf. inversion Hwf as [? Hnd Hsep Hsub]; subst.
  unfold walk_level.
  destruct (collect_files root rel es) as [e | here] eqn:Hhere; [discriminate|].
  destruct (flat_res (walk_entry root rel) es) as [e | below] eqn:Hbelow;
    [discriminate|].
  intros H. injection H as <-. rewrite map_app. apply NoDup_app.
  - eapply collect_files_distinct; eassumption.
  - eapply flat_walk_distinct; eassumption.
  - intros y Hy1 Hy2.
    apply in_map_iff in Hy1. destruct Hy1 as (t1 & <- & Ht1).
    apply in_map_iff in Hy2. destruct Hy2 as (t2 & Heq & Ht2).
    edestruct collect_files_sound as (n & z & Hn & _ & _ & Et);
      [exact Hhere | exact Ht1 |].
    subst t1.
    edestruct flat_res_In as (x2 & r2 & Hx2 & Hr2 & Hin2);
      [exact Hbelow | exact Ht2 |].
    edestruct (@walk_entry_below x2) as (d & ch & p & Ex & Hp & Hs);
      [exact Hr2 | exact Hin2 |]. subst x2.
    cbn [snd] in Heq. rewrite Hs in Heq.
    rewrite !join_lead in Heq by discriminate.
    apply app_inv_head in Heq. rewrite join_cons in Heq by assumption.
    cbn [join] in Heq. symmetry in Heq. revert Heq. apply no_sep_head.
    apply (Hsep (File n (inr z))). exact Hn.
Qed.

Lemma walk_entry_distinct e : forall root rel l,
  (forall d ch, e = Dir d ch -> well_formed ch) ->
  walk_entry root rel e = inr l -> NoDup (map snd l).
Proof.
  induction e as [name size | d children IH] using entry_ind';
    intros root rel l Hwf Hw; cbn [walk_entry] in Hw.
  - injection Hw as <-. constructor.
  - destruct (keep_dir d); [|injection Hw as <-; constructor].
    eapply walk_level_distinct; [exact IH | | exact Hw].
    apply (Hwf d children). reflexivity.
Qed.

(** The elements of the snapshot of a well-formed tree have pairwise
    distinct relative paths, and so are pairwise distinct. *)
Lemma gather_distinct (local : project) files :
  well_formed (project_entries local) ->
  gather local = inr files ->
  NoDup (map snd files) /\ NoDup files.
Proof.
  intros Hwf Hg.
  assert (H : NoDup (map snd files)).
  { eapply walk_level_distinct; [|exact Hwf|exact Hg].
    apply Forall_forall. intros e _. apply walk_entry_distinct. }
  split; [exact H | eapply NoDup_map_inv; exact H].
Qed.

(** ** Every file of the snapshot is counted once *)

Section Snapshot.
Context {W : Type} {api : GitHubAPI W}.
Variable local : project.
Variable repo : Repository.
Variable branch : pystr.

Local Open Scope Z_scope.

(** C2.  When [_upload_files] returns, which it does whenever the
    collection and the bootstrap of the branch went through, the two
    counters add up to the number of files of the snapshot, less one when
    the bootstrap of an empty repository took its README from the snapshot.
    The project directory is a directory tree as a file system holds it. *)
Theorem counters_cover_snapshot readme_content files s result s' :
  well_formed (project_entries local) ->
  gather local = inr files ->
  _upload_files local repo readme_content branch s = (inr result, s') ->
  files_uploaded result + files_skipped result
  = Z.of_nat (List.length files)
    - (if readme_consumed (fst (resolve_head repo branch s))
                          readme_content files
       then 1 else 0).
Proof.
  intros Hwf Hg.
  destruct (gather_distinct local Hwf Hg) as [_ Hnd].
  unfold _upload_files. unfold bind at 1, lift at 1.
  rewrite Hg. unfold bind at 1.
  destruct (ensure_branch local repo readme_content branch files s)
    as [[e | [files' head]] s1] eqn:Hens; [discriminate|].
  apply ensure_branch_files in Hens.
  destruct (upload_phase_total local repo branch files' s1)
    as (r & s2 & Hup & Hsum & _).
  rewrite Hup. intros H. injection H as <- _.
  rewrite Hsum, Hens. apply after_bootstrap_length, Hnd.
Qed.

End Snapshot.

Lemma counters_cover_snapshot_witness :
  match fst (_upload_files Fixtures.full Fixtures.the_repo None (lit "main")
               (Sim.start Sim.empty_repo)) with
  | inr result => (files_uploaded result + files_skipped result = 3 - 1)%Z
  | inl _ => False
  end.
Proof.
  destruct (_upload_files Fixtures.full Fixtures.the_repo None (lit "main")
              (Sim.start Sim.empty_repo)) as [[e | result] s'] eqn:E;
    cbn [fst].
  - vm_compute in E. discriminate E.
  - eapply eq_trans.
    + eapply (@counters_cover_snapshot _ _ Fixtures.full Fixtures.the_repo
                (lit "main") None
                [Fixtures.readme_md; Fixtures.a_txt; Fixtures.b_bin]).
      * constructor.
        -- repeat (constructor; [cbn; intuition discriminate|]). constructor.
        -- intros x [<- | [<- | [<- | []]]]; reflexivity.
        -- intros d children [H | [H | [H | []]]]; discriminate H.
      * reflexivity.
      * exact E.
    + reflexivity.
Defined.

(** * Further properties *)

(** ** The name of the repository *)

Lemma filter_all A (f : A -> bool) (l : list A) :
  Forall (fun x => f x = true) l -> filter f l = l.
Proof.
  induction 1 as [|x l Hx _ IH]; [reflexivity|].
  cbn [filter]. rewrite Hx, IH. reflexivity.
Qed.

Lemma map_same A (f : A -> A) (l : list A) :
  Forall (fun x => f x = x) l -> map f l = l.
Proof.
  induction 1 as [|x l Hx _ IH]; [reflexivity|].
  cbn [map]. rewrite Hx, IH. reflexivity.
Qed.

Lemma contains_hyphen_underscore (c : N) :
  contains (lit "-_") [c] = true -> c = 45 \/ c = 95.
Proof.
  change (lit "-_") with [45; 95]. cbn [contains startswith].
  destruct (45 =? c) eqn:E1; [apply N.eqb_eq in E1; auto|].
  destruct (95 =? c) eqn:E2; [apply N.eqb_eq in E2; auto|].
  cbn. discriminate.
Qed.

Section RepoName.
Variable isalnum : N -> bool.

Lemma sanitize_chars (name : pystr) (c : N) :
  In c (sanitize isalnum name) ->
  c <> 32 /\ c <> 95 /\ (isalnum c = true \/ c = 45).
Proof.
  unfold sanitize, replace1. rewrite filter_In, map_map, in_map_iff.
  intros [(x & <- & _) Hkeep].
  destruct (x =? 32) eqn:E32; cbn [N.eqb Pos.eqb] in *.
  { repeat split; try discriminate. right. reflexivity. }
  destruct (x =? 95) eqn:E95.
  { repeat split; try discriminate. right. reflexivity. }
  apply N.eqb_neq in E32, E95. repeat split; try assumption.
  apply orb_true_iff in Hkeep. destruct Hkeep as [H | H]; [left; exact H|].
  apply contains_hyphen_underscore in H. destruct H as [H | H]; [right; exact H|].
  contradiction.
Qed.

(** X1.  The repository name that [deploy_project] derives from the name
    of the project directory holds neither a space nor an underscore: each
    of its characters is alphanumeric or a hyphen.  Deriving a name from a
    derived name changes nothing. *)
Theorem repo_name_is_hyphenated (name : pystr) :
  Forall (fun c => c <> 32 /\ c <> 95 /\ (isalnum c = true \/ c = 45))
         (sanitize isalnum name) /\
  sanitize isalnum (sanitize isalnum name) = sanitize isalnum name.
Proof.
  split.
  - apply Forall_forall. intros c Hc. apply (sanitize_chars _ _ Hc).
  - assert (H : forall c, In c (sanitize isalnum name) ->
                c <> 32 /\ c <> 95 /\ (isalnum c = true \/ c = 45))
      by (intros c Hc; apply (sanitize_chars _ _ Hc)).
    revert H. generalize (sanitize isalnum name) as out. intros out H.
    unfold sanitize, replace1. rewrite map_map.
    rewrite map_same.
    + apply filter_all, Forall_forall. intros c Hc.
      destruct (H c Hc) as (_ & _ & [Ha | ->]); [rewrite Ha|];
        [reflexivity | apply orb_true_r].
    + apply Forall_forall. intros c Hc. destruct (H c Hc) as (H32 & H95 & _).
      apply N.eqb_neq in H32, H95. rewrite H32, H95. reflexivity.
Qed.

End RepoName.

(** ** The answers of [deploy_github] *)

Section Answers.
Context {W : Type} {api : GitHubAPI W}.
Variable isalnum : N -> bool.
Variable local : project.

Lemma monotone_upload_files repo readme_content branch :
  monotone (_upload_files local repo readme_content branch).
Proof.
  unfold _upload_files. apply monotone_bind; [apply monotone_lift|].
  intros files. apply monotone_bind.
  - unfold ensure_branch. apply monotone_try.
    + apply monotone_bind; [apply monotone_resolve_head|]. mono.
    + intros e. destruct (is_empty_repo e).
      * apply monotone_bind; [apply monotone_initial_commit|].
        intros ?. apply monotone_bind; [apply monotone_resolve_head|]. mono.
      * apply monotone_bind; [apply monotone_create_branch|]. mono.
  - intros [files' ?]. apply monotone_upload_phase.
Qed.

Lemma monotone_deploy_project analysis readme_content branch private :
  monotone (deploy_project isalnum local analysis readme_content branch
                           private).
Proof.
  unfold deploy_project. apply monotone_bind; [apply monotone_lift|].
  intros description. apply monotone_bind.
  - unfold _get_or_create_repo. mono.
  - intros [repo|]; [|apply monotone_ret].
    apply monotone_bind; [apply monotone_upload_files|]. mono.
Qed.

(** X2.  [deploy_github] never raises: whatever the analysis, the local
    files and the remote do, it returns a response, which is either a
    success with the URL and the metadata and no error, or a failure with
    an error and nothing else.  The calls made before are kept in the
    log. *)
Theorem deploy_github_always_answers analysis readme_content branch private s :
  exists response s',
    deploy_github isalnum local analysis readme_content branch private s
    = (inr response, s') /\
    response_ok response /\
    extends s' s.
Proof.
  pose proof (monotone_deploy_project analysis readme_content branch private s)
    as Hm.
  unfold deploy_github, try_except, bind.
  destruct (deploy_project isalnum local analysis readme_content branch
                           private s) as [[e | result] s'];
    cbn [snd] in Hm.
  - eexists _, s'. split; [reflexivity|]. split; [|exact Hm].
    cbn. repeat split; eexists; reflexivity.
  - destruct result; eexists _, s'; (split; [reflexivity|]);
      (split; [|exact Hm]); cbn; repeat split; eexists; reflexivity.
Qed.

(** X3.  When the repository can be neither found nor created, the
    deployment ends there: the response is a failure that names the
    repository, and nothing beyond the two calls was asked of the remote.
    The creation is attempted whatever the reason for which the look-up
    failed. *)
Theorem repository_unavailable
    description readme_content branch private s e1 w1 e2 w2 :
  get_repo (sanitize isalnum (project_name local)) (world s) = (inl e1, w1) ->
  create_repo (sanitize isalnum (project_name local)) description private w1
  = (inl e2, w2) ->
  deploy_github isalnum local (inr description) readme_content branch private s
  = (inr (mkResponse false None []
            (Some (lit "Failed to get or create repository: "
                   ++ sanitize isalnum (project_name local)))),
     mkState w2
       (log s ++
        [raised (GetRepo (sanitize isalnum (project_name local))) e1;
         raised (CreateRepo (sanitize isalnum (project_name local))
                            description private) e2])).
Proof.
  intros Hget Hcreate.
  unfold deploy_github, deploy_project, _get_or_create_repo.
  unfold try_except, bind, lift, ret, invoke.
  rewrite Hget. cbn [world log answer]. rewrite Hcreate.
  cbn [world log answer]. rewrite <- app_assoc. reflexivity.
Qed.

End Answers.

Lemma repository_unavailable_witness :
  fst (deploy_github Fixtures.ascii_isalnum Fixtures.mixed
         (inr (lit "A p project")) None (lit "main") false
         (Sim.start Cases.unavailable))
  = inr (mkResponse false None []
           (Some (lit "Failed to get or create repository: p"))).
Proof.
  eapply eq_trans.
  - apply (f_equal fst).
    eapply (@repository_unavailable _ _ Fixtures.ascii_isalnum Fixtures.mixed
              (lit "A p project") None (lit "main") false
              (Sim.start Cases.unavailable)).
    + vm_compute. reflexivity.
    + vm_compute. reflexivity.
  - reflexivity.
Defined.

(** ** The calls of one file and of the loop *)

Section FileOutcomes.
Context {W : Type} {api : GitHubAPI W}.
Variable local : project.
Variable repo : Repository.
Variable branch : pystr.

Local Open Scope Z_scope.

(** One iteration of the loop, whatever the file and the remote. *)
Lemma loop_step_outcome st t s :
  exists evs v s',
    loop_step local repo branch st t s = (inr (after_file st v), s') /\
    log s' = log s ++ evs /\
    file_outcome local branch t evs v.
Proof.
  destruct t as [fp rp].
  unfold loop_step, upload_one. unfold try_except, bind at 1, lift at 1.
  destruct (read_bytes local fp) as [e | content] eqn:Hr.
  { exists [], Skipped, s. rewrite app_nil_r.
    split; [reflexivity|]. split; [reflexivity|].
    apply file_unreadable with (e := e). exact Hr. }
  destruct (_is_binary content) eqn:Hb.
  - unfold_engine. rewrite b64_decodes.
    destruct (create_git_blob repo (map Byte.to_N (Base64.b64encode content))
                              (lit "base64") (world s)) as [[e | blob] w1];
      cbn [world log answer].
    + eexists _, Skipped, _. split; [reflexivity|]. split; [reflexivity|].
      apply file_blob_refused; assumption.
    + eexists _, (Staged _), _. split; [reflexivity|]. split; [reflexivity|].
      apply (@file_staged local branch (fp, rp) content blob); assumption.
  - destruct (text_decodes content Hb) as [text Hd].
    assert (Hu : Utf8.decode content = Some text).
    { unfold bytes_decode in Hd. destruct (Utf8.decode content);
        [injection Hd as ->; reflexivity | discriminate]. }
    assert (Hout : forall evs uploaded,
               text_outcome branch rp text evs uploaded ->
               file_outcome local branch (fp, rp) evs
                            (if uploaded then Uploaded else Skipped)).
    { intros evs uploaded H.
      apply (@file_text local branch (fp, rp) content text); assumption. }
    unfold_engine. rewrite Hd.
    destruct (get_contents repo rp branch (world s)) as [[e0 | [c | l]] w1];
      cbn [world log answer contents_sha].
    + destruct (is_not_found e0) eqn:Hnf; cbn [world log answer].
      * destruct (create_file repo rp (lit "Add " ++ rp) text branch w1)
          as [[e1 | []] w2]; cbn [world log answer].
        -- eexists _, Skipped, _. split; [reflexivity|].
           split; [cbn [log]; rewrite <- app_assoc; reflexivity|].
           apply (Hout _ false). apply text_create_refused. exact Hnf.
        -- eexists _, Uploaded, _. split; [reflexivity|].
           split; [cbn [log]; rewrite <- app_assoc; reflexivity|].
           apply (Hout _ true). apply text_created. exact Hnf.
      * eexists _, Skipped, _. split; [reflexivity|]. split; [reflexivity|].
        apply (Hout _ false). apply text_lookup_refused. exact Hnf.
    + destruct (update_file repo rp (lit "Update " ++ rp) text (content_sha c)
                            branch w1) as [[e0 | []] w2];
        cbn [world log answer].
      * destruct (is_not_found e0) eqn:Hnf; cbn [world log answer].
        -- destruct (create_file repo rp (lit "Add " ++ rp) text branch w2)
             as [[e1 | []] w3]; cbn [world log answer].
           ++ eexists _, Skipped, _. split; [reflexivity|].
              split; [cbn [log]; rewrite <- !app_assoc; reflexivity|].
              apply (Hout _ false).
              apply text_create_refused_after_update. exact Hnf.
           ++ eexists _, Uploaded, _. split; [reflexivity|].
              split; [cbn [log]; rewrite <- !app_assoc; reflexivity|].
              apply (Hout _ true). apply text_created_after_update. exact Hnf.
        -- eexists _, Skipped, _. split; [reflexivity|].
           split; [cbn [log]; rewrite <- app_assoc; reflexivity|].
           apply (Hout _ false). apply text_update_refused. exact Hnf.
      * eexists _, Uploaded, _. split; [reflexivity|].
        split; [cbn [log]; rewrite <- app_assoc; reflexivity|].
        apply (Hout _ true). apply text_updated.
    + change (is_not_found AttributeError_sha) with false. cbn iota.
      eexists _, Skipped, _. split; [reflexivity|]. split; [reflexivity|].
      apply (Hout _ false). apply text_is_directory.
Qed.

(** The loop, whatever the snapshot and the remote. *)
Lemma upload_loop_outcome files : forall st s,
  exists evs vs s',
    upload_loop local repo branch files st s
    = (inr (fold_left after_file vs st), s') /\
    log s' = log s ++ evs /\
    loop_outcome local branch files evs vs.
Proof.
  induction files as [|t rest IH]; intros st s.
  - exists [], [], s. rewrite app_nil_r. repeat split. constructor.
  - destruct (loop_step_outcome st t s) as (evs1 & v & s1 & E1 & L1 & O1).
    destruct (IH (after_file st v) s1) as (evs2 & vs & s2 & E2 & L2 & O2).
    exists (evs1 ++ evs2), (v :: vs), s2. cbn [upload_loop fold_left]. step.
    split; [exact E2|]. split; [rewrite L2, L1, app_assoc; reflexivity|].
    constructor; assumption.
Qed.

End FileOutcomes.
Section EmitFacts.
Context {W : Type}.
Variable P : call -> Prop.

Lemma emits_ret A (a : A) : emits P 0 (@ret W A a).
Proof. intros s. exists []. rewrite app_nil_r. repeat split; auto. Qed.

Lemma emits_raise A e : emits P 0 (@raise W A e).
Proof. intros s. exists []. rewrite app_nil_r. repeat split; auto. Qed.

Lemma emits_lift A (r : res A) : emits P 0 (@lift W A r).
Proof. intros s. exists []. rewrite app_nil_r. repeat split; auto. Qed.

Lemma emits_invoke A c tag (op : W -> res A * W) :
  P c -> emits P 1 (invoke c tag op).
Proof.
  intros Hc s. unfold invoke. destruct (op (world s)) as [r w'].
  eexists. split; [reflexivity|]. split; [cbn; lia|].
  constructor; [exact Hc | constructor].
Qed.

Lemma emits_le A (m : M W A) n p :
  emits P n m -> (n <= p)%nat -> emits P p m.
Proof.
  intros Hm Hle s. destruct (Hm s) as (evs & L & N & F).
  exists evs. repeat split; [exact L | lia | exact F].
Qed.

Lemma emits_bind A B (m : M W A) (k : A -> M W B) n p :
  emits P n m -> (forall a, emits P p (k a)) -> emits P (n + p) (bind m k).
Proof.
  intros Hm Hk s. unfold bind. destruct (Hm s) as (evs & L & N & F).
  destruct (m s) as [[e | a] s1]; cbn [snd] in *.
  - exists evs. repeat split; [exact L | lia | exact F].
  - destruct (Hk a s1) as (evs' & L' & N' & F').
    exists (evs ++ evs'). rewrite L', L, app_assoc, length_app.
    repeat split; [lia | apply Forall_app; split; assumption].
Qed.

Lemma emits_try A (m : M W A) h n p :
  emits P n m -> (forall e, emits P p (h e)) ->
  emits P (n + p) (try_except m h).
Proof.
  intros Hm Hh s. unfold try_except. destruct (Hm s) as (evs & L & N & F).
  destruct (m s) as [[e | a] s1]; cbn [snd] in *.
  - destruct (Hh e s1) as (evs' & L' & N' & F').
    exists (evs ++ evs'). rewrite L', L, app_assoc, length_app.
    repeat split; [lia | apply Forall_app; split; assumption].
  - exists evs. repeat split; [exact L | lia | exact F].
Qed.

End EmitFacts.

Section RunShape.
Context {W : Type} {api : GitHubAPI W}.
Variable local : project.
Variable repo : Repository.
Variable branch : pystr.

Lemma emits_resolve_head (P : call -> Prop) :
  (forall sha, P (GetGitCommit sha)) -> (forall sha, P (GetGitTree sha)) ->
  P (GetGitRef (lit "heads/" ++ branch)) ->
  emits P 3 (resolve_head repo branch).
Proof.
  intros Hc Ht Hr. unfold resolve_head.
  apply (@emits_bind _ _ _ _ _ _ 1 2); [apply emits_invoke, Hr|]. intros ref.
  apply (@emits_bind _ _ _ _ _ _ 1 1); [apply emits_invoke, Hc|]. intros c.
  apply (@emits_bind _ _ _ _ _ _ 1 0); [apply emits_invoke, Ht|]. intros t.
  apply emits_ret.
Qed.

Lemma emits_initial_commit readme_content files :
  emits (bootstrap_call repo branch files) 1
        (initial_commit local repo readme_content branch files).
Proof.
  unfold initial_commit, do_create_file.
  destruct (truthy readme_content).
  { apply (@emits_bind _ _ _ _ _ _ 1 0); [|intros; apply emits_ret].
    apply emits_invoke. cbn. auto. }
  destruct (find is_readme files) as [[fp rp]|] eqn:Hf.
  - apply find_some in Hf. destruct Hf as [Hin _].
    apply (@emits_bind _ _ _ _ _ _ 0 1); [apply emits_lift|]. intros content.
    apply (@emits_bind _ _ _ _ _ _ 0 1); [apply emits_lift|]. intros text.
    apply (@emits_bind _ _ _ _ _ _ 1 0); [|intros; apply emits_ret].
    apply emits_invoke. cbn. repeat split. right.
    apply in_map_iff. exists (fp, rp). auto.
  - apply (@emits_bind _ _ _ _ _ _ 1 0); [|intros; apply emits_ret].
    apply emits_invoke. cbn. auto.
Qed.

Lemma emits_create_branch files :
  emits (bootstrap_call repo branch files) 5 (create_branch repo branch).
Proof.
  unfold create_branch.
  apply (@emits_bind _ _ _ _ _ _ 2 3).
  { apply (@emits_try _ _ _ _ _ 1 1); [|intros e]; apply emits_invoke;
      cbn; auto. }
  intros master.
  apply (@emits_bind _ _ _ _ _ _ 1 2); [apply emits_invoke; cbn; auto|].
  intros ref.
  apply (@emits_bind _ _ _ _ _ _ 1 1); [apply emits_invoke; cbn; auto|].
  intros c.
  apply (@emits_bind _ _ _ _ _ _ 1 0); [apply emits_invoke; cbn; auto|].
  intros t. apply emits_ret.
Qed.

Lemma emits_ensure_branch readme_content files :
  emits (bootstrap_call repo branch files) 8
        (ensure_branch local repo readme_content branch files).
Proof.
  assert (Hhead : emits (bootstrap_call repo branch files) 3
                        (resolve_head repo branch))
    by (apply emits_resolve_head; cbn; auto).
  unfold ensure_branch.
  apply (@emits_try _ _ _ _ _ 3 5).
  - apply (@emits_bind _ _ _ _ _ _ 3 0); [exact Hhead|].
    intros head. apply emits_ret.
  - intros e. destruct (is_empty_repo e).
    + apply emits_le with (n := (1 + (3 + 0))%nat); [|lia].
      apply emits_bind; [apply emits_initial_commit|]. intros files'.
      apply emits_bind; [exact Hhead|]. intros head. apply emits_ret.
    + apply (@emits_bind _ _ _ _ _ _ 5 0); [apply emits_create_branch|].
      intros head. apply emits_ret.
Qed.

Lemma emits_commit_binary elements :
  emits (commit_call branch elements) 6 (commit_binary repo branch elements).
Proof.
  unfold commit_binary. destruct elements as [|el els].
  { apply emits_le with (n := 0%nat); [apply emits_ret | lia]. }
  apply (@emits_try _ _ _ _ _ 6 0); [|intros e; apply emits_ret].
  unfold commit_elements.
  apply (@emits_bind _ _ _ _ _ _ 3 3).
  { apply emits_resolve_head; cbn; auto. }
  intros [[ref latest] base].
  apply (@emits_bind _ _ _ _ _ _ 1 2); [apply emits_invoke; cbn; auto|].
  intros tree.
  apply (@emits_bind _ _ _ _ _ _ 1 1); [apply emits_invoke; cbn; auto|].
  intros c. apply emits_invoke. cbn. auto.
Qed.

Local Open Scope Z_scope.

Lemma fold_after_file vs : forall st,
  fold_left after_file vs st
  = mkLoop
      (n_uploaded st
       + Z.of_nat (List.length (filter (fun v => negb (is_skipped v)) vs)))
      (n_skipped st + Z.of_nat (List.length (filter is_skipped vs)))
      (tree_elements st ++ flat_map staged_of vs).
Proof.
  induction vs as [|v vs IH]; intros st.
  - cbn. rewrite !Z.add_0_r, app_nil_r. destruct st; reflexivity.
  - cbn [fold_left]. rewrite IH.
    destruct v; cbn [after_file is_skipped negb filter flat_map staged_of
                     n_uploaded n_skipped tree_elements List.length];
      rewrite ?Nat2Z.inj_succ, <- ?app_assoc; f_equal; cbn [app]; lia.
Qed.

(** The shape of every run of [_upload_files]: the calls of the bootstrap,
    then the calls of the loop over the files that the bootstrap left, then
    the calls of the batched commit of the elements staged. *)
Lemma upload_files_shape readme_content s files :
  gather local = inr files ->
  exists files' bevs levs vs cevs,
    log (snd (_upload_files local repo readme_content branch s))
    = log s ++ bevs ++ levs ++ cevs /\
    (List.length bevs <= 8)%nat /\
    Forall (fun ev => bootstrap_call repo branch files (ev_call ev)) bevs /\
    incl files' files /\
    (List.length files' <= List.length files)%nat /\
    loop_outcome local branch files' levs vs /\
    (List.length cevs <= 6)%nat /\
    Forall (fun ev => commit_call branch (flat_map staged_of vs) (ev_call ev))
           cevs /\
    (forall result,
        fst (_upload_files local repo readme_content branch s) = inr result ->
        result
        = mkResult
            (Z.of_nat (List.length (filter (fun v => negb (is_skipped v)) vs)))
            (Z.of_nat (List.length (filter is_skipped vs)))) /\
    log (snd (ensure_branch local repo readme_content branch files s))
    = log s ++ bevs.
Proof.
  intros Hg.
  assert (Hrun : _upload_files local repo readme_content branch s
                 = match ensure_branch local repo readme_content branch
                                       files s with
                   | (inl e, s1) => (inl e, s1)
                   | (inr (files', _), s1) =>
                     upload_phase local repo branch files' s1
                   end).
  { unfold _upload_files. unfold bind at 1, lift at 1.
    rewrite Hg. unfold bind at 1.
    destruct (ensure_branch local repo readme_content branch files s)
      as [[e | [files' head]] s1]; reflexivity. }
  rewrite Hrun. clear Hrun.
  destruct (emits_ensure_branch readme_content files s) as (bevs & L & N & F).
  destruct (ensure_branch local repo readme_content branch files s)
    as [[e | [files' head]] s1] eqn:Hens; cbn [snd fst] in *.
  { exists [], bevs, [], [], []. rewrite !app_nil_r.
    split; [exact L|]. split; [exact N|]. split; [exact F|].
    split; [intros t []|]. split; [cbn; lia|]. split; [constructor|].
    split; [cbn; lia|]. split; [constructor|].
    split; [intros result H; discriminate H | exact L]. }
  apply ensure_branch_files in Hens.
  destruct (upload_loop_outcome local repo branch files' loop_init s1)
    as (levs & vs & s2 & E2 & L2 & O2).
  rewrite fold_after_file in E2.
  cbn [loop_init n_uploaded n_skipped tree_elements app Z.add] in E2.
  destruct (emits_commit_binary (flat_map staged_of vs) s2)
    as (cevs & L3 & N3 & F3).
  destruct (commit_binary_total repo branch (flat_map staged_of vs) s2)
    as [s3 E3].
  rewrite E3 in L3. cbn [snd] in L3.
  erewrite upload_phase_eq; [|exact E2|exact E3]. cbn [fst snd].
  exists files', bevs, levs, vs, cevs.
  split; [rewrite L3, L2, L, <- !app_assoc; reflexivity|].
  split; [exact N|]. split; [exact F|].
  split.
  { subst files'. unfold after_bootstrap.
    destruct (readme_consumed _ _ _); [|apply incl_refl].
    destruct (find is_readme files); [|apply incl_refl].
    intros t Ht. apply filter_In in Ht. apply Ht. }
  split; [subst files'; apply after_bootstrap_le|].
  split; [exact O2|]. split; [exact N3|]. split; [exact F3|].
  split; [|exact L].
  intros result H. injection H as <-. reflexivity.
Qed.

End RunShape.

(** ** What the runs have in common *)

Lemma guarded_from_nil pre : guarded_from pre [].
Proof.
  unfold guarded_from. intros before ev after H.
  destruct before; discriminate H.
Qed.

Lemma guarded_from_cons pre x l :
  guarded_by pre x -> guarded_from (pre ++ [x]) l -> guarded_from pre (x :: l).
Proof.
  intros Hx Hl [|y before] ev after H.
  - injection H as -> _. rewrite app_nil_r. exact Hx.
  - injection H as -> ->. specialize (Hl before ev after eq_refl).
    rewrite <- app_assoc in Hl. exact Hl.
Qed.

Lemma guarded_from_app pre l1 l2 :
  guarded_from pre l1 -> guarded_from (pre ++ l1) l2 ->
  guarded_from pre (l1 ++ l2).
Proof.
  revert pre. induction l1 as [|x l1 IH]; intros pre H1 H2.
  - rewrite app_nil_r in H2. exact H2.
  - cbn [app]. apply guarded_from_cons.
    + specialize (H1 [] x l1 eq_refl). rewrite app_nil_r in H1. exact H1.
    + apply IH.
      * intros before ev after ->.
        specialize (H1 (x :: before) ev after eq_refl).
        rewrite <- app_assoc. exact H1.
      * rewrite <- app_assoc. exact H2.
Qed.

(** Calls that are no writes of files, and initial commits, need no
    guard. *)
Lemma guarded_from_free pre evs :
  Forall (fun ev => match ev_call ev with
                    | UpdateFile _ _ _ _ _ => False
                    | CreateFile path message _ _ =>
                      message = lit "Initial commit: " ++ path
                    | _ => True
                    end) evs ->
  guarded_from pre evs.
Proof.
  intros HF before ev after ->.
  apply Forall_app in HF. destruct HF as [_ HF].
  inversion HF as [|? ? Hev _]; subst. unfold guarded_by.
  destruct (ev_call ev); auto. contradiction.
Qed.

Lemma split_after A (l1 l2 before after : list A) (x : A) :
  l1 ++ l2 = before ++ x :: after ->
  ~ In x l1 ->
  exists mid, before = l1 ++ mid /\ l2 = mid ++ x :: after.
Proof.
  revert before. induction l1 as [|y l1 IH]; intros before H Hn.
  - exists before. split; [reflexivity | exact H].
  - destruct before as [|z before]; cbn [app] in H.
    + injection H as -> _. exfalso. apply Hn. left. reflexivity.
    + injection H as -> H. destruct (IH before H) as (mid & -> & ->).
      * intros Hin. apply Hn. right. exact Hin.
      * exists mid. split; reflexivity.
Qed.

Section Runs.
Variable local : project.
Variable branch : pystr.

Lemma text_outcome_length rp text evs uploaded :
  text_outcome branch rp text evs uploaded -> (List.length evs <= 3)%nat.
Proof. destruct 1; cbn; lia. Qed.

Lemma file_outcome_length t evs v :
  file_outcome local branch t evs v -> (List.length evs <= 3)%nat.
Proof.
  destruct 1 as [| | | ? ? ? ? ? ? ? Ht]; cbn; try lia.
  apply (text_outcome_length Ht).
Qed.

Lemma loop_outcome_length files evs vs :
  loop_outcome local branch files evs vs ->
  (List.length evs <= 3 * List.length files)%nat /\
  List.length vs = List.length files.
Proof.
  induction 1 as [|t files evs v evss vs Hf _ [IH1 IH2]]; [split; reflexivity|].
  apply file_outcome_length in Hf. rewrite length_app. cbn [List.length].
  split; lia.
Qed.

Lemma file_outcome_confined repo files t evs v :
  In t files ->
  file_outcome local branch t evs v ->
  Forall (fun ev => confined repo branch files (ev_call ev)) evs /\
  Forall (fun el => In (el_path el) (map snd files)) (staged_of v).
Proof.
  intros Hin Hf.
  assert (Hp : In (snd t) (map snd files)) by (apply in_map; exact Hin).
  destruct Hf as [| | | ? ? ? ? ? ? ? Ht].
  - split; constructor.
  - split; repeat constructor. exact Hp.
  - split; repeat constructor.
  - split; [|destruct uploaded; constructor].
    destruct Ht; repeat (apply Forall_cons; [cbn; auto|]); apply Forall_nil.
Qed.

Lemma loop_outcome_confined repo files files' evs vs :
  incl files' files ->
  loop_outcome local branch files' evs vs ->
  Forall (fun ev => confined repo branch files (ev_call ev)) evs /\
  Forall (fun el => In (el_path el) (map snd files)) (flat_map staged_of vs).
Proof.
  intros Hincl Hl. induction Hl as [|t rest evs v evss vs Hf _ IH].
  - split; constructor.
  - destruct IH as [IH1 IH2].
    { intros x Hx. apply Hincl. right. exact Hx. }
    destruct (@file_outcome_confined repo files t evs v) as [H1 H2];
      [apply Hincl; left; reflexivity | exact Hf |].
    cbn [flat_map]. split; apply Forall_app; split; assumption.
Qed.

Lemma text_outcome_guarded pre rp text evs uploaded :
  text_outcome branch rp text evs uploaded -> guarded_from pre evs.
Proof.
  destruct 1;
    repeat (apply guarded_from_cons; [|try apply guarded_from_nil]);
    unfold guarded_by; cbn [ev_call]; auto.
  - eexists pre, _. split; reflexivity.
  - right. eexists pre, _, _. split; [reflexivity|]. cbn. auto.
  - eexists pre, _. split; reflexivity.
  - right. eexists _, _, _. split; [reflexivity|]. cbn.
    split; [reflexivity|]. split; [assumption|]. right. eauto.
  - eexists pre, _. split; reflexivity.
  - right. eexists pre, _, _. split; [reflexivity|]. cbn. auto.
  - eexists pre, _. split; reflexivity.
  - right. eexists _, _, _. split; [reflexivity|]. cbn.
    split; [reflexivity|]. split; [assumption|]. right. eauto.
Qed.

Lemma loop_outcome_guarded files evs vs : forall pre,
  loop_outcome local branch files evs vs -> guarded_from pre evs.
Proof.
  intros pre Hl. revert pre.
  induction Hl as [|t rest evs v evss vs Hf _ IH]; intros pre.
  - apply guarded_from_nil.
  - apply guarded_from_app; [|apply IH].
    destruct Hf as [| | | ? ? ? ? ? ? ? Ht].
    + apply guarded_from_nil.
    + apply guarded_from_free. repeat constructor.
    + apply guarded_from_free. repeat constructor.
    + apply (text_outcome_guarded pre Ht).
Qed.

Local Open Scope Z_scope.

Lemma went_through_app evs1 evs2 :
  filter went_through (evs1 ++ evs2)
  = filter went_through evs1 ++ filter went_through evs2.
Proof. apply filter_app. Qed.

Lemma file_outcome_counted t evs v :
  file_outcome local branch t evs v ->
  List.length (filter went_through evs)
  = List.length (filter (fun v => negb (is_skipped v)) [v]).
Proof.
  destruct 1 as [| | | ? ? ? ? ? ? ? Ht]; try reflexivity.
  destruct Ht; reflexivity.
Qed.

Lemma loop_outcome_counted files evs vs :
  loop_outcome local branch files evs vs ->
  List.length (filter went_through evs)
  = List.length (filter (fun v => negb (is_skipped v)) vs).
Proof.
  induction 1 as [|t rest evs v evss vs Hf _ IH]; [reflexivity|].
  rewrite went_through_app, length_app, IH, (file_outcome_counted Hf).
  change (v :: vs) with ([v] ++ vs). rewrite filter_app, length_app.
  reflexivity.
Qed.

Lemma loop_outcome_staged files evs vs :
  loop_outcome local branch files evs vs ->
  Forall (staged_from local files evs) (flat_map staged_of vs) /\
  List.length (flat_map staged_of vs) = List.length (filter is_blob evs).
Proof.
  induction 1 as [|t rest evs v evss vs Hf _ [IH1 IH2]].
  - split; [constructor | reflexivity].
  - cbn [flat_map]. rewrite filter_app, !length_app, IH2. split.
    + apply Forall_app. split.
      * destruct Hf as [| content blob Hr Hb | | ? ? ? [] ? ? ? Ht];
          try constructor; [|constructor].
        exists t, content, blob. split; [left; reflexivity|].
        split; [exact Hr|]. split; [exact Hb|].
        split; [left; reflexivity | reflexivity].
      * eapply Forall_impl; [|exact IH1].
        intros el (t' & content & blob & Hin & Hr & Hb & Hev & ->).
        exists t', content, blob. split; [right; exact Hin|].
        split; [exact Hr|]. split; [exact Hb|].
        split; [apply in_or_app; right; exact Hev | reflexivity].
    + f_equal. destruct Hf as [| | | ? ? ? ? ? ? ? Ht]; try reflexivity.
      destruct Ht; reflexivity.
Qed.

End Runs.

(** ** Every run of the upload *)

Section UploadRuns.
Context {W : Type} {api : GitHubAPI W}.
Variable local : project.
Variable repo : Repository.
Variable branch : pystr.

Lemma bootstrap_call_confined files c :
  bootstrap_call repo branch files c -> confined repo branch files c.
Proof. destruct c; cbn; tauto. Qed.

Lemma commit_call_confined files elements c :
  Forall (fun el => In (el_path el) (map snd files)) elements ->
  commit_call branch elements c -> confined repo branch files c.
Proof. intros He. destruct c; cbn; try tauto. intros ->. exact He. Qed.

(** X4.  An upload stays on its branch and within its snapshot.  It looks
    up and updates files only on the branch and only at paths of the
    snapshot, creates files only there or at [README.md], creates no
    reference but the branch, puts only paths of the snapshot in a tree,
    and makes no call on repositories. *)
Theorem upload_is_confined readme_content files s :
  gather local = inr files ->
  exists evs,
    log (snd (_upload_files local repo readme_content branch s))
    = log s ++ evs /\
    Forall (fun ev => confined repo branch files (ev_call ev)) evs.
Proof.
  intros Hg.
  destruct (upload_files_shape local repo branch readme_content s Hg)
    as (files' & bevs & levs & vs & cevs & L & _ & FB & Hincl & _ & HL & _
        & FC & _).
  destruct (loop_outcome_confined repo Hincl HL) as [FL FE].
  exists (bevs ++ levs ++ cevs). split; [exact L|].
  apply Forall_app. split.
  { eapply Forall_impl; [|exact FB]. intros ev. apply bootstrap_call_confined. }
  apply Forall_app. split; [exact FL|].
  eapply Forall_impl; [|exact FC]. intros ev.
  apply commit_call_confined. exact FE.
Qed.

Lemma upload_files_unstarted readme_content s e :
  gather local = inl e ->
  _upload_files local repo readme_content branch s = (inl e, s).
Proof.
  intros Hg. unfold _upload_files. unfold bind at 1, lift at 1.
  rewrite Hg. reflexivity.
Qed.

(** X5.  No file is overwritten blindly.  In every run, an update of a
    file carries the hash that the look-up of that file on the same branch,
    the call right before it, has just returned; and a file is created
    only as the initial commit, or in answer to the call right before it,
    a look-up or an update of that file that raised the not-found
    signal. *)
Theorem writes_are_guarded readme_content s :
  exists evs,
    log (snd (_upload_files local repo readme_content branch s))
    = log s ++ evs /\
    guarded_from [] evs.
Proof.
  destruct (gather local) as [e | files] eqn:Hg.
  { exists []. rewrite (upload_files_unstarted readme_content s Hg).
    rewrite app_nil_r. split; [reflexivity | apply guarded_from_nil]. }
  destruct (upload_files_shape local repo branch readme_content s Hg)
    as (files' & bevs & levs & vs & cevs & L & _ & FB & _ & _ & HL & _
        & FC & _).
  exists (bevs ++ levs ++ cevs). split; [exact L|].
  apply guarded_from_app; [|apply guarded_from_app].
  - apply guarded_from_free. eapply Forall_impl; [|exact FB].
    intros ev. cbv beta. destruct (ev_call ev); cbn; tauto.
  - apply (loop_outcome_guarded _ HL).
  - apply guarded_from_free. eapply Forall_impl; [|exact FC].
    intros ev. cbv beta. destruct (ev_call ev); cbn; tauto.
Qed.

Lemma no_blob_outside_loop (P : call -> Prop) evs :
  (forall content encoding, ~ P (CreateGitBlob content encoding)) ->
  Forall (fun ev => P (ev_call ev)) evs ->
  filter is_blob evs = [].
Proof.
  intros HP. induction 1 as [|ev evs Hev _ IH]; [reflexivity|].
  cbn [filter]. rewrite IH. unfold is_blob.
  destruct (ev_call ev) eqn:E; try reflexivity.
  exfalso. apply (HP _ _ Hev).
Qed.

(** X6.  The tree of the batched commit lists the blobs of the run, and
    nothing else.  Whenever a run creates a tree, each element of the tree
    pairs the path of a binary file of the snapshot with the hash of the
    blob that the run has created from the content of that very file, as a
    regular file; and the tree has as many elements as blobs were created
    before it. *)
Theorem tree_lists_the_blobs
    readme_content files s before elements base r after :
  gather local = inr files ->
  log (snd (_upload_files local repo readme_content branch s))
  = log s ++ before ++ mkEvent (CreateGitTree elements base) r :: after ->
  Forall (staged_from local files before) elements /\
  List.length elements = List.length (filter is_blob before).
Proof.
  intros Hg Hlog.
  destruct (upload_files_shape local repo branch readme_content s Hg)
    as (files' & bevs & levs & vs & cevs & L & _ & FB & Hincl & _ & HL & _
        & FC & _).
  rewrite L in Hlog. apply app_inv_head in Hlog.
  destruct (loop_outcome_confined repo Hincl HL) as [FL _].
  destruct (loop_outcome_staged HL) as [HS HN].
  apply split_after in Hlog.
  2: { intros Hin. rewrite Forall_forall in FB. apply FB in Hin.
       exact Hin. }
  destruct Hlog as (mid & -> & Hlog).
  apply split_after in Hlog.
  2: { intros Hin. clear - HL Hin. induction HL as [|t rest evs v evss vs Hf _ IH];
         [destruct Hin|].
       apply in_app_or in Hin. destruct Hin as [Hin | Hin]; [|auto].
       destruct Hf as [| | | ? ? ? ? ? ? ? Ht]; cbn in Hin.
       - destruct Hin.
       - destruct Hin as [Hin | []]; discriminate Hin.
       - destruct Hin as [Hin | []]; discriminate Hin.
       - destruct Ht; cbn in Hin;
           repeat (destruct Hin as [Hin | Hin]; [discriminate Hin|]);
           destruct Hin. }
  destruct Hlog as (mid' & -> & ->).
  apply Forall_app in FC. destruct FC as [FC1 FC2].
  inversion FC2 as [|? ? Hels _]; subst. cbn in Hels. subst elements.
  split.
  - eapply Forall_impl; [|exact HS].
    intros el (t & content & blob & Hin & Hr & Hb & Hev & ->).
    exists t, content, blob. split; [apply Hincl; exact Hin|].
    split; [exact Hr|]. split; [exact Hb|]. split; [|reflexivity].
    apply in_or_app. right. apply in_or_app. left. exact Hev.
  - rewrite !filter_app, !length_app, HN.
    rewrite (@no_blob_outside_loop (bootstrap_call repo branch files) bevs);
      [|intros ? ? []|exact FB].
    rewrite (@no_blob_outside_loop
               (commit_call branch (flat_map staged_of vs)) mid');
      [|intros ? ? []|exact FC1].
    cbn [List.length]. lia.
Qed.

Local Open Scope Z_scope.

(** X7.  The two counters, for any snapshot and any remote.  The upload
    of a list of files always returns; the number of files uploaded is the
    number of calls of the run that put content on the remote, the files
    created or updated and the blobs created, and every other file is
    counted as skipped. *)
Theorem uploaded_counts_what_went_through files s :
  exists result s' evs,
    upload_phase local repo branch files s = (inr result, s') /\
    log s' = log s ++ evs /\
    files_uploaded result = Z.of_nat (List.length (filter went_through evs)) /\
    files_skipped result
    = Z.of_nat (List.length files) - files_uploaded result.
Proof.
  destruct (upload_loop_outcome local repo branch files loop_init s)
    as (levs & vs & s1 & E1 & L1 & O1).
  rewrite fold_after_file in E1.
  cbn [loop_init n_uploaded n_skipped tree_elements app Z.add] in E1.
  destruct (emits_commit_binary repo branch (flat_map staged_of vs) s1)
    as (cevs & L2 & _ & F2).
  destruct (commit_binary_total repo branch (flat_map staged_of vs) s1)
    as [s2 E2].
  rewrite E2 in L2. cbn [snd] in L2.
  eexists _, s2, (levs ++ cevs).
  split; [eapply upload_phase_eq; [exact E1 | exact E2]|].
  split; [rewrite L2, L1, app_assoc; reflexivity|].
  cbn [files_uploaded files_skipped n_uploaded n_skipped].
  assert (Hc : filter went_through cevs = []).
  { clear - F2. induction F2 as [|ev evs Hev _ IH]; [reflexivity|].
    cbn [filter]. rewrite IH. unfold went_through, is_write, is_blob.
    destruct (ev_call ev); try reflexivity; destruct Hev. }
  rewrite went_through_app, Hc, app_nil_r, (loop_outcome_counted O1).
  split; [reflexivity|].
  destruct (loop_outcome_length O1) as [_ <-].
  clear. induction vs as [|v vs IH]; [reflexivity|].
  cbn [filter List.length]. destruct (is_skipped v); cbn [negb List.length]; lia.
Qed.

End UploadRuns.

Lemma upload_is_confined_witness :
  Forall (fun ev => confined Fixtures.the_repo (lit "main")
                             [Fixtures.readme_md; Fixtures.a_txt;
                              Fixtures.b_bin] (ev_call ev))
         (log (snd (_upload_files Fixtures.full Fixtures.the_repo None
                      (lit "main") (Sim.start Sim.empty_repo)))).
Proof.
  destruct (@upload_is_confined _ _ Fixtures.full Fixtures.the_repo
              (lit "main") None
              [Fixtures.readme_md; Fixtures.a_txt; Fixtures.b_bin]
              (Sim.start Sim.empty_repo))
    as (evs & L & F).
  - reflexivity.
  - rewrite L. exact F.
Defined.

Lemma tree_lists_the_blobs_witness :
  Forall (staged_from Fixtures.only_binary [Fixtures.b_bin]
            (firstn 7 (log (snd (_upload_files Fixtures.only_binary
                                   Fixtures.the_repo None (lit "main")
                                   (Sim.start Fixtures.seeded))))))
         [mkElement (lit "b.bin") (lit "100644") (lit "blob") (lit "sha1")] /\
  List.length
    [mkElement (lit "b.bin") (lit "100644") (lit "blob") (lit "sha1")]
  = List.length
      (filter is_blob
         (firstn 7 (log (snd (_upload_files Fixtures.only_binary
                                Fixtures.the_repo None (lit "main")
                                (Sim.start Fixtures.seeded)))))).
Proof.
  apply (@tree_lists_the_blobs _ _ Fixtures.only_binary Fixtures.the_repo
           (lit "main") None [Fixtures.b_bin] (Sim.start Fixtures.seeded)
           (firstn 7 (log (snd (_upload_files Fixtures.only_binary
                                  Fixtures.the_repo None (lit "main")
                                  (Sim.start Fixtures.seeded)))))
           [mkElement (lit "b.bin") (lit "100644") (lit "blob") (lit "sha1")]
           (mkGitTree (lit "sha0t"))
           (inr (RGitTree (mkGitTree (lit "sha2t"))))
           (skipn 8 (log (snd (_upload_files Fixtures.only_binary
                                 Fixtures.the_repo None (lit "main")
                                 (Sim.start Fixtures.seeded)))))).
  - reflexivity.
  - vm_compute. reflexivity.
Defined.

(** ** The whole deployment *)

Section Deployment.
Context {W : Type} {api : GitHubAPI W}.
Variable isalnum : N -> bool.
Variable local : project.

Lemma emits_upload_files repo readme_content branch :
  emits (fun _ => True) (3 * snapshot_size local + 14)
        (_upload_files local repo readme_content branch).
Proof.
  intros s. unfold snapshot_size.
  destruct (gather local) as [e | files] eqn:Hg.
  { exists []. rewrite (upload_files_unstarted local repo branch
                          readme_content s Hg).
    rewrite app_nil_r. repeat split; [cbn; lia | constructor]. }
  destruct (upload_files_shape local repo branch readme_content s Hg)
    as (files' & bevs & levs & vs & cevs & L & NB & _ & _ & NF & HL & NC & _).
  destruct (loop_outcome_length HL) as [NL _].
  exists (bevs ++ levs ++ cevs). split; [exact L|].
  split; [rewrite !length_app; lia|].
  apply Forall_forall. intros; exact I.
Qed.

(** X8.  A deployment makes at most sixteen calls and three per file of
    the snapshot: two for the repository, eight for the bootstrap of the
    branch, three for each file and six for the batched commit. *)
Theorem call_budget analysis readme_content branch private s :
  exists evs,
    log (snd (deploy_github isalnum local analysis readme_content branch
                            private s))
    = log s ++ evs /\
    (List.length evs <= 3 * snapshot_size local + 16)%nat.
Proof.
  assert (H : emits (fun _ => True) (3 * snapshot_size local + 16)
                (deploy_github isalnum local analysis readme_content branch
                               private)).
  { unfold deploy_github, deploy_project, _get_or_create_repo.
    apply emits_le with (n := (0 + (2 + (3 * snapshot_size local + 14 + 0))
                               + 0 + 0)%nat); [|lia].
    apply emits_try; [|intros e; apply emits_ret].
    apply emits_bind.
    - apply emits_bind; [apply emits_lift|]. intros description.
      apply emits_bind.
      + apply (@emits_try _ _ _ _ _ 1 1).
        * apply (@emits_bind _ _ _ _ _ _ 1 0);
            [apply emits_invoke; exact I | intros; apply emits_ret].
        * intros e. apply (@emits_try _ _ _ _ _ 1 0);
            [|intros; apply emits_ret].
          apply (@emits_bind _ _ _ _ _ _ 1 0);
            [apply emits_invoke; exact I | intros; apply emits_ret].
      + intros [repo|].
        * apply emits_bind; [apply emits_upload_files|].
          intros result. apply emits_ret.
        * apply emits_le with (n := 0%nat); [apply emits_ret | lia].
    - intros [error | url name br priv uploaded skipped]; apply emits_ret. }
  destruct (H s) as (evs & L & N & _). exists evs. split; assumption.
Qed.

(** X9.  A README that cannot be used stops the deployment to an empty
    repository.  When the caller gives no README text and the README of
    the snapshot cannot be read or is not UTF-8, the deployment ends with a
    failure response right after the look-up that found the repository
    empty: no file is uploaded and nothing is committed. *)
Theorem unusable_readme_stops_deployment
    description readme_content branch private s repo s1 files e0 s2 fp rp e :
  _get_or_create_repo (sanitize isalnum (project_name local)) description
                      private s = (inr (Some repo), s1) ->
  gather local = inr files ->
  resolve_head repo branch s1 = (inl e0, s2) ->
  is_empty_repo e0 = true ->
  truthy readme_content = false ->
  find is_readme files = Some (fp, rp) ->
  text_of local fp = inl e ->
  exists error,
    deploy_github isalnum local (inr description) readme_content branch
                  private s
    = (inr (mkResponse false None []
              (Some (lit "GitHub deployment failed: " ++ error))), s2).
Proof.
  intros Hrepo Hg Hhead Hempty Htruthy Hfind Htext.
  exists (exn_str e).
  unfold deploy_github, deploy_project. unfold try_except.
  unfold bind at 1. unfold bind at 1, lift at 1. unfold bind at 1.
  rewrite Hrepo. unfold bind at 1, _upload_files.
  unfold bind at 1, lift at 1. rewrite Hg. unfold bind at 1.
  unfold ensure_branch. unfold try_except. unfold bind at 1.
  rewrite Hhead, Hempty. unfold bind at 1, initial_commit.
  rewrite Htruthy, Hfind. unfold text_of in Htext.
  unfold bind at 1, lift at 1.
  destruct (read_bytes local fp) as [e' | content].
  { injection Htext as ->. reflexivity. }
  unfold bind at 1, lift at 1. rewrite Htext. reflexivity.
Qed.

End Deployment.

Lemma unusable_readme_stops_deployment_witness :
  exists error,
    deploy_github Fixtures.ascii_isalnum Cases.latin1_readme
                  (inr (lit "A p project")) None (lit "main") false
                  (Sim.start Sim.empty_repo)
    = (inr (mkResponse false None []
              (Some (lit "GitHub deployment failed: " ++ error))),
       mkState Sim.empty_repo
         [returned (GetRepo (lit "p"))
                   (RRepository (Sim.repo_of Sim.empty_repo (lit "p")));
          raised (GetGitRef (lit "heads/main"))
                 (Sim.err 409 "409 Git Repository is empty.")]).
Proof.
  apply (@unusable_readme_stops_deployment _ _ Fixtures.ascii_isalnum
           Cases.latin1_readme (lit "A p project") None (lit "main") false
           (Sim.start Sim.empty_repo)
           (Sim.repo_of Sim.empty_repo (lit "p"))
           (mkState Sim.empty_repo
              [returned (GetRepo (lit "p"))
                 (RRepository (Sim.repo_of Sim.empty_repo (lit "p")))])
           [(lit "/p/a.txt", lit "a.txt"); (lit "/p/Readme.MD", lit "Readme.MD")]
           (Sim.err 409 "409 Git Repository is empty.")
           (mkState Sim.empty_repo
              [returned (GetRepo (lit "p"))
                 (RRepository (Sim.repo_of Sim.empty_repo (lit "p")));
               raised (GetGitRef (lit "heads/main"))
                      (Sim.err 409 "409 Git Repository is empty.")])
           (lit "/p/Readme.MD") (lit "Readme.MD") UnicodeDecodeError).
  - vm_compute. reflexivity.
  - vm_compute. reflexivity.
  - vm_compute. reflexivity.
  - vm_compute. reflexivity.
  - reflexivity.
  - vm_compute. reflexivity.
  - vm_compute. reflexivity.
Defined.

(** ** Where the content comes from *)

Lemma emits_bind_lift W A B (P : call -> Prop) (r : res A)
    (k : A -> M W B) n :
  (forall a, r = inr a -> emits P n (k a)) -> emits P n (bind (lift r) k).
Proof.
  intros Hk s. unfold bind, lift. destruct r as [e | a].
  - exists []. rewrite app_nil_r. split; [reflexivity|].
    split; [cbn; lia | constructor].
  - apply (Hk a eq_refl).
Qed.

Section Content.
Context {W : Type} {api : GitHubAPI W}.
Variable local : project.
Variable repo : Repository.
Variable branch : pystr.

Lemma initial_commit_from_project readme_content files :
  emits (from_project local files readme_content) 1
        (initial_commit local repo readme_content branch files).
Proof.
  unfold initial_commit, do_create_file.
  destruct (truthy readme_content) eqn:Ht.
  { apply (@emits_bind _ _ _ _ _ _ 1 0); [|intros; apply emits_ret].
    apply emits_invoke. cbn. right.
    split; [reflexivity|]. split; [reflexivity|]. left.
    destruct readme_content as [text|]; [reflexivity | discriminate Ht]. }
  destruct (find is_readme files) as [[fp rp]|] eqn:Hf.
  - apply find_some in Hf. destruct Hf as [Hin _].
    apply emits_bind_lift. intros content Hr.
    apply emits_bind_lift. intros text Hd.
    apply (@emits_bind _ _ _ _ _ _ 1 0); [|intros; apply emits_ret].
    apply emits_invoke. cbn. left. exists (fp, rp), content.
    split; [exact Hin|]. split; [reflexivity|]. split; [exact Hr|].
    apply decode_of_inr, Hd.
  - apply (@emits_bind _ _ _ _ _ _ 1 0); [|intros; apply emits_ret].
    apply emits_invoke. cbn. right. auto.
Qed.

Lemma ensure_branch_from_project readme_content files :
  emits (from_project local files readme_content) 8
        (ensure_branch local repo readme_content branch files).
Proof.
  assert (Hhead : emits (from_project local files readme_content) 3
                        (resolve_head repo branch))
    by (apply emits_resolve_head; cbn; auto).
  unfold ensure_branch.
  apply (@emits_try _ _ _ _ _ 3 5).
  - apply (@emits_bind _ _ _ _ _ _ 3 0); [exact Hhead|].
    intros head. apply emits_ret.
  - intros e. destruct (is_empty_repo e).
    + apply emits_le with (n := (1 + (3 + 0))%nat); [|lia].
      apply emits_bind; [apply initial_commit_from_project|]. intros files'.
      apply emits_bind; [exact Hhead|]. intros head. apply emits_ret.
    + apply (@emits_bind _ _ _ _ _ _ 5 0); [|intros; apply emits_ret].
      unfold create_branch.
      apply (@emits_bind _ _ _ _ _ _ 2 3).
      { apply (@emits_try _ _ _ _ _ 1 1); [|intros e']; apply emits_invoke;
          exact I. }
      intros master.
      apply (@emits_bind _ _ _ _ _ _ 1 2); [apply emits_invoke; exact I|].
      intros ref.
      apply (@emits_bind _ _ _ _ _ _ 1 1); [apply emits_invoke; exact I|].
      intros c.
      apply (@emits_bind _ _ _ _ _ _ 1 0); [apply emits_invoke; exact I|].
      intros t. apply emits_ret.
Qed.

Lemma loop_outcome_from_project readme_content files files' evs vs :
  incl files' files ->
  loop_outcome local branch files' evs vs ->
  Forall (fun ev => from_project local files readme_content (ev_call ev)) evs.
Proof.
  intros Hincl Hl. induction Hl as [|t rest evs v evss vs Hf _ IH];
    [constructor|].
  apply Forall_app. split.
  2: { apply IH. intros x Hx. apply Hincl. right. exact Hx. }
  assert (Hin : In t files) by (apply Hincl; left; reflexivity).
  destruct Hf as [| content blob Hr Hb | content e Hr Hb
                  | content text evs uploaded Hr Hb Hd Ht].
  - constructor.
  - repeat constructor. cbn. exists t, content. auto.
  - repeat constructor. cbn. exists t, content. auto.
  - assert (Hw : exists t0 content0,
               In t0 files /\ snd t0 = snd t /\
               read_bytes local (fst t0) = inr content0 /\
               Utf8.decode content0 = Some text)
      by (exists t, content; auto).
    destruct Ht; repeat (apply Forall_cons; [cbn; auto|]); apply Forall_nil.
Qed.

(** X10.  Everything that a run writes comes from the project.  The text
    of each file created or updated is the UTF-8 text of the local file
    that the snapshot holds for that path, and each blob is the base64 form
    of the bytes of a file of the snapshot; the one exception is the
    initial commit of [README.md], made of the text of the caller or of
    the heading with the project name. *)
Theorem content_comes_from_project readme_content files s :
  gather local = inr files ->
  exists evs,
    log (snd (_upload_files local repo readme_content branch s))
    = log s ++ evs /\
    Forall (fun ev => from_project local files readme_content (ev_call ev))
           evs.
Proof.
  intros Hg.
  destruct (upload_files_shape local repo branch readme_content s Hg)
    as (files' & bevs & levs & vs & cevs & L & _ & _ & Hincl & _ & HL & _
        & FC & _ & LB).
  destruct (ensure_branch_from_project readme_content files s)
    as (bevs' & LB' & _ & FB).
  rewrite LB in LB'. apply app_inv_head in LB'. subst bevs'.
  exists (bevs ++ levs ++ cevs). split; [exact L|].
  apply Forall_app. split; [exact FB|].
  apply Forall_app. split.
  - apply (loop_outcome_from_project readme_content Hincl HL).
  - eapply Forall_impl; [|exact FC].
    intros ev. cbv beta. destruct (ev_call ev); cbn; tauto.
Qed.

End Content.

Lemma content_comes_from_project_witness :
  Forall (fun ev => from_project Fixtures.full
                      [Fixtures.readme_md; Fixtures.a_txt; Fixtures.b_bin]
                      (Some (lit "# mine")) (ev_call ev))
         (log (snd (_upload_files Fixtures.full Fixtures.the_repo
                      (Some (lit "# mine")) (lit "main")
                      (Sim.start Sim.empty_repo)))).
Proof.
  destruct (@content_comes_from_project _ _ Fixtures.full Fixtures.the_repo
              (lit "main") (Some (lit "# mine"))
              [Fixtures.readme_md; Fixtures.a_txt; Fixtures.b_bin]
              (Sim.start Sim.empty_repo))
    as (evs & L & F).
  - reflexivity.
  - rewrite L. exact F.
Defined.

(** ** The README text of the caller *)

Section ReadmeText.
Context {W : Type} {api : GitHubAPI W}.
Variable local : project.
Variable repo : Repository.
Variable branch : pystr.

(** X11.  The README text of the caller only seeds an empty repository.
    Unless the first look-up of the branch raises the signal of an empty
    repository, the text plays no part: the run is the same, call for
    call, with another text or with none. *)
Theorem readme_text_only_seeds_empty_repository readme_content other s :
  (forall e s1, resolve_head repo branch s = (inl e, s1) ->
                is_empty_repo e = false) ->
  _upload_files local repo readme_content branch s
  = _upload_files local repo other branch s.
Proof.
  intros Hne.
  assert (E : forall files,
             ensure_branch local repo readme_content branch files s
             = ensure_branch local repo other branch files s).
  { intros files. unfold ensure_branch, try_except.
    destruct (bind (resolve_head repo branch)
                   (fun head => ret (files, head)) s)
      as [[e | r] s1] eqn:Hb; [|reflexivity].
    unfold bind, ret in Hb.
    destruct (resolve_head repo branch s) as [[e' | head] s2];
      [|discriminate Hb].
    injection Hb as -> ->. rewrite (Hne e s1 eq_refl). reflexivity. }
  unfold _upload_files, bind, lift.
  destruct (gather local) as [e | files]; [reflexivity|].
  rewrite E. reflexivity.
Qed.

End ReadmeText.

Lemma readme_text_only_seeds_empty_repository_witness :
  _upload_files Fixtures.full Fixtures.the_repo (Some (lit "# mine"))
                (lit "main") (Sim.start Fixtures.seeded)
  = _upload_files Fixtures.full Fixtures.the_repo None (lit "main")
                  (Sim.start Fixtures.seeded).
Proof.
  apply readme_text_only_seeds_empty_repository.
  intros e s1 H. vm_compute in H. discriminate H.
Defined.

(** ** The collection, the other way round *)

Lemma collect_files_complete root rel es : forall l name size,
  collect_files root rel es = inr l ->
  In (File name (inr size)) es ->
  skip_file name = false ->
  (size <= MAX_FILE_SIZE)%Z ->
  In (root ++ sep ++ name, join sep (rel ++ [name])) l.
Proof.
  induction es as [|[n sz | d ch] es IH]; intros l name size Hc Hin Hskip Hsz;
    cbn [collect_files] in Hc.
  - destruct Hin.
  - destruct Hin as [Heq | Hin].
    + injection Heq as -> ->. rewrite Hskip in Hc.
      destruct (size >? MAX_FILE_SIZE)%Z eqn:Hgt.
      { rewrite Z.gtb_ltb, Z.ltb_lt in Hgt. lia. }
      destruct (collect_files root rel es) as [e | l']; [discriminate|].
      injection Hc as <-. left. reflexivity.
    + destruct (skip_file n); [eapply IH; eassumption|].
      destruct sz as [e | sz]; [discriminate|].
      destruct (sz >? MAX_FILE_SIZE)%Z; [eapply IH; eassumption|].
      destruct (collect_files root rel es) as [e | l'] eqn:Hrest;
        [discriminate|].
      injection Hc as <-. right. eapply IH; [reflexivity | eassumption..].
  - destruct Hin as [Heq | Hin]; [discriminate|].
    eapply IH; eassumption.
Qed.

Lemma flat_res_complete A B (f : A -> res (list B)) l : forall r a,
  flat_res f l = inr r -> In a l ->
  exists ra, f a = inr ra /\ incl ra r.
Proof.
  induction l as [|x l IH]; intros r a Hf Hin; cbn [flat_res] in Hf.
  - destruct Hin.
  - destruct (f x) as [e | rx] eqn:Hx; [discriminate|].
    destruct (flat_res f l) as [e | rl] eqn:Hl; [discriminate|].
    injection Hf as <-. destruct Hin as [-> | Hin].
    + exists rx. split; [exact Hx | apply incl_appl, incl_refl].
    + destruct (IH rl a eq_refl Hin) as (ra & Ha & Hincl).
      exists ra. split; [exact Ha | apply incl_appr, Hincl].
Qed.

Lemma walk_complete es dirs name size :
  located es dirs name size ->
  forall root rel l,
    walk root rel es = inr l ->
    forallb keep_dir dirs = true ->
    skip_file name = false ->
    (size <= MAX_FILE_SIZE)%Z ->
    In (path_under root dirs name, join sep (rel ++ dirs ++ [name])) l.
Proof.
  induction 1 as [es name size Hin | es d children dirs name size Hin _ IH];
    intros root rel l Hw Hdirs Hskip Hsz; unfold walk, walk_level in Hw;
    destruct (collect_files root rel es) as [e | here] eqn:Hhere;
    try discriminate;
    destruct (flat_res (walk_entry root rel) es) as [e | below] eqn:Hbelow;
    try discriminate; injection Hw as <-; apply in_or_app.
  - left. eapply collect_files_complete; eassumption.
  - right. cbn [forallb] in Hdirs. apply andb_true_iff in Hdirs.
    destruct Hdirs as [Hd Hdirs].
    destruct (flat_res_complete _ _ _ Hbelow Hin) as (ra & Ha & Hincl).
    apply Hincl. cbn [walk_entry] in Ha. rewrite Hd in Ha.
    specialize (IH (root ++ sep ++ d) (rel ++ [d]) ra Ha Hdirs Hskip Hsz).
    rewrite <- app_assoc in IH. exact IH.
Qed.

(** X12.  No eligible file is left out of the snapshot.  When the
    collection goes through, the snapshot holds every file of the tree
    that is not above the size ceiling and whose name and directories
    neither start with a dot nor belong to the exclusion set; a file of
    exactly the ceiling is collected. *)
Theorem eligible_files_are_collected (local : project) files t :
  gather local = inr files ->
  eligible_item (project_entries local) (project_path local) [] t ->
  In t files.
Proof.
  intros Hg (dirs & name & size & Hloc & Hdirs & Hskip & Hsz & Hf & Hs).
  destruct t as [fp rp]. cbn [fst snd] in Hf, Hs. subst fp rp.
  apply (walk_complete Hloc _ _ Hg Hdirs Hskip Hsz).
Qed.

Lemma eligible_files_are_collected_witness :
  In (lit "/p/src/pkg/x.bin", lit "src/pkg/x.bin")
     [(lit "/p/a.txt", lit "a.txt"); (lit "/p/src/m.py", lit "src/m.py");
      (lit "/p/src/pkg/x.bin", lit "src/pkg/x.bin")].
Proof.
  apply (@eligible_files_are_collected Fixtures.messy).
  - reflexivity.
  - exists [lit "src"; lit "pkg"], (lit "x.bin"), (5 * 1024 * 1024)%Z.
    split.
    { eapply located_below; [right; right; right; left; reflexivity|].
      eapply located_below; [right; right; left; reflexivity|].
      apply located_here. left. reflexivity. }
    split; [reflexivity|]. split; [reflexivity|].
    split; [apply Z.le_refl|]. split; reflexivity.
Defined.

Lemma collect_files_fails root rel es name e :
  In (File name (inl e)) es ->
  skip_file name = false ->
  exists e', collect_files root rel es = inl e'.
Proof.
  induction es as [|[n sz | d ch] es IH]; intros Hin Hskip;
    cbn [collect_files].
  - destruct Hin.
  - destruct Hin as [Heq | Hin].
    + injection Heq as -> ->. rewrite Hskip. eexists. reflexivity.
    + destruct (IH Hin Hskip) as [e' He']. rewrite He'.
      destruct (skip_file n); [eauto|].
      destruct sz as [e1 | sz]; [eauto|].
      destruct (sz >? MAX_FILE_SIZE)%Z; eauto.
  - destruct Hin as [Heq | Hin]; [discriminate|]. apply IH; assumption.
Qed.

Lemma flat_res_fails A B (f : A -> res (list B)) l a e :
  In a l -> f a = inl e -> exists e', flat_res f l = inl e'.
Proof.
  induction l as [|x l IH]; intros Hin Ha; [destruct Hin|].
  cbn [flat_res]. destruct Hin as [-> | Hin].
  - rewrite Ha. eauto.
  - destruct (f x); [eauto|].
    destruct (IH Hin Ha) as [e' ->]. eauto.
Qed.

Lemma walk_fails es :
  unexaminable es ->
  forall root rel, exists e, walk root rel es = inl e.
Proof.
  induction 1 as [es name e Hin Hskip | es d children Hin Hkeep _ IH];
    intros root rel; unfold walk, walk_level.
  - destruct (@collect_files_fails root rel es name e Hin Hskip) as [e' ->].
    eauto.
  - destruct (collect_files root rel es); [eauto|].
    destruct (IH (root ++ sep ++ d) (rel ++ [d])) as [e Hw].
    destruct (@flat_res_fails _ _ (walk_entry root rel) es (Dir d children) e)
      as [e' ->]; [exact Hin | cbn [walk_entry]; rewrite Hkeep; exact Hw |].
    eauto.
Qed.

Section Unexaminable.
Context {W : Type} {api : GitHubAPI W}.
Variable local : project.

(** X13.  One file whose size cannot be read stops the upload before it
    starts.  When the walk meets such a file, in a directory that it
    enters and under a name that it does not leave out, [_upload_files]
    raises without any call to the remote, whatever the other files
    are. *)
Theorem unexaminable_file_stops_upload repo readme_content branch s :
  unexaminable (project_entries local) ->
  exists e,
    _upload_files local repo readme_content branch s = (inl e, s).
Proof.
  intros H. destruct (walk_fails H (project_path local) []) as [e He].
  exists e. apply upload_files_unstarted. exact He.
Qed.

End Unexaminable.

Lemma unexaminable_file_stops_upload_witness :
  exists e,
    _upload_files Cases.dangling Fixtures.the_repo None (lit "main")
                  (Sim.start Fixtures.seeded)
    = (inl e, Sim.start Fixtures.seeded).
Proof.
  apply unexaminable_file_stops_upload.
  eapply unexaminable_below; [right; left; reflexivity | reflexivity |].
  eapply unexaminable_here; [left; reflexivity | reflexivity].
Defined.

(** ** The analysis of the project *)

Lemma dotted_starts_with_dot (d rest : pystr) :
  str_eqb d (46 :: rest) = true -> startswith d (lit ".") = true.
Proof.
  destruct d as [|c d]; [discriminate|].
  change (lit ".") with [46]. cbn [str_eqb startswith].
  intros H. apply andb_true_iff in H. destruct H as [-> _].
  destruct d; reflexivity.
Qed.

(** The two walks enter the same directories. *)
Lemma keep_dir_agree (d : pystr) : Analysis.keep_dir d = keep_dir d.
Proof.
  unfold Analysis.keep_dir, keep_dir.
  destruct (startswith d (lit ".")) eqn:Hdot;
    [rewrite andb_false_r; reflexivity|].
  cbn [negb andb]. rewrite andb_true_r. f_equal.
  unfold str_in, Analysis.EXCLUDED_DIRS, EXCLUDE_PATTERNS. cbn [existsb].
  assert (Hno : forall rest, str_eqb d (46 :: rest) = false).
  { intros rest. destruct (str_eqb d (46 :: rest)) eqn:E; [|reflexivity].
    apply dotted_starts_with_dot in E. congruence. }
  change (lit ".git") with (46 :: lit "git").
  change (lit ".DS_Store") with (46 :: lit "DS_Store").
  change (lit ".mypy_cache") with (46 :: lit "mypy_cache").
  rewrite !Hno, !orb_false_r. reflexivity.
Qed.

Lemma list_files_complete rel es name size :
  In (File name size) es ->
  Analysis.keep_file name = true ->
  In (join sep (rel ++ [name])) (Analysis.list_files rel es).
Proof.
  induction es as [|[n sz | d ch] es IH]; intros Hin Hkeep;
    cbn [Analysis.list_files].
  - destruct Hin.
  - destruct Hin as [Heq | Hin].
    + injection Heq as -> ->. rewrite Hkeep. left. reflexivity.
    + destruct (Analysis.keep_file n); [right|]; apply IH; assumption.
  - destruct Hin as [Heq | Hin]; [discriminate|]. apply IH; assumption.
Qed.

Lemma analysis_complete es dirs name size :
  located es dirs name size ->
  forall rel,
    forallb keep_dir dirs = true ->
    Analysis.keep_file name = true ->
    In (join sep (rel ++ dirs ++ [name]))
       (Analysis.list_files rel es
        ++ flat_map (Analysis.list_entry rel) es).
Proof.
  induction 1 as [es name size Hin | es d children dirs name size Hin _ IH];
    intros rel Hdirs Hkeep; apply in_or_app.
  - left. eapply list_files_complete; eassumption.
  - right. cbn [forallb] in Hdirs. apply andb_true_iff in Hdirs.
    destruct Hdirs as [Hd Hdirs].
    apply in_flat_map. exists (Dir d children). split; [exact Hin|].
    cbn [Analysis.list_entry]. rewrite keep_dir_agree, Hd.
    specialize (IH (rel ++ [d]) Hdirs Hkeep).
    rewrite <- app_assoc in IH. exact IH.
Qed.

(** X14.  The analysis that precedes the upload sees the files that are
    uploaded.  Every file of the snapshot is in the list of files that the
    analysis works on, under the same relative path, except the files
    whose name ends in [.pyc], [.log] or [.tmp]. *)
Theorem snapshot_is_analysed (local : project) files t :
  gather local = inr files ->
  In t files ->
  In (snd t) (Analysis._get_project_files local) \/
  exists dirs name,
    snd t = join sep (dirs ++ [name]) /\
    existsb (Analysis.endswith name) Analysis.IGNORED_SUFFIXES = true.
Proof.
  intros Hg Hin.
  edestruct walk_sound
    as (dirs & name & size & Hloc & Hdirs & Hskip & _ & _ & Hs);
    [exact Hg | exact Hin |].
  cbn [app] in Hs.
  destruct (existsb (Analysis.endswith name) Analysis.IGNORED_SUFFIXES)
    eqn:Hsfx.
  - right. exists dirs, name. split; [exact Hs | exact Hsfx].
  - left. rewrite Hs. unfold Analysis._get_project_files.
    apply (analysis_complete Hloc [] Hdirs).
    unfold Analysis.keep_file. rewrite Hsfx.
    unfold skip_file in Hskip. apply orb_false_iff in Hskip.
    destruct Hskip as [-> _]. reflexivity.
Qed.

Lemma snapshot_is_analysed_witness :
  In (lit "src/pkg/x.bin") (Analysis._get_project_files Fixtures.messy) \/
  exists dirs name,
    lit "src/pkg/x.bin" = join sep (dirs ++ [name]) /\
    existsb (Analysis.endswith name) Analysis.IGNORED_SUFFIXES = true.
Proof.
  apply (@snapshot_is_analysed Fixtures.messy
           [(lit "/p/a.txt", lit "a.txt"); (lit "/p/src/m.py", lit "src/m.py");
            (lit "/p/src/pkg/x.bin", lit "src/pkg/x.bin")]
           (lit "/p/src/pkg/x.bin", lit "src/pkg/x.bin")).
  - reflexivity.
  - right. right. left. reflexivity.
Defined.

(** *** The language *)

Lemma dict_mem_set k k' v d :
  Analysis.dict_mem k (Analysis.dict_set k' v d)
  = str_eqb k k' || Analysis.dict_mem k d.
Proof.
  unfold Analysis.dict_mem.
  induction d as [|[k0 v0] d IH]; cbn [Analysis.dict_set existsb fst].
  - reflexivity.
  - destruct (str_eqb k' k0) eqn:E; cbn [existsb fst].
    + apply str_eqb_eq in E. subst k0.
      destruct (str_eqb k k'); reflexivity.
    + rewrite IH. destruct (str_eqb k k0), (str_eqb k k'); reflexivity.
Qed.

Lemma str_eqb_sym (a b : pystr) : str_eqb a b = str_eqb b a.
Proof.
  destruct (str_eqb a b) eqn:E.
  - apply str_eqb_eq in E. subst. symmetry. apply str_eqb_refl.
  - symmetry. apply str_eqb_neq. apply str_eqb_neq in E. congruence.
Qed.

Lemma count_extensions_mem k files : forall d,
  k <> [] ->
  Analysis.dict_mem k
    (fold_left
       (fun extensions file =>
          match Analysis.extension file with
          | [] => extensions
          | _ :: _ =>
            Analysis.dict_set (Analysis.extension file)
              (Analysis.dict_get (Analysis.extension file) extensions 0 + 1)%Z
              extensions
          end) files d)
  = Analysis.dict_mem k d || has_extension k files.
Proof.
  unfold has_extension.
  induction files as [|f files IH]; intros d Hk; cbn [fold_left existsb].
  - rewrite orb_false_r. reflexivity.
  - rewrite IH by exact Hk.
    destruct (Analysis.extension f) as [|c ext] eqn:E.
    + destruct (str_eqb [] k) eqn:E0; [|reflexivity].
      apply str_eqb_eq in E0. congruence.
    + rewrite dict_mem_set, (str_eqb_sym k).
      rewrite orb_assoc, (orb_comm (str_eqb _ _)). reflexivity.
Qed.

Lemma dict_mem_count k files :
  k <> [] ->
  Analysis.dict_mem k (Analysis.count_extensions files)
  = has_extension k files.
Proof.
  intros Hk. unfold Analysis.count_extensions.
  rewrite count_extensions_mem by exact Hk. reflexivity.
Qed.

(** The chain of tests of [_detect_language], on the files themselves. *)
Lemma detect_language_eq files :
  Analysis._detect_language files
  = if has_extension (lit ".py") files then lit "Python"
    else if has_extension (lit ".js") files || has_extension (lit ".ts") files
         then lit "JavaScript/TypeScript"
    else if has_extension (lit ".java") files then lit "Java"
    else if has_extension (lit ".cpp") files || has_extension (lit ".c") files
         then lit "C/C++"
    else if has_extension (lit ".go") files then lit "Go"
    else if has_extension (lit ".rs") files then lit "Rust"
    else if has_extension (lit ".rb") files then lit "Ruby"
    else if has_extension (lit ".php") files then lit "PHP"
    else lit "Unknown".
Proof.
  unfold Analysis._detect_language.
  rewrite !dict_mem_count by (intros H; discriminate H). reflexivity.
Qed.

(** X15.  One Python file makes a Python project.  The language is
    [Python] exactly when some file has the extension [.py], in any case
    of the letters: the numbers of files of each extension, which the
    program counts, play no part. *)
Theorem python_file_decides (files : list pystr) :
  Analysis._detect_language files = lit "Python" <->
  exists file, In file files /\ Analysis.extension file = lit ".py".
Proof.
  rewrite detect_language_eq. split.
  - destruct (has_extension (lit ".py") files) eqn:E.
    + intros _. apply existsb_exists in E. destruct E as (f & Hin & Hf).
      exists f. split; [exact Hin | apply str_eqb_eq, Hf].
    + repeat match goal with
             | |- context [if ?b then _ else _] => destruct b
             end; intros H; vm_compute in H; discriminate H.
  - intros (f & Hin & Hf).
    assert (E : has_extension (lit ".py") files = true).
    { apply existsb_exists. exists f. split; [exact Hin|].
      apply str_eqb_eq, Hf. }
    rewrite E. reflexivity.
Qed.

(** X16.  The language depends on which extensions occur, not on how
    often or in which order: two lists of files in which the same
    extensions occur have the same language. *)
Theorem language_ignores_counts (files files' : list pystr) :
  (forall k, has_extension k files = has_extension k files') ->
  Analysis._detect_language files = Analysis._detect_language files'.
Proof.
  intros H. rewrite !detect_language_eq, !H. reflexivity.
Qed.

Lemma language_ignores_counts_witness :
  Analysis._detect_language
    [lit "main.go"; lit "util.go"; lit "cmd/run.go"; lit "tools/gen.PY"]
  = Analysis._detect_language [lit "tools/gen.PY"; lit "main.go"].
Proof.
  apply language_ignores_counts. intros k.
  unfold has_extension. cbn [existsb].
  change (Analysis.extension (lit "main.go")) with (lit ".go").
  change (Analysis.extension (lit "util.go")) with (lit ".go").
  change (Analysis.extension (lit "cmd/run.go")) with (lit ".go").
  change (Analysis.extension (lit "tools/gen.PY")) with (lit ".py").
  destruct (str_eqb (lit ".go") k), (str_eqb (lit ".py") k); reflexivity.
Defined.

(** *** The description *)

Lemma lower_title_from (s : pystr) : forall previous_is_cased,
  lower (Analysis.title_from previous_is_cased s) = lower s.
Proof.
  induction s as [|c s IH]; intros b; [reflexivity|].
  cbn [Analysis.title_from lower map]. fold (lower s).
  fold (lower (Analysis.title_from (Analysis.is_cased c) s)).
  rewrite IH. f_equal.
  unfold lower_cp, Analysis.upper_cp, in_range_N.
  destruct b.
  - destruct ((65 <=? c) && (c <=? 90)) eqn:E; [|rewrite E; reflexivity].
    apply andb_true_iff in E. destruct E as [E1 E2].
    apply N.leb_le in E1, E2.
    destruct ((65 <=? c + 32) && (c + 32 <=? 90)) eqn:E'; [|reflexivity].
    apply andb_true_iff in E'. destruct E' as [_ E']. apply N.leb_le in E'.
    lia.
  - destruct ((97 <=? c) && (c <=? 122)) eqn:E; [|reflexivity].
    apply andb_true_iff in E. destruct E as [E1 E2].
    apply N.leb_le in E1, E2.
    assert (H1 : (65 <=? c - 32) && (c - 32 <=? 90) = true).
    { apply andb_true_iff. split; apply N.leb_le; lia. }
    assert (H2 : (65 <=? c) && (c <=? 90) = false).
    { apply andb_false_iff. right. apply N.leb_gt. lia. }
    rewrite H1, H2. lia.
Qed.

Lemma ascii_only_replace1 a b (s : pystr) :
  b <= 127 ->
  Analysis.ascii_only s = true ->
  Analysis.ascii_only (replace1 a b s) = true.
Proof.
  intros Hb. unfold Analysis.ascii_only, replace1.
  rewrite !forallb_forall. intros H c Hc. apply in_map_iff in Hc.
  destruct Hc as (x & <- & Hx). destruct (x =? a); [|apply H, Hx].
  apply N.leb_le, Hb.
Qed.

(** X17.  The description of the project, which a repository created by
    the deployment receives, is the name of the project directory in lower
    case, with spaces for its hyphens and underscores, between [A] and
    [project]: the title case that the function gives to the name is
    undone before it is used.  This holds for names of ASCII
    characters. *)
Theorem description_is_lower_case (name : pystr) :
  Analysis.ascii_only name = true ->
  Analysis._generate_description name
  = Some (lit "A " ++ lower (replace1 95 32 (replace1 45 32 name))
          ++ lit " project").
Proof.
  intros Ha. unfold Analysis._generate_description, Analysis.title.
  rewrite ascii_only_replace1;
    [| lia | apply ascii_only_replace1; [lia | exact Ha]].
  rewrite lower_title_from. reflexivity.
Qed.

Lemma description_is_lower_case_witness :
  Analysis._generate_description (lit "My_Cool-App")
  = Some (lit "A my cool app project").
Proof.
  eapply eq_trans.
  - apply description_is_lower_case. reflexivity.
  - reflexivity.
Defined.

(** * Properties of whole runs *)

(** ** The run depends on the eligible files only *)

Section Extensionality.
Context {W : Type} {api : GitHubAPI W}.
Variables local local' : project.
Variable repo : Repository.
Variable branch : pystr.

Lemma upload_loop_ext files :
  (forall t, In t files -> read_bytes local' (fst t) = read_bytes local (fst t)) ->
  forall st s,
    upload_loop local' repo branch files st s
    = upload_loop local repo branch files st s.
Proof.
  induction files as [|t rest IH]; intros Hread st s; [reflexivity|].
  cbn [upload_loop].
  assert (E : loop_step local' repo branch st t s
              = loop_step local repo branch st t s).
  { unfold loop_step, upload_one. destruct t as [fp rp].
    pose proof (Hread (fp, rp) (or_introl eq_refl)) as H.
    cbn [fst] in H. rewrite H. reflexivity. }
  unfold bind. rewrite E.
  destruct (loop_step local repo branch st t s) as [[e | st'] s'];
    [reflexivity|].
  apply IH. intros x Hx. apply Hread. right. exact Hx.
Qed.

Lemma upload_phase_ext files s :
  (forall t, In t files -> read_bytes local' (fst t) = read_bytes local (fst t)) ->
  upload_phase local' repo branch files s
  = upload_phase local repo branch files s.
Proof.
  intros Hread. unfold upload_phase. unfold bind at 1 3.
  rewrite upload_loop_ext by exact Hread. reflexivity.
Qed.

Lemma ensure_branch_ext readme_content files s :
  project_name local' = project_name local ->
  (forall t, In t files -> read_bytes local' (fst t) = read_bytes local (fst t)) ->
  ensure_branch local' repo readme_content branch files s
  = ensure_branch local repo readme_content branch files s.
Proof.
  intros Hname Hread.
  assert (E : initial_commit local' repo readme_content branch files
              = initial_commit local repo readme_content branch files).
  { unfold initial_commit. rewrite Hname.
    destruct (truthy readme_content); [reflexivity|].
    destruct (find is_readme files) as [[fp rp]|] eqn:Hf; [|reflexivity].
    apply find_some in Hf. destruct Hf as [Hin _].
    pose proof (Hread (fp, rp) Hin) as H.
    cbn [fst] in H. rewrite H. reflexivity. }
  unfold ensure_branch. rewrite E. reflexivity.
Qed.

End Extensionality.

Lemma text_of_decoded (p : project) file_path content text :
  read_bytes p file_path = inr content ->
  Utf8.decode content = Some text ->
  text_of p file_path = inr text.
Proof.
  intros Hr Hd. unfold text_of. rewrite Hr. apply decode_inr, Hd.
Qed.

(** A call at paths of the snapshot, with content of the snapshot, takes
    nothing from the project but eligible files. *)
Lemma snapshot_call_of_eligible (local : project) repo branch files
    readme_content c :
  (forall t, In t files -> eligible local t) ->
  confined repo branch files c ->
  from_project local files readme_content c ->
  of_eligible local readme_content c.
Proof.
  intros Hel Hc Hp.
  destruct c as [n | n d pr | r | sha | sha | p b | p m txt b | p m txt sha b | ct enc
                 | els base | m tr ps | r sha | r sha];
    cbn in *; auto.
  - destruct Hc as [_ Hin]. apply in_map_iff in Hin.
    destruct Hin as (t & Ht & Hin). exists t. auto.
  - destruct Hp as [(t & bs & Hin & Hs & Hr & Hd) | (Hpath & _ & Htext)].
    + left. exists t. split; [auto|]. split; [exact Hs|].
      apply (text_of_decoded _ _ Hr Hd).
    + right. auto.
  - destruct Hp as (t & bs & Hin & Hs & Hr & Hd).
    exists t. split; [auto|]. split; [exact Hs|].
    apply (text_of_decoded _ _ Hr Hd).
  - destruct Hp as (t & bs & Hin & Hr & Hb). exists t, bs. auto.
  - eapply Forall_impl; [|exact Hc]. intros el Hin. cbv beta in Hin.
    apply in_map_iff in Hin. destruct Hin as (t & Ht & Hin).
    exists t. auto.
Qed.

Lemma of_eligible_names (local : project) readme_content path c :
  path <> lit "README.md" ->
  (forall t, eligible local t -> snd t <> path) ->
  of_eligible local readme_content c ->
  ~ names_path path c.
Proof.
  intros Hreadme Hnone Hc Hn.
  destruct c as [n | n d pr | r | sha | sha | p b | p m txt b | p m txt sha b | ct enc
                 | els base | m tr ps | r sha | r sha];
    cbn in *; try contradiction.
  - subst p. destruct Hc as (t & Ht & Hs). apply (Hnone t Ht Hs).
  - subst p. destruct Hc as [(t & Ht & Hs & _) | [Hp _]].
    + apply (Hnone t Ht Hs).
    + apply Hreadme, Hp.
  - subst p. destruct Hc as (t & Ht & Hs & _). apply (Hnone t Ht Hs).
  - apply in_map_iff in Hn. destruct Hn as (el & Hel & Hin).
    rewrite Forall_forall in Hc. destruct (Hc el Hin) as (t & Ht & Hs).
    apply (Hnone t Ht). congruence.
Qed.

Section EligibleOnly.
Context {W : Type} {api : GitHubAPI W}.
Variable local : project.
Variable repo : Repository.
Variable branch : pystr.

(** The calls of every run, and its counters. *)
Lemma upload_files_of_eligible readme_content s :
  exists evs,
    log (snd (_upload_files local repo readme_content branch s))
    = log s ++ evs /\
    Forall (fun ev => of_eligible local readme_content (ev_call ev)) evs /\
    (forall files result,
        gather local = inr files ->
        fst (_upload_files local repo readme_content branch s) = inr result ->
        (0 <= files_uploaded result)%Z /\ (0 <= files_skipped result)%Z /\
        (files_uploaded result + files_skipped result
         <= Z.of_nat (List.length files))%Z).
Proof.
  destruct (gather local) as [e | files] eqn:Hg.
  { exists []. rewrite (upload_files_unstarted local repo branch
                          readme_content s Hg), app_nil_r.
    split; [reflexivity|]. split; [constructor|].
    intros files result H. discriminate H. }
  assert (Hel : forall t, In t files -> eligible local t).
  { intros t Hin. unfold eligible. eapply walk_sound; [exact Hg | exact Hin]. }
  destruct (upload_files_shape local repo branch readme_content s Hg)
    as (files' & bevs & levs & vs & cevs & L & _ & FB & Hincl & NF & HL & _
        & FC & Hres & LB).
  destruct (ensure_branch_from_project local repo branch readme_content files s)
    as (bevs' & LB' & _ & PB).
  rewrite LB in LB'. apply app_inv_head in LB'. subst bevs'.
  destruct (loop_outcome_confined repo Hincl HL) as [CL CE].
  pose proof (loop_outcome_from_project readme_content Hincl HL) as PL.
  exists (bevs ++ levs ++ cevs). split; [exact L|]. split.
  - apply Forall_app. split; [|apply Forall_app; split].
    + apply Forall_forall. intros ev Hev.
      rewrite Forall_forall in FB, PB.
      eapply snapshot_call_of_eligible;
        [exact Hel | apply bootstrap_call_confined, FB, Hev | apply PB, Hev].
    + apply Forall_forall. intros ev Hev.
      rewrite Forall_forall in CL, PL.
      eapply snapshot_call_of_eligible;
        [exact Hel | apply CL, Hev | apply PL, Hev].
    + apply Forall_forall. intros ev Hev.
      rewrite Forall_forall in FC. specialize (FC ev Hev).
      eapply snapshot_call_of_eligible with (repo := repo) (branch := branch);
        [exact Hel | eapply commit_call_confined; [exact CE | exact FC] |].
      destruct (ev_call ev); cbn in FC |- *; tauto.
  - intros files0 result H0 Hfst. injection H0 as <-.
    rewrite (Hres result Hfst). cbn [files_uploaded files_skipped].
    destruct (loop_outcome_length HL) as [_ Hvs].
    assert (Hsum : (List.length (filter (fun v => negb (is_skipped v)) vs)
                    + List.length (filter is_skipped vs)
                    = List.length vs)%nat).
    { clear. induction vs as [|v vs IH]; [reflexivity|].
      cbn [filter]. destruct (is_skipped v); cbn [negb List.length]; lia. }
    lia.
Qed.

End EligibleOnly.

Section NonInterference.
Context {W : Type} {api : GitHubAPI W}.
Variables local local' : project.
Variable repo : Repository.
Variable branch : pystr.

(** Projects with the same eligible part give the same run. *)
Lemma upload_files_ext readme_content s :
  same_eligible_part local local' ->
  _upload_files local' repo readme_content branch s
  = _upload_files local repo readme_content branch s.
Proof.
  intros (Hpath & Hname & Hprune & Hread).
  assert (Hg : gather local' = gather local).
  { unfold gather. rewrite Hpath, <- walk_prune, Hprune. apply walk_prune. }
  unfold _upload_files. unfold bind at 1 3, lift. rewrite Hg.
  destruct (gather local) as [e | files] eqn:Hgl; [reflexivity|].
  assert (Hfiles : forall t, In t files ->
                     read_bytes local' (fst t) = read_bytes local (fst t)).
  { intros t Hin. apply Hread. unfold eligible.
    eapply walk_sound; [exact Hgl | exact Hin]. }
  unfold bind.
  rewrite (ensure_branch_ext local local' repo branch readme_content files s
             Hname Hfiles).
  destruct (ensure_branch local repo readme_content branch files s)
    as [[e | [files' head]] s1] eqn:Hens; [reflexivity|].
  apply ensure_branch_files in Hens.
  apply upload_phase_ext. intros t Hin. apply Hfiles.
  subst files'. unfold after_bootstrap in Hin.
  destruct (readme_consumed _ _ _); [|exact Hin].
  destruct (find is_readme files); [|exact Hin].
  apply filter_In in Hin. apply Hin.
Qed.

End NonInterference.

(** C8.  What the collector leaves out is never uploaded.  Every element
    of the snapshot stands for an eligible file: a file of the tree that is
    not above the size ceiling and whose name and directories, below the
    project directory, neither start with a dot nor belong to the exclusion
    set.  In every run, every call takes nothing from the project but
    eligible files: files are looked up, created and updated at the
    relative paths of eligible files and with their text, blobs hold their
    bytes, trees list their paths; so a path that is the path of no
    eligible file (and is not [README.md], the path of the initial commit)
    is named by no call.  The two counters count files of the snapshot
    only.  And the rest of the project plays no part: the run is the same
    on the tree without the entries left out, and on any project with the
    same eligible files. *)
Theorem excluded_never_collected (local : project) :
  (forall files t,
      gather local = inr files -> In t files -> eligible local t) /\
  (forall W (api : GitHubAPI W) repo readme_content branch s,
      exists evs,
        log (snd (_upload_files local repo readme_content branch s))
        = log s ++ evs /\
        Forall (fun ev => of_eligible local readme_content (ev_call ev)) evs /\
        (forall path,
            path <> lit "README.md" ->
            (forall t, eligible local t -> snd t <> path) ->
            Forall (fun ev => ~ names_path path (ev_call ev)) evs) /\
        (forall files result,
            gather local = inr files ->
            fst (_upload_files local repo readme_content branch s)
            = inr result ->
            (0 <= files_uploaded result)%Z /\
            (0 <= files_skipped result)%Z /\
            (files_uploaded result + files_skipped result
             <= Z.of_nat (List.length files))%Z)) /\
  gather (pruned local) = gather local /\
  (forall W (api : GitHubAPI W) repo readme_content branch s,
      _upload_files (pruned local) repo readme_content branch s
      = _upload_files local repo readme_content branch s) /\
  (forall local' W (api : GitHubAPI W) repo readme_content branch s,
      same_eligible_part local local' ->
      _upload_files local' repo readme_content branch s
      = _upload_files local repo readme_content branch s).
Proof.
  assert (Hg : gather (pruned local) = gather local).
  { unfold gather, pruned. cbn [project_path project_entries].
    apply walk_prune. }
  split; [|split; [|split; [exact Hg | split]]].
  - intros files t Hgather Hin. unfold eligible.
    eapply walk_sound; eassumption.
  - intros W api repo rc branch s.
    destruct (upload_files_of_eligible local repo branch rc s)
      as (evs & L & F & C).
    exists evs. split; [exact L|]. split; [exact F|]. split; [|exact C].
    intros path Hreadme Hnone. eapply Forall_impl; [|exact F].
    intros ev Hev. eapply of_eligible_names; [exact Hreadme | exact Hnone |].
    exact Hev.
  - intros W api repo rc branch s. unfold _upload_files. rewrite Hg.
    reflexivity.
  - intros local' W api repo rc branch s Hsame.
    apply upload_files_ext. exact Hsame.
Qed.

Lemma excluded_never_collected_witness :
  Forall (fun ev => ~ names_path (lit "oversized.zip") (ev_call ev))
         (log (snd (_upload_files Fixtures.mixed Fixtures.the_repo None
                      (lit "main") (Sim.start Fixtures.seeded)))) /\
  eligible Fixtures.messy (lit "/p/src/pkg/x.bin", lit "src/pkg/x.bin").
Proof.
  split.
  - destruct (proj1 (proj2 (excluded_never_collected Fixtures.mixed))
                _ _ Fixtures.the_repo None (lit "main")
                (Sim.start Fixtures.seeded))
      as (evs & L & _ & Hnames & _).
    rewrite L. apply Hnames; [discriminate|].
    intros t Ht.
    assert (Hin : In t [Fixtures.a_txt; Fixtures.b_bin]).
    { destruct Ht as (dirs & name & size & Hloc & Hdirs & Hskip & Hsz & Hf
                      & Hs).
      destruct t as [fp rp]. cbn [fst snd] in Hf, Hs. subst fp rp.
      apply (@walk_complete _ _ _ _ Hloc (lit "/p") []
               [Fixtures.a_txt; Fixtures.b_bin] eq_refl Hdirs Hskip Hsz). }
    destruct Hin as [<- | [<- | []]]; discriminate.
  - eapply (proj1 (excluded_never_collected Fixtures.messy)).
    + reflexivity.
    + cbn. right. right. left. reflexivity.
Defined.

(** ** A second run writes every text file again *)

Section SecondRun.
Context {W : Type} {api : GitHubAPI W}.
Variable local : project.
Variable repo : Repository.
Variable branch : pystr.

Local Open Scope Z_scope.

Lemma text_file_text t content text :
  read_bytes local (fst t) = inr content ->
  _is_binary content = false ->
  Utf8.decode content = Some text ->
  is_text_file local t = true /\ is_binary_file local t = false /\
  text_of local (fst t) = inr text.
Proof.
  intros Hr Hb Hd. unfold is_text_file, is_binary_file, text_of.
  rewrite Hr, Hb. repeat split. apply decode_inr, Hd.
Qed.

(** The writes of one file: none unless the file is a text file, and then
    at most one. *)
Lemma file_outcome_writes t evs v :
  file_outcome local branch t evs v ->
  writes evs <= (if is_text_file local t then 1 else 0).
Proof.
  destruct 1 as [e Hr | content blob Hr Hb | content e Hr Hb
                 | content text evs uploaded Hr Hb Hd Ht].
  - cbn. destruct (is_text_file local t); lia.
  - cbn. destruct (is_text_file local t); lia.
  - cbn. destruct (is_text_file local t); lia.
  - destruct (text_file_text t Hr Hb Hd) as (-> & _ & _).
    destruct Ht; cbn; lia.
Qed.

(** One file, when the remote refuses no call: a text file is written, a
    binary file is staged, and both are counted as uploaded. *)
Lemma file_outcome_accepted t evs v :
  file_outcome local branch t evs v ->
  forallb accepted evs = true ->
  writes evs = (if is_text_file local t then 1 else 0) /\
  is_skipped v = negb (is_text_file local t || is_binary_file local t) /\
  (is_text_file local t = true -> Exists (writes_file local t) evs).
Proof.
  destruct 1 as [e Hr | content blob Hr Hb | content e Hr Hb
                 | content text evs uploaded Hr Hb Hd Ht]; intros Hacc.
  - unfold is_text_file, is_binary_file. rewrite Hr.
    repeat split. discriminate.
  - unfold is_text_file, is_binary_file. rewrite Hr, Hb.
    repeat split. discriminate.
  - discriminate Hacc.
  - destruct (text_file_text t Hr Hb Hd) as (Ht1 & Ht2 & Htext).
    rewrite Ht1, Ht2.
    destruct Ht as [c | e0 Hnf | c e0 Hnf | e0 Hnf | l | c e0 Hnf
                    | e0 e1 Hnf | c e0 e1 Hnf];
      cbn in Hacc; rewrite ?Hnf in Hacc; try discriminate Hacc.
    + split; [reflexivity|]. split; [reflexivity|]. intros _.
      apply Exists_cons_tl, Exists_cons_hd. split; [reflexivity|].
      exists text. split; [exact Htext|]. right.
      eexists _, _, _. reflexivity.
    + split; [reflexivity|]. split; [reflexivity|]. intros _.
      apply Exists_cons_tl, Exists_cons_hd. split; [reflexivity|].
      exists text. split; [exact Htext|]. left.
      eexists _, _. reflexivity.
Qed.

Lemma loop_outcome_writes files evs vs :
  loop_outcome local branch files evs vs ->
  writes evs <= Z.of_nat (List.length (filter (is_text_file local) files)).
Proof.
  induction 1 as [|t rest evs v evss vs Hf _ IH]; [cbn; lia|].
  rewrite writes_app. apply file_outcome_writes in Hf.
  cbn [filter]. destruct (is_text_file local t); cbn [List.length]; lia.
Qed.

Lemma loop_outcome_accepted files evs vs :
  loop_outcome local branch files evs vs ->
  forallb accepted evs = true ->
  writes evs = Z.of_nat (List.length (filter (is_text_file local) files)) /\
  List.length (filter (fun v => negb (is_skipped v)) vs)
  = (List.length (filter (is_text_file local) files)
     + List.length (filter (is_binary_file local) files))%nat /\
  Forall (fun t => Exists (writes_file local t) evs)
         (filter (is_text_file local) files).
Proof.
  induction 1 as [|t rest evs v evss vs Hf _ IH]; intros Hacc.
  - repeat split. constructor.
  - rewrite forallb_app in Hacc. apply andb_true_iff in Hacc.
    destruct Hacc as [Hacc1 Hacc2].
    destruct (IH Hacc2) as (IHw & IHv & IHe).
    destruct (file_outcome_accepted Hf Hacc1) as (Hw & Hv & He).
    rewrite writes_app, Hw, IHw. cbn [filter]. rewrite Hv.
    assert (Hrest : Forall (fun t0 => Exists (writes_file local t0)
                                             (evs ++ evss))
                           (filter (is_text_file local) rest)).
    { eapply Forall_impl; [|exact IHe]. intros t0 H0.
      apply Exists_app. right. exact H0. }
    assert (Hexcl : is_text_file local t = true ->
                    is_binary_file local t = false).
    { unfold is_text_file, is_binary_file.
      destruct (read_bytes local (fst t)); [discriminate|].
      destruct (_is_binary b); [discriminate | reflexivity]. }
    destruct (is_text_file local t) eqn:Et.
    + rewrite (Hexcl eq_refl). cbn [orb negb List.length].
      split; [lia|]. split; [lia|].
      constructor; [|exact Hrest]. apply Exists_app. left. apply He.
      reflexivity.
    + cbn [orb]. destruct (is_binary_file local t);
        cbn [negb List.length]; (split; [lia|]); (split; [lia | exact Hrest]).
Qed.

(** The batched commit writes no file. *)
Lemma commit_binary_no_write elements s :
  exists evs,
    log (snd (commit_binary repo branch elements s)) = log s ++ evs /\
    writes evs = 0 /\ filter is_blob evs = [].
Proof.
  destruct (emits_commit_binary repo branch elements s) as (evs & L & _ & F).
  exists evs. split; [exact L|].
  assert (H : filter is_write evs = [] /\ filter is_blob evs = []).
  { clear L. induction F as [|ev evs Hev _ [IH1 IH2]]; [split; reflexivity|].
    cbn [filter]. rewrite IH1, IH2. unfold is_write, is_blob.
    destruct (ev_call ev); cbn in Hev; try contradiction; split; reflexivity. }
  destruct H as [H1 H2]. unfold writes. rewrite H1. split; [reflexivity|].
  exact H2.
Qed.

(** The upload phase on any list of files. *)
Lemma upload_phase_writes files s0 :
  exists result s1 evs,
    upload_phase local repo branch files s0 = (inr result, s1) /\
    log s1 = log s0 ++ evs /\
    writes evs <= Z.of_nat (List.length (filter (is_text_file local) files)) /\
    files_uploaded result
    = writes evs + Z.of_nat (List.length (filter is_blob evs)) /\
    files_uploaded result + files_skipped result
    = Z.of_nat (List.length files) /\
    (forallb accepted evs = true ->
     writes evs = Z.of_nat (List.length (filter (is_text_file local) files)) /\
     files_uploaded result
     = Z.of_nat (List.length (filter (is_text_file local) files)
                 + List.length (filter (is_binary_file local) files)) /\
     Forall (fun t => Exists (writes_file local t) evs)
            (filter (is_text_file local) files)).
Proof.
  destruct (upload_loop_outcome local repo branch files loop_init s0)
    as (levs & vs & s1 & E1 & L1 & O1).
  rewrite fold_after_file in E1.
  cbn [loop_init n_uploaded n_skipped tree_elements app Z.add] in E1.
  destruct (commit_binary_no_write (flat_map staged_of vs) s1)
    as (cevs & L2 & W2 & B2).
  destruct (commit_binary_total repo branch (flat_map staged_of vs) s1)
    as [s2 E2].
  rewrite E2 in L2. cbn [snd] in L2.
  eexists _, s2, (levs ++ cevs).
  split; [eapply upload_phase_eq; [exact E1 | exact E2]|].
  split; [rewrite L2, L1, app_assoc; reflexivity|].
  cbn [files_uploaded files_skipped n_uploaded n_skipped].
  rewrite writes_app, W2, Z.add_0_r, filter_app, B2, app_nil_r.
  destruct (loop_outcome_length O1) as [_ Hlen].
  pose proof (loop_outcome_counted O1) as Hcount.
  assert (Hsum : (List.length (filter (fun v => negb (is_skipped v)) vs)
                  + List.length (filter is_skipped vs)
                  = List.length vs)%nat).
  { clear. induction vs as [|v vs IH]; [reflexivity|].
    cbn [filter]. destruct (is_skipped v); cbn [negb List.length]; lia. }
  assert (Hwb : List.length (filter went_through levs)
                = (List.length (filter is_write levs)
                   + List.length (filter is_blob levs))%nat).
  { clear. induction levs as [|ev levs IH]; [reflexivity|].
    cbn [filter]. unfold went_through at 1.
    assert (Hx : is_write ev && is_blob ev = false).
    { unfold is_write, is_blob. destruct (ev_call ev); try reflexivity;
        destruct (ev_raised ev); reflexivity. }
    destruct (is_write ev), (is_blob ev); cbn [orb List.length];
      try discriminate Hx; lia. }
  split; [apply (loop_outcome_writes O1)|].
  split; [unfold writes; lia|]. split; [lia|].
  intros Hacc. rewrite forallb_app in Hacc. apply andb_true_iff in Hacc.
  destruct Hacc as [Hacc _].
  destruct (loop_outcome_accepted O1 Hacc) as (Hw & Hv & He).
  split; [exact Hw|]. split; [rewrite Hv; reflexivity|].
  eapply Forall_impl; [|exact He]. intros t Ht. apply Exists_app. left.
  exact Ht.
Qed.

(** C9.  The engine compares no content.  For any snapshot, with text
    files, binary files and files that cannot be read, the upload phase
    counts a text file as uploaded exactly when a create or update call
    for it went through, whatever the remote holds.  And when the engine
    is run twice, the second run starting from the remote as the first one
    left it, and the remote refuses no call of the second run, that run
    writes every text file of the snapshot again, with its text and under
    its path, and counts every text file as uploaded again, next to the
    binary files. *)
Theorem text_files_uploaded_again readme_content files s :
  gather local = inr files ->
  (forall s0, exists result s1 evs,
      upload_phase local repo branch files s0 = (inr result, s1) /\
      log s1 = log s0 ++ evs /\
      writes evs <= Z.of_nat (List.length (filter (is_text_file local) files)) /\
      files_uploaded result
      = writes evs + Z.of_nat (List.length (filter is_blob evs)) /\
      files_uploaded result + files_skipped result
      = Z.of_nat (List.length files)) /\
  (let first := _upload_files local repo readme_content branch s in
   let second :=
     _upload_files local repo readme_content branch
                   (mkState (world (snd first)) []) in
   forallb accepted (log (snd second)) = true ->
   writes (log (snd second))
   = Z.of_nat (List.length (filter (is_text_file local) files)) /\
   Forall (fun t => Exists (writes_file local t) (log (snd second)))
          (filter (is_text_file local) files) /\
   exists result,
     fst second = inr result /\
     files_uploaded result
     = Z.of_nat (List.length (filter (is_text_file local) files)
                 + List.length (filter (is_binary_file local) files)) /\
     files_uploaded result + files_skipped result
     = Z.of_nat (List.length files)).
Proof.
  intros Hg. split.
  { intros s0. destruct (upload_phase_writes files s0)
      as (result & s1 & evs & H1 & H2 & H3 & H4 & H5 & _).
    exists result, s1, evs. auto. }
  intros first second. subst second.
  generalize (world (snd first)). clear first. intros w0.
  set (k := (fun x => let (files', _) := x in
                       upload_phase local repo branch files')
            : list upload_item * (GitRef * GitCommit * GitTree)
              -> M W upload_result).
  assert (Hrun : _upload_files local repo readme_content branch
                   (mkState w0 [])
                 = bind (ensure_branch local repo readme_content branch files)
                        k (mkState w0 [])).
  { unfold _upload_files. unfold bind at 1, lift at 1. rewrite Hg.
    reflexivity. }
  rewrite Hrun. clear Hrun.
  destruct (resolve_head_outcome repo branch (mkState w0 []))
    as (evs1 & Hlog1 & Hw1 & Hok1).
  cbn [log app] in Hlog1.
  destruct (resolve_head repo branch (mkState w0 [])) as [[e | head] s1]
    eqn:Hres; cbn [fst snd] in *.
  - (* the look-ups raised: some call of the run was refused *)
    intros Hacc. exfalso.
    set (h := fun e : exn =>
                if is_empty_repo e then
                  bind (initial_commit local repo readme_content branch files)
                       (fun files' =>
                          bind (resolve_head repo branch)
                               (fun head => ret (files', head)))
                else
                  bind (create_branch repo branch)
                       (fun head => ret (files, head))).
    assert (Heq : bind (ensure_branch local repo readme_content branch files)
                       k (mkState w0 [])
                  = bind (h e) k s1).
    { unfold ensure_branch, try_except, h, bind. rewrite Hres.
      reflexivity. }
    rewrite Heq in Hacc.
    assert (Hm : monotone (bind (h e) k)).
    { apply monotone_bind.
      - unfold h. destruct (is_empty_repo e).
        + apply monotone_bind; [apply monotone_initial_commit|].
          intros fs. apply monotone_bind; [apply monotone_resolve_head|mono].
        + apply monotone_bind; [apply monotone_create_branch|mono].
      - intros [fs hd]. apply monotone_upload_phase. }
    destruct (Hm s1) as [evs2 Hlog2]. rewrite Hlog2, Hlog1 in Hacc.
    rewrite forallb_app in Hacc. apply andb_true_iff in Hacc.
    destruct Hacc as [Hacc _]. destruct (Hok1 Hacc) as [hd Hhd].
    discriminate Hhd.
  - (* the branch is there: the snapshot goes to the upload phase as it is *)
    assert (Heq : bind (ensure_branch local repo readme_content branch files)
                       k (mkState w0 [])
                  = upload_phase local repo branch files s1).
    { unfold ensure_branch, try_except, k, bind. rewrite Hres.
      reflexivity. }
    rewrite Heq.
    destruct (upload_phase_writes files s1)
      as (result & s2 & evs2 & Hphase & Hlog2 & _ & _ & Hsum & Hall2).
    rewrite Hphase. cbn [fst snd]. rewrite Hlog2, Hlog1.
    rewrite forallb_app, writes_app. intros Hacc.
    apply andb_true_iff in Hacc. destruct Hacc as [_ Hacc].
    destruct (Hall2 Hacc) as (Hw & Hu & He).
    split; [lia|]. split.
    + eapply Forall_impl; [|exact He]. intros t Ht. apply Exists_app. right.
      exact Ht.
    + exists result. auto.
Qed.

End SecondRun.

Lemma text_files_uploaded_again_witness :
  let first :=
    _upload_files Cases.binary_first Fixtures.the_repo None (lit "main")
                  (Sim.start Fixtures.seeded) in
  let second :=
    _upload_files Cases.binary_first Fixtures.the_repo None (lit "main")
                  (mkState (world (snd first)) []) in
  fst first = inr (mkResult 2 0) /\
  writes (log (snd second)) = 1%Z /\
  Exists (writes_file Cases.binary_first Fixtures.a_txt) (log (snd second)).
Proof.
  intros first second. split; [reflexivity|].
  pose proof (@text_files_uploaded_again _ _ Cases.binary_first
                Fixtures.the_repo (lit "main") None
                [Fixtures.b_bin; Fixtures.a_txt] (Sim.start Fixtures.seeded)
                eq_refl) as [_ H].
  cbv zeta in H. fold first in H. fold second in H.
  destruct H as (Hw & He & _).
  - vm_compute. reflexivity.
  - split; [exact Hw|]. inversion He as [|t l Ht _]. exact Ht.
Defined.
